(** * ImageForge: client-side state orchestration of the prompt-to-image chatbot

  A shallow embedding of [src/Chatbot/src/components/ImageForge.tsx]:
  the React state of the component, its event handlers written as
  asynchronous processes (one constructor per [await]), the browser's
  event loop as a step function over a world, the bounded history list
  and undo stack, and the thumbnail size computation on binary64
  numbers. *)

From Stdlib Require Import String Ascii List ZArith NArith QArith Qround Qabs Qpower.
From Stdlib Require Import Bool Lia Lqa.
Import ListNotations.
Close Scope Q_scope.


(* ================================================================== *)
(** ** JavaScript strings: sequences of UTF-16 code units *)

Module JsString.

Definition jsstring : Type := list N.

(** A string literal of the source (ASCII only). *)
Definition js (s : string) : jsstring :=
  map N_of_ascii (list_ascii_of_string s).

Fixpoint eqb (s t : jsstring) : bool :=
  match s, t with
  | [], [] => true
  | c :: s', d :: t' => N.eqb c d && eqb s' t'
  | _, _ => false
  end.

(** ECMAScript WhiteSpace and LineTerminator code points, the ones
    [String.prototype.trim] strips. *)
Definition isWhiteSpace (c : N) : bool :=
  ((0x09 <=? c) && (c <=? 0x0D))%N
  || (c =? 0x20)%N || (c =? 0xA0)%N || (c =? 0x1680)%N
  || ((0x2000 <=? c) && (c <=? 0x200A))%N
  || (c =? 0x2028)%N || (c =? 0x2029)%N || (c =? 0x202F)%N
  || (c =? 0x205F)%N || (c =? 0x3000)%N || (c =? 0xFEFF)%N.

Fixpoint trimStart (s : jsstring) : jsstring :=
  match s with
  | [] => []
  | c :: r => if isWhiteSpace c then trimStart r else s
  end.

Definition trimEnd (s : jsstring) : jsstring := rev (trimStart (rev s)).

Definition trim (s : jsstring) : jsstring := trimEnd (trimStart s).

(** ToBoolean on a string: only the empty string is falsy. *)
Definition truthy (s : jsstring) : bool :=
  match s with [] => false | _ :: _ => true end.

(** A prompt made of white space only (the empty string included). *)
Definition blank (s : jsstring) : bool := forallb isWhiteSpace s.

Fixpoint startsWith (s p : jsstring) : bool :=
  match p, s with
  | [], _ => true
  | _ :: _, [] => false
  | d :: p', c :: s' => N.eqb c d && startsWith s' p'
  end.

(** [s.includes(p)] *)
Fixpoint includes (s p : jsstring) : bool :=
  startsWith s p
  || match s with
     | [] => false
     | _ :: r => includes r p
     end.

End JsString.
Import JsString.

(* ================================================================== *)
(** ** JavaScript numbers: IEEE 754 binary64, round to nearest even

  A finite number is represented by the rational it denotes; every
  arithmetic operation computes the exact result and rounds it to the
  nearest binary64 value, ties to even (53 bits of precision, gradual
  underflow below [2^-1022]).  Results of magnitude [2^1024] and above
  (which JavaScript turns into [Infinity]) are outside this model; image
  dimensions are unsigned 32-bit integers, far below that. *)

Module JsNumber.
#[local] Open Scope Q_scope.

Definition number : Type := Q.

Definition pow2 (e : Z) : Q := Qpower 2 e.

(** [floor (log2 |x|)] for [x <> 0]. *)
Definition ilog2 (x : Q) : Z :=
  let n := Z.abs (Qnum x) in
  let d := Zpos (Qden x) in
  let e := (Z.log2 n - Z.log2 d)%Z in
  if Qle_bool (pow2 e) (Qabs x) then e else (e - 1)%Z.

(** Nearest integer, ties to the even one. *)
Definition roundHalfEven (x : Q) : Z :=
  let f := Qfloor x in
  match Qcompare (x - inject_Z f) (1 # 2) with
  | Lt => f
  | Gt => (f + 1)%Z
  | Eq => if Z.even f then f else (f + 1)%Z
  end.

(** Exponent of the unit in the last place of the binade of [x]. *)
Definition ulpExp (x : Q) : Z := Z.max (ilog2 x - 52) (-1074).

Definition round64 (x : Q) : number :=
  if Qeq_bool x 0 then 0
  else
    let e := ulpExp x in
    inject_Z (roundHalfEven (x / pow2 e)) * pow2 e.

Definition mul (x y : number) : number := round64 (x * y).
Definition div (x y : number) : number := round64 (x / y).

(** [x > y] on numbers. *)
Definition gt (x y : number) : bool := negb (Qle_bool x y).

(** An integer-valued number (image dimensions, [maxSize]). *)
Definition ofZ (z : Z) : number := inject_Z z.

(** WebIDL conversion to [unsigned long], the type of [canvas.width]
    and [canvas.height]: truncate towards zero, then reduce modulo
    [2^32]. *)
Definition truncate (x : Q) : Z :=
  if Qle_bool 0 x then Qfloor x else Qceiling x.

Definition toUnsignedLong (x : number) : Z := (truncate x mod 2 ^ 32)%Z.

(** The unit roundoff of binary64 and half the smallest subnormal: the
    relative and the absolute part of the error of one rounding. *)
Definition u53 : Q := pow2 (-53).
Definition eta : Q := pow2 (-1075).

End JsNumber.

(* ================================================================== *)
(** ** The thumbnail encoder's size computation
  ([createThumbnailDataUri], the body of [img.onload]) *)

Module Thumbnail.
Import JsNumber.
#[local] Open Scope Q_scope.

(** [let { width, height } = img; if (width > height) { ... } else { ... }]:
    the pair of numbers later assigned to the canvas and passed to
    [drawImage]. *)
Definition scaledSize (width height maxSize : number) : number * number :=
  if gt width height then
    if gt width maxSize
    then (maxSize, mul height (div maxSize width))
    else (width, height)
  else
    if gt height maxSize
    then (mul width (div maxSize height), maxSize)
    else (width, height).

(** The default value of the [maxSize] parameter. *)
Definition defaultMaxSize : number := ofZ 400.

(** The literal [0.7]: the binary64 number nearest to 7/10. *)
Definition jpegQuality : number := round64 (7 # 10).

(** [canvas.width = width; canvas.height = height]. *)
Definition canvasSize (width height maxSize : number) : Z * Z :=
  let '(w, h) := scaledSize width height maxSize in
  (toUnsignedLong w, toUnsignedLong h).

End Thumbnail.

(* ================================================================== *)
(** ** The values exchanged with the flows and with the browser *)

Module Flows.

(** [RefinedPromptSchema] / [SuggestedEditSchema]: a title and a description. *)
Record Suggestion : Type := mkSuggestion {
  title : jsstring;
  description : jsstring
}.

(** [RefinePromptV2Output] of [refine-prompt-v2.ts]. *)
Record RefinePromptV2Output : Type := mkRefined {
  basic : list Suggestion;
  intermediate : list Suggestion;
  advanced : list Suggestion
}.

(** [SuggestEditsOutput] of [suggest-edits.ts]. *)
Record SuggestEditsOutput : Type := mkSuggested {
  creative : list Suggestion;
  style : list Suggestion;
  improvements : list Suggestion
}.

End Flows.

Module Js.

(** What [JSON.parse] can return. *)
#[local] Unset Elimination Schemes.
Inductive json : Type :=
| JNull
| JBool (b : bool)
| JNumber (x : Q)
| JString (s : jsstring)
| JArray (items : list json)
| JObject (members : list (jsstring * json)).
#[local] Set Elimination Schemes.

(** [url !== thumbnailUrl] where [thumbnailUrl] is a string: a value that
    is not a string is never strictly equal to one. *)
Definition strictEqString (v : json) (s : jsstring) : bool :=
  match v with
  | JString t => JsString.eqb t s
  | _ => false
  end.

(** A thrown or rejected value. *)
Inductive Thrown : Type :=
| JsError (message : jsstring)
| DOMException (name message : jsstring)
| NotAnError.

Definition instanceofError (e : Thrown) : bool :=
  match e with
  | NotAnError => false
  | _ => true
  end.

Definition messageOf (e : Thrown) : jsstring :=
  match e with
  | JsError m => m
  | DOMException _ m => m
  | NotAnError => []
  end.

(** The settled state of a promise. *)
Inductive Result (A : Type) : Type :=
| Fulfilled (a : A)
| Rejected (e : Thrown).
Arguments Fulfilled {A} a.
Arguments Rejected {A} e.

(** What [img.onload] finds: the decoded image's size and whether
    [canvas.getContext('2d')] yields a context. *)
Record LoadedImage : Type := mkLoaded {
  width : Z;
  height : Z;
  context2d : bool
}.

(** The built-ins of the browser that the component calls and whose
    results it does not compute itself. *)
Class Browser : Type := {
  (** [JSON.parse]; rejected with what it throws. *)
  JSON_parse : jsstring -> Result json;
  (** [JSON.stringify] of the history array. *)
  JSON_stringify : list json -> jsstring;
  (** [localStorage.setItem] of the history slot: the exception it
      throws for this value, if any. *)
  setItem_throws : jsstring -> option Thrown;
  (** [ctx.drawImage(img, 0, 0, width, height)] on a canvas of the given
      size followed by [canvas.toDataURL(type, quality)]: source image,
      canvas width and height, drawn width and height, type, quality. *)
  toDataURL :
    jsstring -> Z -> Z -> JsNumber.number -> JsNumber.number ->
    jsstring -> JsNumber.number -> jsstring
}.

End Js.

(* ================================================================== *)
(** ** The component: state, processes and handlers *)

Module ImageForge.
Import Flows Js.

Definition LOCAL_STORAGE_HISTORY_KEY : jsstring := js "visionaryAppImageHistory".
Definition MAX_HISTORY_LENGTH : nat := 5.
Definition MAX_UNDO_STEPS : nat := 5.

(** ['generate' | 'edit' | 'suggest'], the non-null values of [activeLoader]. *)
Inductive Loader : Type := LoaderGenerate | LoaderEdit | LoaderSuggest.

(** The [context] argument of [handleApiError]. *)
Inductive ApiContext : Type :=
| CtxGenerate | CtxEdit | CtxSuggest | CtxRefine.

(** The [useState] cells of the component. *)
Record State : Type := mkState {
  prompt : jsstring;
  editPrompt : jsstring;
  imageUrl : option jsstring;
  undoStack : list jsstring;
  isUploadedImage : bool;
  isLoading : bool;
  isRefining : bool;
  error : option jsstring;
  imageHistory : list json;
  activeLoader : option Loader;
  refinedPrompts : option RefinePromptV2Output;
  suggestedEdits : option SuggestEditsOutput;
  isHistorySheetOpen : bool
}.

Definition initialState : State :=
  {| prompt := []; editPrompt := []; imageUrl := None; undoStack := [];
     isUploadedImage := false; isLoading := false; isRefining := false;
     error := None; imageHistory := []; activeLoader := None;
     refinedPrompts := None; suggestedEdits := None;
     isHistorySheetOpen := false |}.

(** The setters returned by [useState], applied to a value. *)
Definition setPrompt (v : jsstring) (s : State) : State :=
  mkState v (editPrompt s) (imageUrl s) (undoStack s) (isUploadedImage s)
    (isLoading s) (isRefining s) (error s) (imageHistory s) (activeLoader s)
    (refinedPrompts s) (suggestedEdits s) (isHistorySheetOpen s).
Definition setEditPrompt (v : jsstring) (s : State) : State :=
  mkState (prompt s) v (imageUrl s) (undoStack s) (isUploadedImage s)
    (isLoading s) (isRefining s) (error s) (imageHistory s) (activeLoader s)
    (refinedPrompts s) (suggestedEdits s) (isHistorySheetOpen s).
Definition setImageUrl (v : option jsstring) (s : State) : State :=
  mkState (prompt s) (editPrompt s) v (undoStack s) (isUploadedImage s)
    (isLoading s) (isRefining s) (error s) (imageHistory s) (activeLoader s)
    (refinedPrompts s) (suggestedEdits s) (isHistorySheetOpen s).
Definition setUndoStack (v : list jsstring) (s : State) : State :=
  mkState (prompt s) (editPrompt s) (imageUrl s) v (isUploadedImage s)
    (isLoading s) (isRefining s) (error s) (imageHistory s) (activeLoader s)
    (refinedPrompts s) (suggestedEdits s) (isHistorySheetOpen s).
Definition setIsUploadedImage (v : bool) (s : State) : State :=
  mkState (prompt s) (editPrompt s) (imageUrl s) (undoStack s) v
    (isLoading s) (isRefining s) (error s) (imageHistory s) (activeLoader s)
    (refinedPrompts s) (suggestedEdits s) (isHistorySheetOpen s).
Definition setIsLoading (v : bool) (s : State) : State :=
  mkState (prompt s) (editPrompt s) (imageUrl s) (undoStack s)
    (isUploadedImage s) v (isRefining s) (error s) (imageHistory s)
    (activeLoader s) (refinedPrompts s) (suggestedEdits s)
    (isHistorySheetOpen s).
Definition setIsRefining (v : bool) (s : State) : State :=
  mkState (prompt s) (editPrompt s) (imageUrl s) (undoStack s)
    (isUploadedImage s) (isLoading s) v (error s) (imageHistory s)
    (activeLoader s) (refinedPrompts s) (suggestedEdits s)
    (isHistorySheetOpen s).
Definition setError (v : option jsstring) (s : State) : State :=
  mkState (prompt s) (editPrompt s) (imageUrl s) (undoStack s)
    (isUploadedImage s) (isLoading s) (isRefining s) v (imageHistory s)
    (activeLoader s) (refinedPrompts s) (suggestedEdits s)
    (isHistorySheetOpen s).
Definition setImageHistory (v : list json) (s : State) : State :=
  mkState (prompt s) (editPrompt s) (imageUrl s) (undoStack s)
    (isUploadedImage s) (isLoading s) (isRefining s) (error s) v
    (activeLoader s) (refinedPrompts s) (suggestedEdits s)
    (isHistorySheetOpen s).
Definition setActiveLoader (v : option Loader) (s : State) : State :=
  mkState (prompt s) (editPrompt s) (imageUrl s) (undoStack s)
    (isUploadedImage s) (isLoading s) (isRefining s) (error s)
    (imageHistory s) v (refinedPrompts s) (suggestedEdits s)
    (isHistorySheetOpen s).
Definition setRefinedPrompts (v : option RefinePromptV2Output) (s : State)
  : State :=
  mkState (prompt s) (editPrompt s) (imageUrl s) (undoStack s)
    (isUploadedImage s) (isLoading s) (isRefining s) (error s)
    (imageHistory s) (activeLoader s) v (suggestedEdits s)
    (isHistorySheetOpen s).
Definition setSuggestedEdits (v : option SuggestEditsOutput) (s : State)
  : State :=
  mkState (prompt s) (editPrompt s) (imageUrl s) (undoStack s)
    (isUploadedImage s) (isLoading s) (isRefining s) (error s)
    (imageHistory s) (activeLoader s) (refinedPrompts s) v
    (isHistorySheetOpen s).
Definition setIsHistorySheetOpen (v : bool) (s : State) : State :=
  mkState (prompt s) (editPrompt s) (imageUrl s) (undoStack s)
    (isUploadedImage s) (isLoading s) (isRefining s) (error s)
    (imageHistory s) (activeLoader s) (refinedPrompts s) (suggestedEdits s)
    v.

(** The argument of [toast]. *)
Record Toast : Type := mkToast {
  destructive : bool;           (* [variant: "destructive"] *)
  toastTitle : jsstring;
  toastDescription : jsstring
}.

(** The arguments of one [console.error] call. *)
Inductive LogEntry : Type :=
| LogThrown (e : Thrown)
| LogMessage (label : jsstring) (e : Thrown).

(** An invocation of a server flow. *)
Inductive Call : Type :=
| CallGenerateImage (prompt : jsstring)
| CallEditImage (existingImageDataUri newPrompt : jsstring)
| CallSuggestEdits (imageDataUri : jsstring)
| CallRefinePromptV2 (prompt : jsstring).

(** An asynchronous function body: synchronous effects, and one
    constructor per awaited promise carrying the rest of the body. *)
Inductive Proc : Type :=
| Done
| Do (f : State -> State) (k : Proc)
| SetImageHistory (f : list json -> list json) (k : Proc)
| ShowToast (t : Toast) (k : Proc)
| ConsoleError (entry : LogEntry) (k : Proc)
| AwaitGenerateImage (prompt : jsstring) (k : Result jsstring -> Proc)
| AwaitEditImage (existingImageDataUri newPrompt : jsstring)
    (k : Result jsstring -> Proc)
| AwaitSuggestEdits (imageDataUri : jsstring)
    (k : Result SuggestEditsOutput -> Proc)
| AwaitRefinePromptV2 (prompt : jsstring)
    (k : Result RefinePromptV2Output -> Proc)
| AwaitImageLoad (src : jsstring) (k : option LoadedImage -> Proc).

Notation "f ;; k" := (Do f k) (at level 61, right associativity).

Section Handlers.
Context {B : Browser}.

(** [createThumbnailDataUri(dataUri, maxSize = 400)]; [k] receives the
    settled promise. *)
Definition createThumbnailDataUri (dataUri : jsstring)
    (maxSize : JsNumber.number) (k : Result jsstring -> Proc) : Proc :=
  AwaitImageLoad dataUri (fun loaded =>
    match loaded with
    | None => k (Rejected NotAnError)                       (* img.onerror *)
    | Some img =>
        if negb (context2d img)
        then k (Rejected (JsError (js "Could not get canvas context")))
        else
          let '(width, height) :=
            Thumbnail.scaledSize (JsNumber.ofZ (width img))
              (JsNumber.ofZ (height img)) maxSize in
          k (Fulfilled
               (toDataURL dataUri
                  (JsNumber.toUnsignedLong width)
                  (JsNumber.toUnsignedLong height)
                  width height (js "image/jpeg") Thumbnail.jpegQuality))
    end).

(** The updater passed to [setImageHistory] in [updateImageHistory]. *)
Definition recordThumbnail (thumbnailUrl : jsstring)
    (prevHistory : list json) : list json :=
  let filteredHistory :=
    filter (fun url => negb (strictEqString url thumbnailUrl)) prevHistory in
  let newHistory := JString thumbnailUrl :: filteredHistory in
  firstn MAX_HISTORY_LENGTH newHistory.

Definition updateImageHistory (newImageUrl : jsstring) (k : Proc) : Proc :=
  createThumbnailDataUri newImageUrl Thumbnail.defaultMaxSize (fun r =>
    match r with
    | Fulfilled thumbnailUrl =>
        SetImageHistory (recordThumbnail thumbnailUrl) k
    | Rejected e =>
        ConsoleError
          (LogMessage (js "Failed to create thumbnail for history") e)
          (ShowToast
             (mkToast true (js "History Update Failed")
                (js "Could not create a thumbnail to save in history."))
             k)
    end).

Definition rateLimitMessage : jsstring :=
  js "You have exceeded your current quota for the AI model. Please check your Google Cloud project to ensure billing is enabled and your plan supports the desired usage. This is not an application error.".

Definition handleApiError (e : Thrown) (context : ApiContext) (k : Proc)
  : Proc :=
  let report (errorTitle errorMessage : jsstring) : Proc :=
    setError (Some errorMessage) ;;
    ShowToast (mkToast true errorTitle errorMessage) k in
  ConsoleError (LogThrown e)
    (let errorMessage :=
       if instanceofError e then messageOf e
       else js "An unknown error occurred." in
     if includes errorMessage (js "429") then
       report (js "Rate Limit Exceeded") rateLimitMessage
     else
       match context with
       | CtxGenerate =>
           report (js "Generation Failed")
             (js "Could not generate image. " ++ errorMessage)
       | CtxEdit =>
           report (js "Editing Failed")
             (js "Could not edit image. " ++ errorMessage)
       | CtxSuggest =>
           report (js "Suggestion Failed")
             (js "Could not suggest edits. " ++ errorMessage)
       | CtxRefine =>
           ConsoleError (LogMessage (js "Failed to refine prompt:") e) k
       end).

(** The [finally] block of [handleGenerateImage]. *)
Definition generateFinally : Proc :=
  setIsLoading false ;; setIsRefining false ;; setActiveLoader None ;; Done.

(** The inner [try] of [handleGenerateImage], from its [await] on:
    [const refinedResults = await refinePromptV2({ prompt: generationPrompt });
     setRefinedPrompts(refinedResults);] with its [catch], then the outer
    [finally]. *)
Definition awaitRefinedPrompts (generationPrompt : jsstring) : Proc :=
  AwaitRefinePromptV2 generationPrompt (fun refined =>
    match refined with
    | Fulfilled refinedResults =>
        setRefinedPrompts (Some refinedResults) ;; generateFinally
    | Rejected refineError =>
        handleApiError refineError CtxRefine generateFinally
    end).

(** The rest of the [try] of [handleGenerateImage] once
    [await updateImageHistory(result.imageUrl)] has returned. *)
Definition afterGenerated (generationPrompt : jsstring) : Proc :=
  setEditPrompt [] ;;
  setIsRefining true ;;
  awaitRefinedPrompts generationPrompt.

Definition handleGenerateImage (generationPrompt : jsstring) : Proc :=
  if negb (truthy (trim generationPrompt)) then
    setError (Some (js "Cannot generate image from an empty prompt.")) ;;
    Done
  else
    setIsLoading true ;;
    setActiveLoader (Some LoaderGenerate) ;;
    setError None ;;
    setIsUploadedImage false ;;
    setImageUrl None ;;
    setUndoStack [] ;;
    setSuggestedEdits None ;;
    setRefinedPrompts None ;;
    AwaitGenerateImage generationPrompt (fun result =>
      match result with
      | Fulfilled resultImageUrl =>
          setImageUrl (Some resultImageUrl) ;;
          updateImageHistory resultImageUrl (afterGenerated generationPrompt)
      | Rejected e => handleApiError e CtxGenerate generateFinally
      end).

Definition handleSuggestEdits (dataUri : jsstring) (k : Proc) : Proc :=
  let finally : Proc :=
    setIsLoading false ;; setActiveLoader None ;; k in
  setIsLoading true ;;
  setActiveLoader (Some LoaderSuggest) ;;
  setError None ;;
  setSuggestedEdits None ;;
  AwaitSuggestEdits dataUri (fun r =>
    match r with
    | Fulfilled results => setSuggestedEdits (Some results) ;; finally
    | Rejected e => handleApiError e CtxSuggest finally
    end).

(** [editActionPrompt || editPrompt] *)
Definition finalEditPromptOf (editActionPrompt : option jsstring)
    (editPrompt : jsstring) : jsstring :=
  match editActionPrompt with
  | Some a => if truthy a then a else editPrompt
  | None => editPrompt
  end.

(** [setUndoStack(prev => [imageUrl, ...prev].slice(0, MAX_UNDO_STEPS))] *)
Definition pushUndo (imageUrl : jsstring) (s : State) : State :=
  setUndoStack (firstn MAX_UNDO_STEPS (imageUrl :: undoStack s)) s.

(** The updater of the [catch] branch of [handleEditImage]:
    [const [lastImage, ...rest] = prev; if (lastImage) setImageUrl(lastImage); return rest;] *)
Definition rollbackUndo (s : State) : State :=
  match undoStack s with
  | [] => setUndoStack [] s
  | lastImage :: rest =>
      setUndoStack rest
        (if truthy lastImage then setImageUrl (Some lastImage) s else s)
  end.

(** [handleEditImage]; [render] is the state of the render whose closure
    the handler is ([editPrompt] and [imageUrl] are read from it). *)
Definition handleEditImage (render : State)
    (editActionPrompt : option jsstring) : Proc :=
  let finalEditPrompt :=
    finalEditPromptOf editActionPrompt (editPrompt render) in
  if negb (truthy (trim finalEditPrompt)) then
    setError (Some (js "Please enter a prompt to edit the image.")) ;; Done
  else
    match imageUrl render with
    | Some ((_ :: _) as currentImageUrl) =>
        let finally : Proc :=
          setIsLoading false ;; setActiveLoader None ;; Done in
        setIsLoading true ;;
        setActiveLoader (Some LoaderEdit) ;;
        setError None ;;
        setSuggestedEdits None ;;
        pushUndo currentImageUrl ;;
        AwaitEditImage currentImageUrl finalEditPrompt (fun result =>
          match result with
          | Fulfilled editedImageDataUri =>
              setImageUrl (Some editedImageDataUri) ;;
              updateImageHistory editedImageDataUri
                (setIsUploadedImage false ;;
                 setEditPrompt [] ;;
                 handleSuggestEdits editedImageDataUri finally)
          | Rejected e =>
              handleApiError e CtxEdit (rollbackUndo ;; finally)
          end)
    | _ =>
        setError
          (Some (js "No image to edit. Please generate or upload an image first.")) ;;
        Done
    end.

Definition handleReset : Proc :=
  setPrompt [] ;;
  setEditPrompt [] ;;
  setImageUrl None ;;
  setUndoStack [] ;;
  setError None ;;
  setRefinedPrompts None ;;
  setIsUploadedImage false ;;
  setSuggestedEdits None ;;
  Done.

Definition handleHistoryImageClick (histImageUrl : jsstring) : Proc :=
  setImageUrl (Some histImageUrl) ;;
  setUndoStack [] ;;
  setEditPrompt [] ;;
  setError None ;;
  setPrompt [] ;;
  setRefinedPrompts None ;;
  setIsUploadedImage true ;;
  setIsHistorySheetOpen false ;;
  ShowToast
    (mkToast false (js "Image Loaded")
       (js "Analyzing your image for creative suggestions..."))
    (handleSuggestEdits histImageUrl Done).

(** The refresh button of the suggestions panel:
    [onClick={() => imageUrl && handleSuggestEdits(imageUrl)}]. *)
Definition onSuggestEditsClick (render : State) : Proc :=
  match imageUrl render with
  | Some ((_ :: _) as currentImageUrl) => handleSuggestEdits currentImageUrl Done
  | _ => Done
  end.

(** [handleUndo]; [undoStack] is read from the render's closure. *)
Definition handleUndo (render : State) : Proc :=
  match undoStack render with
  | lastImage :: rest =>
      setImageUrl (Some lastImage) ;;
      setUndoStack rest ;;
      ShowToast
        (mkToast false (js "Undo Successful")
           (js "Reverted to the previous image state."))
        Done
  | [] => Done
  end.

(* ---------------------------------------------------------------- *)
(** *** The event loop *)

(** What the promise of a suspended process settles with. *)
Inductive Reply : Type :=
| ReplyImage (r : Result jsstring)          (* generateImage, editImage *)
| ReplySuggest (r : Result SuggestEditsOutput)
| ReplyRefine (r : Result RefinePromptV2Output)
| ReplyImageLoad (r : option LoadedImage).  (* img.onload / img.onerror *)

(** The component together with what it acts on. *)
Record World : Type := mkWorld {
  st : State;
  localStorage : option jsstring;   (* the item LOCAL_STORAGE_HISTORY_KEY *)
  toasts : list Toast;              (* oldest first *)
  console : list LogEntry;          (* oldest first *)
  calls : list Call;                (* flow invocations, oldest first *)
  pending : list (nat * Proc);      (* processes suspended at an await *)
  nextId : nat;
  historySet : bool                 (* [setImageHistory] called since the last render *)
}.

Definition initialWorld (stored : option jsstring) : World :=
  mkWorld initialState stored [] [] [] [] 0 false.

Definition withState (f : State -> State) (w : World) : World :=
  mkWorld (f (st w)) (localStorage w) (toasts w) (console w) (calls w)
    (pending w) (nextId w) (historySet w).

Definition suspend (p : Proc) (c : option Call) (w : World) : World :=
  mkWorld (st w) (localStorage w) (toasts w) (console w)
    (match c with Some c => calls w ++ [c] | None => calls w end)
    (pending w ++ [(nextId w, p)]) (S (nextId w)) (historySet w).

(** Run a process up to its next await. *)
Fixpoint run (p : Proc) (w : World) : World :=
  match p with
  | Done => w
  | Do f k => run k (withState f w)
  | SetImageHistory f k =>
      run k
        (mkWorld (setImageHistory (f (imageHistory (st w))) (st w))
           (localStorage w) (toasts w) (console w) (calls w) (pending w)
           (nextId w) true)
  | ShowToast t k =>
      run k
        (mkWorld (st w) (localStorage w) (toasts w ++ [t]) (console w)
           (calls w) (pending w) (nextId w) (historySet w))
  | ConsoleError entry k =>
      run k
        (mkWorld (st w) (localStorage w) (toasts w) (console w ++ [entry])
           (calls w) (pending w) (nextId w) (historySet w))
  | AwaitGenerateImage prompt _ =>
      suspend p (Some (CallGenerateImage prompt)) w
  | AwaitEditImage uri newPrompt _ =>
      suspend p (Some (CallEditImage uri newPrompt)) w
  | AwaitSuggestEdits uri _ => suspend p (Some (CallSuggestEdits uri)) w
  | AwaitRefinePromptV2 prompt _ =>
      suspend p (Some (CallRefinePromptV2 prompt)) w
  | AwaitImageLoad _ _ => suspend p None w
  end.

(** The continuation of a suspended process for a reply of its kind. *)
Definition resume (p : Proc) (r : Reply) : option Proc :=
  match p, r with
  | AwaitGenerateImage _ k, ReplyImage x => Some (k x)
  | AwaitEditImage _ _ k, ReplyImage x => Some (k x)
  | AwaitSuggestEdits _ k, ReplySuggest x => Some (k x)
  | AwaitRefinePromptV2 _ k, ReplyRefine x => Some (k x)
  | AwaitImageLoad _ k, ReplyImageLoad x => Some (k x)
  | _, _ => None
  end.

Fixpoint lookupPending (id : nat) (l : list (nat * Proc)) : option Proc :=
  match l with
  | [] => None
  | (i, p) :: r => if Nat.eqb i id then Some p else lookupPending id r
  end.

Definition removePending (id : nat) (l : list (nat * Proc))
  : list (nat * Proc) :=
  filter (fun ip => negb (Nat.eqb (fst ip) id)) l.

(** The second [useEffect]: write [imageHistory] to the storage item. *)
Definition persistHistoryEffect (imageHistory : list json) (w : World)
  : World :=
  let value := JSON_stringify imageHistory in
  match setItem_throws value with
  | None =>
      mkWorld (st w) (Some value) (toasts w) (console w) (calls w)
        (pending w) (nextId w) (historySet w)
  | Some e =>
      let description :=
        match e with
        | DOMException name _ =>
            if JsString.eqb name (js "QuotaExceededError")
            then js "Could not save to image history as browser storage is full. The history is limited to 5 images, but current images may be too large. Older images are automatically removed."
            else js "An error occurred while saving image history."
        | _ => js "An error occurred while saving image history."
        end in
      mkWorld (st w) (localStorage w)
        (toasts w ++ [mkToast true (js "History Save Failed") description])
        (console w
         ++ [LogMessage (js "Failed to save image history to localStorage") e])
        (calls w) (pending w) (nextId w) (historySet w)
  end.

(** The first [useEffect]: read the stored history once, on mount. *)
Definition loadHistoryEffect (w : World) : World :=
  match localStorage w with
  | Some ((_ :: _) as storedHistory) =>
      match JSON_parse storedHistory with
      | Fulfilled (JArray parsedHistory) =>
          run (SetImageHistory (fun _ => parsedHistory) Done) w
      | Fulfilled _ => w
      | Rejected e =>
          run
            (ConsoleError
               (LogMessage
                  (js "Failed to load image history from localStorage") e)
               (ShowToast
                  (mkToast true (js "History Load Failed")
                     (js "Could not load your image history."))
                  Done))
            w
      end
  | _ => w
  end.

(** After the handlers of an event have run, React renders again and
    runs the effects whose dependencies changed: the persisting effect
    depends on [imageHistory]. *)
Definition commit (w : World) : World :=
  if historySet w
  then
    persistHistoryEffect (imageHistory (st w))
      (mkWorld (st w) (localStorage w) (toasts w) (console w) (calls w)
         (pending w) (nextId w) false)
  else w.

(** What can happen to the component. *)
Inductive Event : Type :=
| Mount
| PromptChange (value : jsstring)        (* [onChange] of the prompt input *)
| EditPromptChange (value : jsstring)    (* [onChange] of the edit input *)
| GenerateImage (generationPrompt : jsstring)
| EditImage (editActionPrompt : option jsstring)
| SuggestEdits
| Undo
| Reset
| HistoryImageClick (histImageUrl : jsstring)
| Settle (id : nat) (r : Reply).

Definition step (w : World) (ev : Event) : World :=
  match ev with
  | Mount =>
      (* both effects of the first render, in source order; the second
         one still sees the [imageHistory] of that render *)
      commit (persistHistoryEffect (imageHistory (st w)) (loadHistoryEffect w))
  | PromptChange value => commit (run (setPrompt value ;; Done) w)
  | EditPromptChange value => commit (run (setEditPrompt value ;; Done) w)
  | GenerateImage generationPrompt =>
      commit (run (handleGenerateImage generationPrompt) w)
  | EditImage editActionPrompt =>
      commit (run (handleEditImage (st w) editActionPrompt) w)
  | SuggestEdits => commit (run (onSuggestEditsClick (st w)) w)
  | Undo => commit (run (handleUndo (st w)) w)
  | Reset => commit (run handleReset w)
  | HistoryImageClick histImageUrl =>
      commit (run (handleHistoryImageClick histImageUrl) w)
  | Settle id r =>
      match lookupPending id (pending w) with
      | Some p =>
          match resume p r with
          | Some k =>
              commit
                (run k
                   (mkWorld (st w) (localStorage w) (toasts w) (console w)
                      (calls w) (removePending id (pending w)) (nextId w)
                      (historySet w)))
          | None => w
          end
      | None => w
      end
  end.

Definition steps (w : World) (evs : list Event) : World :=
  fold_left step evs w.

(** The worlds the component can be in: those the event loop reaches
    from the first render. *)
Definition reachable (w : World) : Prop :=
  exists (stored : option jsstring) (evs : list Event),
    w = steps (initialWorld stored) evs.

(** The thumbnail [createThumbnailDataUri] resolves with for a loaded
    image: the canvas of the scaled size, encoded as JPEG at quality 0.7. *)
Definition thumbnailOf (src : jsstring) (img : LoadedImage) : jsstring :=
  let drawn :=
    Thumbnail.scaledSize (JsNumber.ofZ (width img))
      (JsNumber.ofZ (height img)) Thumbnail.defaultMaxSize in
  toDataURL src (JsNumber.toUnsignedLong (fst drawn))
    (JsNumber.toUnsignedLong (snd drawn)) (fst drawn) (snd drawn)
    (js "image/jpeg") Thumbnail.jpegQuality.

(** The world once the promise [id] has settled. *)
Definition dropPending (id : nat) (w : World) : World :=
  mkWorld (st w) (localStorage w) (toasts w) (console w) (calls w)
    (removePending id (pending w)) (nextId w) (historySet w).

(** Identifiers of suspended processes are below the next one to give. *)
Definition fresh (w : World) : Prop :=
  Forall (fun ip => fst ip < nextId w) (pending w).


(** The undo stack after editing, one after the other, the images given
    (oldest first). *)
Definition pushAll (images : list jsstring) (s : State) : State :=
  fold_left (fun s' i => pushUndo i s') images s.

(** [n] clicks on the Undo button. *)
Definition undoTimes (n : nat) (w : World) : World :=
  steps w (repeat Undo n).

(** The messages of the validation guards. *)
Definition emptyPromptError : jsstring :=
  js "Cannot generate image from an empty prompt.".
Definition emptyEditPromptError : jsstring :=
  js "Please enter a prompt to edit the image.".
Definition noImageError : jsstring :=
  js "No image to edit. Please generate or upload an image first.".

(** The toast of the loading effect's [catch] has been shown. *)
Definition loadErrorReported (w : World) : bool :=
  existsb (fun t => JsString.eqb (toastTitle t) (js "History Load Failed"))
    (toasts w).

End Handlers.

(* ---------------------------------------------------------------- *)
(** *** A browser for worked examples *)

Module Example.

(** The code unit of the double quote. *)
Definition dq : jsstring := [0x22]%N.

(** The document [["a","a"]]: an array holding the same string twice. *)
Definition twiceA : jsstring :=
  js "[" ++ dq ++ js "a" ++ dq ++ js "," ++ dq ++ js "a" ++ dq ++ js "]".

(** A few stored documents and what [JSON.parse] makes of them. *)
Definition documents : list (jsstring * json) :=
  [ (js "[]", JArray []);
    (twiceA, JArray [JString (js "a"); JString (js "a")]);
    (js "[7,7,1,2,3,4,5]",
     JArray [JNumber 7; JNumber 7; JNumber 1; JNumber 2; JNumber 3;
             JNumber 4; JNumber 5]);
    (js "{}", JObject []);
    (js "null", JNull) ].

Fixpoint parseDocument (docs : list (jsstring * json)) (s : jsstring)
  : Result json :=
  match docs with
  | [] => Rejected (JsError (js "Unexpected token"))
  | (d, v) :: r => if JsString.eqb d s then Fulfilled v else parseDocument r s
  end.

(** Serialization of an array of strings, without escapes. *)
Definition stringifyItem (v : json) : jsstring :=
  match v with
  | JString s => dq ++ s ++ dq
  | _ => js "null"
  end.

Fixpoint stringifyItems (l : list json) : jsstring :=
  match l with
  | [] => []
  | [v] => stringifyItem v
  | v :: r => stringifyItem v ++ js "," ++ stringifyItems r
  end.

(** Storage never full; the encoder tags the source with the canvas size. *)
Definition browser : Browser := {|
  JSON_parse := parseDocument documents;
  JSON_stringify := fun l => js "[" ++ stringifyItems l ++ js "]";
  setItem_throws := fun _ => None;
  toDataURL := fun src w h _ _ type _ =>
    js "data:" ++ type ++ js ";" ++ [Z.to_N w; Z.to_N h] ++ src
|}.

Definition dragon : RefinePromptV2Output :=
  mkRefined [mkSuggestion (js "Dragon") (js "a dragon, 8K")] [] [].

Definition castle : RefinePromptV2Output :=
  mkRefined [mkSuggestion (js "Castle") (js "a castle, 8K")] [] [].

Definition loaded640x480 : option LoadedImage := Some (mkLoaded 640 480 true).

Definition noSuggestions : SuggestEditsOutput := mkSuggested [] [] [].

(** Generate [a dragon] to the end, refinement included. *)
Definition generated (result : jsstring) : list Event :=
  [Mount;
   GenerateImage (js "a dragon");
   Settle 0 (ReplyImage (Fulfilled result));
   Settle 1 (ReplyImageLoad loaded640x480);
   Settle 2 (ReplyRefine (Fulfilled dragon))].

(** A successful edit typed into the edit field, whose flow call is the
    suspension [id]: the edited image arrives, its thumbnail is recorded,
    the suggestions arrive. *)
Definition editRound (id : nat) (result : jsstring) : list Event :=
  [EditPromptChange (js "make the sky red");
   EditImage None;
   Settle id (ReplyImage (Fulfilled result));
   Settle (S id) (ReplyImageLoad loaded640x480);
   Settle (S (S id)) (ReplySuggest (Fulfilled noSuggestions))].

(** Five successful edits after a Generate: the undo stack is full. *)
Definition fiveEdits : list Event :=
  generated (js "I0")
  ++ editRound 3 (js "I1") ++ editRound 6 (js "I2") ++ editRound 9 (js "I3")
  ++ editRound 12 (js "I4") ++ editRound 15 (js "I5").

(** A sixth edit whose flow call fails. *)
Definition failedEdit : list Event :=
  [EditPromptChange (js "make the sky red");
   EditImage None;
   Settle 18 (ReplyImage (Rejected (JsError (js "503 Service Unavailable"))))].

End Example.

End ImageForge.

(* ================================================================== *)
(** ** The rest of the page: upload, download, and what every process keeps *)

Module Page.
Import Flows Js ImageForge.

(** *** String operations of [handleDownloadImage] *)

(** [s.indexOf(p)]: the first position at which [p] occurs, or [-1]. *)
Fixpoint indexOfFrom (s p : jsstring) (i : Z) : Z :=
  if startsWith s p then i
  else
    match s with
    | [] => (-1)%Z
    | _ :: r => indexOfFrom r p (i + 1)
    end.

Definition indexOf (s p : jsstring) : Z := indexOfFrom s p 0.

(** [s.substring(start, end)]: both indices are clamped to the string and
    swapped when the first exceeds the second. *)
Definition clamp (i : Z) (len : nat) : nat :=
  Nat.min (Z.to_nat i) len.

Definition substring (s : jsstring) (start finish : Z) : jsstring :=
  let a := clamp start (length s) in
  let b := clamp finish (length s) in
  let from := Nat.min a b in
  let to := Nat.max a b in
  firstn (to - from) (skipn from s).

(** A code unit that [/[^a-z0-9_.-]/gi] does not match. *)
Definition safeChar (c : N) : bool :=
  ((0x61 <=? c) && (c <=? 0x7A))%N
  || ((0x41 <=? c) && (c <=? 0x5A))%N
  || ((0x30 <=? c) && (c <=? 0x39))%N
  || (c =? 0x5F)%N || (c =? 0x2E)%N || (c =? 0x2D)%N.

(** [s.replace(/[^a-z0-9_.-]/gi, '_')] *)
Definition sanitize (s : jsstring) : jsstring :=
  map (fun c => if safeChar c then c else 0x5F%N) s.

(** [a || b] on strings. *)
Definition orElse (a b : jsstring) : jsstring :=
  if truthy a then a else b.

(** The anchor element [handleDownloadImage] clicks. *)
Record Link : Type := mkLink {
  href : jsstring;
  download : jsstring
}.

(** [prompt || editPrompt || (isUploadedImage ? 'uploaded_image' : 'visionary_image')] *)
Definition safePromptOf (render : State) : jsstring :=
  orElse (prompt render)
    (orElse (editPrompt render)
       (if isUploadedImage render then js "uploaded_image"
        else js "visionary_image")).

(** [handleDownloadImage]: the link it builds, or nothing when there is
    no image. *)
Definition handleDownloadImage (render : State) : option Link :=
  match imageUrl render with
  | Some ((_ :: _) as currentImageUrl) =>
      let safePrompt := safePromptOf render in
      let filename := substring (sanitize safePrompt) 0 50 in
      let extension :=
        substring currentImageUrl
          (indexOf currentImageUrl (js "/") + 1)
          (indexOf currentImageUrl (js ";base64")) in
      Some (mkLink currentImageUrl
              (orElse filename (js "visionary_image") ++ js "."
               ++ orElse extension (js "png")))
  | _ => None
  end.

(** *** Upload *)

(** The selected file, as far as the page looks at it. *)
Record File : Type := mkFile {
  fileType : jsstring            (* [file.type] *)
}.

Definition invalidFileType : jsstring :=
  js "Invalid file type. Please upload an image.".

Section PageHandlers.
Context {B : Browser}.

(** [handleFileSelected], up to [reader.readAsDataURL(file)]. *)
Definition handleFileSelected (file : option File) : Proc :=
  match file with
  | Some f =>
      if negb (startsWith (fileType f) (js "image/")) then
        setError (Some invalidFileType) ;;
        ShowToast
          (mkToast true (js "Upload Failed")
             (js "Please select a valid image file (e.g., PNG, JPG)."))
          Done
      else Done
  | None => Done
  end.

(** Whether [handleFileSelected] hands the file to the [FileReader]. *)
Definition readsFile (file : option File) : bool :=
  match file with
  | Some f => startsWith (fileType f) (js "image/")
  | None => false
  end.

(** [reader.onload] *)
Definition onFileLoaded (dataUri : jsstring) : Proc :=
  setImageUrl (Some dataUri) ;;
  setUndoStack [] ;;
  updateImageHistory dataUri
    (setEditPrompt [] ;;
     setError None ;;
     setPrompt [] ;;
     setRefinedPrompts None ;;
     setIsUploadedImage true ;;
     ShowToast
       (mkToast false (js "Image Uploaded")
          (js "Analyzing your image for creative suggestions..."))
       (handleSuggestEdits dataUri Done)).

(** [reader.onerror] *)
Definition onFileError : Proc :=
  setError (Some (js "Failed to read the uploaded file.")) ;;
  ShowToast
    (mkToast true (js "Upload Failed")
       (js "There was an error reading your image file."))
    Done.

(** [copyToClipboard]: the toast it shows (the clipboard is outside the
    world). *)
Definition copyToClipboard (text : jsstring) : Proc :=
  ShowToast (mkToast false (js "Copied!") (js "Prompt copied to clipboard."))
    Done.

(** Everything that can happen to the page: the events of the component
    seen so far, the file input and its reader, the history sheet. *)
Inductive PageEvent : Type :=
| Core (ev : Event)
| FileSelected (file : option File)
| FileLoaded (dataUri : jsstring)
| FileReadError
| HistorySheetOpenChange (open : bool)   (* [setIsHistorySheetOpen] *)
| CopyClick (text : jsstring).

Definition step (w : World) (ev : PageEvent) : World :=
  match ev with
  | Core e => ImageForge.step w e
  | FileSelected file => commit (run (handleFileSelected file) w)
  | FileLoaded dataUri => commit (run (onFileLoaded dataUri) w)
  | FileReadError => commit (run onFileError w)
  | HistorySheetOpenChange open =>
      commit (run (setIsHistorySheetOpen open ;; Done) w)
  | CopyClick text => commit (run (copyToClipboard text) w)
  end.

Definition steps (w : World) (evs : list PageEvent) : World :=
  fold_left step evs w.

(** The worlds the page can be in. *)
Definition reachable (w : World) : Prop :=
  exists (stored : option jsstring) (evs : list PageEvent),
    w = steps (initialWorld stored) evs.

(** *** What every process of the page keeps *)

(** A property of all the state updates of a process, at every await and
    for every reply: [onDo] of the functions applied to the state,
    [onSet] of the updaters passed to [setImageHistory]. *)
Fixpoint every (onDo : (State -> State) -> Prop)
    (onSet : (list json -> list json) -> Prop) (p : Proc) : Prop :=
  match p with
  | Done => True
  | Do f k => onDo f /\ every onDo onSet k
  | SetImageHistory f k => onSet f /\ every onDo onSet k
  | ShowToast _ k => every onDo onSet k
  | ConsoleError _ k => every onDo onSet k
  | AwaitGenerateImage _ k => forall r, every onDo onSet (k r)
  | AwaitEditImage _ _ k => forall r, every onDo onSet (k r)
  | AwaitSuggestEdits _ k => forall r, every onDo onSet (k r)
  | AwaitRefinePromptV2 _ k => forall r, every onDo onSet (k r)
  | AwaitImageLoad _ k => forall r, every onDo onSet (k r)
  end.

(** The process keeps the invariant [I] of the state. *)
Definition keeps (I : State -> Prop) : Proc -> Prop :=
  every (fun f => forall s, I s -> I (f s))
    (fun f => forall s, I s -> I (setImageHistory (f (imageHistory s)) s)).

(** The process changes [imageHistory] through [setImageHistory] only. *)
Definition framesHistory : Proc -> Prop :=
  every (fun f => forall s, imageHistory (f s) = imageHistory s)
    (fun _ => True).

(** The state at the end of the synchronous part of a process, when it
    ends there rather than at an await. *)
Fixpoint final (p : Proc) (s : State) : option State :=
  match p with
  | Done => Some s
  | Do f k => final k (f s)
  | SetImageHistory f k => final k (setImageHistory (f (imageHistory s)) s)
  | ShowToast _ k => final k s
  | ConsoleError _ k => final k s
  | _ => None
  end.

(** Nothing is loading. *)
Definition idle (s : State) : Prop :=
  isLoading s = false /\ activeLoader s = None.

(** Whenever the process, resumed at any of its awaits, runs to its end,
    it leaves the page idle. *)
Fixpoint settlesIdle (p : Proc) : Prop :=
  let resumed {A} (k : A -> Proc) : Prop :=
    forall r, (forall s s', final (k r) s = Some s' -> idle s')
              /\ settlesIdle (k r) in
  match p with
  | Done => True
  | Do _ k => settlesIdle k
  | SetImageHistory _ k => settlesIdle k
  | ShowToast _ k => settlesIdle k
  | ConsoleError _ k => settlesIdle k
  | AwaitGenerateImage _ k => resumed k
  | AwaitEditImage _ _ k => resumed k
  | AwaitSuggestEdits _ k => resumed k
  | AwaitRefinePromptV2 _ k => resumed k
  | AwaitImageLoad _ k => resumed k
  end.

(** The history is a list of at most five distinct strings. *)
Definition wellFormedHistory (h : list json) : Prop :=
  length h <= MAX_HISTORY_LENGTH
  /\ NoDup h
  /\ Forall (fun v => exists s, v = JString s) h.

(** What the handlers apply to the state: the plain setters, the three
    updates of the undo stack, and the record updater of the history. *)
Definition updatesOk (onDo : (State -> State) -> Prop)
    (onSet : (list json -> list json) -> Prop) : Prop :=
  (forall v, onDo (setPrompt v))
  /\ (forall v, onDo (setEditPrompt v))
  /\ (forall v, onDo (setImageUrl v))
  /\ (forall v, onDo (setIsUploadedImage v))
  /\ (forall v, onDo (setIsLoading v))
  /\ (forall v, onDo (setIsRefining v))
  /\ (forall v, onDo (setError v))
  /\ (forall v, onDo (setActiveLoader v))
  /\ (forall v, onDo (setRefinedPrompts v))
  /\ (forall v, onDo (setSuggestedEdits v))
  /\ (forall v, onDo (setIsHistorySheetOpen v))
  /\ onDo (setUndoStack [])
  /\ (forall a, a <> [] -> onDo (pushUndo a))
  /\ onDo rollbackUndo
  /\ (forall t, onSet (recordThumbnail t)).

(** The state satisfies [I] and so will it after any suspended process
    has been resumed. *)
Definition holds (I : State -> Prop) (w : World) : Prop :=
  I (st w) /\ Forall (fun ip => keeps I (snd ip)) (pending w).

Definition undoBounded (s : State) : Prop :=
  length (undoStack s) <= MAX_UNDO_STEPS.

Definition undoHoldsImages (s : State) : Prop :=
  Forall (fun u : jsstring => u <> []) (undoStack s).

Definition historyOk (s : State) : Prop :=
  wellFormedHistory (imageHistory s).

(** Between events: every effect has run, storage has the serialized
    history, and the suspended processes frame the history. *)
Definition mirrored (w : World) : Prop :=
  historySet w = false
  /\ localStorage w = Some (JSON_stringify (imageHistory (st w)))
  /\ Forall (fun ip => framesHistory (snd ip)) (pending w).

(** A process that ends without awaiting leaves the page idle ... *)
Definition endsIdle (p : Proc) : Prop :=
  forall s s', final p s = Some s' -> idle s'.

(** ... or at least as idle as it found it. *)
Definition keepsIdle (p : Proc) : Prop :=
  forall s s', idle s -> final p s = Some s' -> idle s'.

(** Between events: if nothing is pending the page is idle, and every
    suspended process will leave it idle when it ends. *)
Definition settled (w : World) : Prop :=
  (pending w = [] -> idle (st w))
  /\ Forall (fun ip => settlesIdle (snd ip)) (pending w).

(** [error instanceof Error ? error.message : 'An unknown error occurred.'],
    the message [handleApiError] looks at. *)
Definition errorMessageOf (e : Thrown) : jsstring :=
  if instanceofError e then messageOf e else js "An unknown error occurred.".

(** The toast of the [catch] of [updateImageHistory]. *)
Definition historyUpdateFailed : Toast :=
  mkToast true (js "History Update Failed")
    (js "Could not create a thumbnail to save in history.").

(** *** What the page renders *)

Definition isString (v : json) : bool :=
  match v with JString _ => true | _ => false end.

(** The render builds a button for every entry of the history, whether
    the sheet is open or not: [histImg.substring(0, 100)] for its key and
    [histImg.startsWith('data:')] for its image.  On an entry that is not a
    string these calls throw: the render fails and the page is unmounted,
    so that no effect runs after it and no further event reaches the
    component. *)
Definition renders (render : State) : bool :=
  forallb isString (imageHistory render).

(** [imageUrl && !isLoading]: the panel under the image, with the
    suggestions, the edit field and the Download, Undo, Reset and History
    buttons. *)
Definition panelShown (render : State) : bool :=
  match imageUrl render with
  | Some (_ :: _) => negb (isLoading render)
  | _ => false
  end.

(** [refinedPrompts && !isRefining], inside the panel: the refinements on
    display. *)
Definition refinedShown (render : State) : option RefinePromptV2Output :=
  if panelShown render && negb (isRefining render)
  then refinedPrompts render
  else None.

(** [suggestedEdits && ...], inside the panel: the suggested edits on
    display. *)
Definition editsShown (render : State) : option SuggestEditsOutput :=
  if panelShown render then suggestedEdits render else None.

(** The descriptions a [PromptSuggestionSection] passes to [onAction] and
    to [copyToClipboard]; an empty tier has no section. *)
Definition descriptions (prompts : list Suggestion) : list jsstring :=
  map description prompts.

Definition refinedDescriptions (r : RefinePromptV2Output) : list jsstring :=
  descriptions (basic r) ++ descriptions (intermediate r)
  ++ descriptions (advanced r).

Definition editDescriptions (e : SuggestEditsOutput) : list jsstring :=
  descriptions (creative e) ++ descriptions (style e)
  ++ descriptions (improvements e).

Definition offers (l : list jsstring) (text : jsstring) : bool :=
  existsb (JsString.eqb text) l.

(** *** Which events the page lets happen *)

(** Whether the render [st w] has an enabled control for the event, or a
    pending callback; [reading] counts the [FileReader]s at work.
    - the prompt input, whose Enter key calls [handleGenerateImage(prompt)],
      and the Upload button: [disabled={isLoading || isRefining}]; the
      Generate button is disabled for a blank prompt as well, and the
      Regenerate button of the refinements calls
      [handleGenerateImage(prompt)] too;
    - the action and Copy buttons of a suggestion exist while its section
      is displayed, the action button with [disabled={isLoading}];
    - the edit input [disabled={isLoading}], Apply AI Edit
      [disabled={isLoading || !editPrompt.trim()}], Undo
      [disabled={isLoading || undoStack.length === 0}], Reset, and History
      (for [imageHistory.length > 0]) are in the panel;
    - the buttons of the history entries are in the sheet;
    - the file is taken as chosen as soon as the Upload button has opened
      the dialog, and is read some time later;
    - a promise settles when it is pending, with a reply of its kind;
    - the page is mounted once, before anything else.
    These are the conditions of the JSX of the component; what the open
    sheet covers of the page is left to the component library. *)
Definition enabled (w : World) (reading : nat) (ev : PageEvent) : bool :=
  let render := st w in
  let idleInput := negb (isLoading render || isRefining render) in
  match ev with
  | Core Mount => false
  | Core (PromptChange _) => idleInput
  | Core (EditPromptChange _) => panelShown render
  | Core (GenerateImage generationPrompt) =>
      idleInput && JsString.eqb generationPrompt (prompt render)
      || match refinedShown render with
         | Some r => offers (refinedDescriptions r) generationPrompt
         | None => false
         end
  | Core (EditImage None) =>
      panelShown render && truthy (trim (editPrompt render))
  | Core (EditImage (Some editActionPrompt)) =>
      match editsShown render with
      | Some e => offers (editDescriptions e) editActionPrompt
      | None => false
      end
  | Core SuggestEdits =>
      match editsShown render with Some _ => true | None => false end
  | Core Undo =>
      panelShown render
      && match undoStack render with [] => false | _ :: _ => true end
  | Core Reset => panelShown render
  | Core (HistoryImageClick histImageUrl) =>
      isHistorySheetOpen render
      && existsb (fun histImg => strictEqString histImg histImageUrl)
           (imageHistory render)
  | Core (Settle id r) =>
      match lookupPending id (pending w) with
      | Some p => match resume p r with Some _ => true | None => false end
      | None => false
      end
  | FileSelected _ => idleInput
  | FileLoaded _ => negb (Nat.eqb reading 0)
  | FileReadError => negb (Nat.eqb reading 0)
  | HistorySheetOpenChange true =>
      panelShown render
      && match imageHistory render with [] => false | _ :: _ => true end
  | HistorySheetOpenChange false => isHistorySheetOpen render
  | CopyClick text =>
      match refinedShown render with
      | Some r => offers (refinedDescriptions r) text
      | None => false
      end
      || match editsShown render with
         | Some e => offers (editDescriptions e) text
         | None => false
         end
  end.

(** The [FileReader]s at work after the event. *)
Definition readingAfter (reading : nat) (ev : PageEvent) : nat :=
  match ev with
  | FileSelected file => if readsFile file then S reading else reading
  | FileLoaded _ => Nat.pred reading
  | FileReadError => Nat.pred reading
  | _ => reading
  end.

(** The events can happen one after the other on the page in world [w]:
    each one finds the page rendered and is enabled when it happens. *)
Fixpoint feasible (w : World) (reading : nat) (evs : list PageEvent) : bool :=
  match evs with
  | [] => true
  | ev :: rest =>
      renders (st w) && enabled w reading ev
      && feasible (step w ev) (readingAfter reading ev) rest
  end.

(** A session of the page: it is mounted on the stored item, then the
    events happen. *)
Definition session (stored : option jsstring) (evs : list PageEvent)
  : bool :=
  feasible (step (initialWorld stored) (Core Mount)) 0 evs.

End PageHandlers.

End Page.

(** Sample sessions of the page. *)
Module PageExample.
Import Flows Js ImageForge.

(** The thumbnail the sample browser makes of [I0]. *)
Definition thumbnail : jsstring :=
  @thumbnailOf Example.browser (js "I0") (mkLoaded 640 480 true).

(** A browser whose storage holds that thumbnail as well. *)
Definition documents : list (jsstring * json) :=
  (@JSON_stringify Example.browser [JString thumbnail],
   JArray [JString thumbnail])
  :: Example.documents.

Definition browser : Browser := {|
  JSON_parse := Example.parseDocument documents;
  JSON_stringify := @JSON_stringify Example.browser;
  setItem_throws := fun _ => None;
  toDataURL := @toDataURL Example.browser
|}.

(** A browser whose storage is full. *)
Definition quotaExceeded : Thrown :=
  DOMException (js "QuotaExceededError") (js "The quota has been exceeded.").

Definition fullBrowser : Browser := {|
  JSON_parse := @JSON_parse Example.browser;
  JSON_stringify := @JSON_stringify Example.browser;
  setItem_throws := fun _ => Some quotaExceeded;
  toDataURL := @toDataURL Example.browser
|}.

(** [a dragon] generated as [I0], up to the request for refinements. *)
Definition dragonShown : list Event :=
  [ GenerateImage (js "a dragon");
    Settle 0 (ReplyImage (Fulfilled (js "I0")));
    Settle 1 (ReplyImageLoad Example.loaded640x480) ].

(** An edit whose flow call, suspended as promise [n], settles with
    [result]. *)
Definition edit (n : nat) (result : Result jsstring) : list Event :=
  [ EditImage (Some (js "make it red"));
    Settle n (ReplyImage result) ].

(** An edit that succeeds, to the end. *)
Definition edited (n : nat) (result : jsstring) : list Event :=
  edit n (Fulfilled result)
  ++ [ Settle (S n) (ReplyImageLoad Example.loaded640x480);
       Settle (S (S n)) (ReplySuggest (Fulfilled Example.noSuggestions)) ].

(** The dragon generated to the end, then six edits ([I1] to [I6]) and a
    seventh that fails. *)
Definition edits : list Page.PageEvent :=
  map Page.Core
    (dragonShown
     ++ [Settle 2 (ReplyRefine (Fulfilled Example.dragon))]
     ++ edited 3 (js "I1") ++ edited 6 (js "I2") ++ edited 9 (js "I3")
     ++ edited 12 (js "I4") ++ edited 15 (js "I5") ++ edited 18 (js "I6")
     ++ edit 21 (Rejected (JsError (js "429 Too Many Requests")))).

(** After them, an upload whose thumbnail cannot be made. *)
Definition upload : list Page.PageEvent :=
  [ Page.FileSelected (Some (Page.mkFile (js "image/png")));
    Page.FileLoaded (js "data:image/png;base64,AAAA");
    Page.Core (Settle 22 (ReplyImageLoad None));
    Page.Core (Settle 23 (ReplySuggest (Fulfilled Example.noSuggestions))) ].

(** An upload that overlaps a Generate.  [a dragon] is typed and a file
    is chosen; while the reader is at work the prompt is submitted
    (promise 0).  The file is read, its thumbnail recorded (promise 1) and
    its analysis ends (promise 2), which resets [isLoading] although the
    dragon's image is still awaited: [a castle] can be typed and generated
    (promise 3).  Both images arrive, their thumbnails are recorded
    (promises 4 and 6), and both refinements are requested (promises 5
    and 7). *)
Definition overlapped : list Page.PageEvent :=
  [ Page.Core (PromptChange (js "a dragon"));
    Page.FileSelected (Some (Page.mkFile (js "image/png")));
    Page.Core (GenerateImage (js "a dragon"));
    Page.FileLoaded (js "data:image/png;base64,AAAA");
    Page.Core (Settle 1 (ReplyImageLoad Example.loaded640x480));
    Page.Core (Settle 2 (ReplySuggest (Fulfilled Example.noSuggestions)));
    Page.Core (PromptChange (js "a castle"));
    Page.Core (GenerateImage (js "a castle"));
    Page.Core
      (Settle 0 (ReplyImage (Fulfilled (js "data:image/png;base64,I1"))));
    Page.Core (Settle 4 (ReplyImageLoad Example.loaded640x480));
    Page.Core
      (Settle 3 (ReplyImage (Fulfilled (js "data:image/png;base64,I2"))));
    Page.Core (Settle 6 (ReplyImageLoad Example.loaded640x480)) ].

(** The two refinements, as events of the page. *)
Definition dragonRefined : Page.PageEvent :=
  Page.Core (Settle 5 (ReplyRefine (Fulfilled Example.dragon))).

Definition castleRefined : Page.PageEvent :=
  Page.Core (Settle 7 (ReplyRefine (Fulfilled Example.castle))).

(** [a dragon] typed, then generated as [I0]. *)
Definition dragonTyped : list Page.PageEvent :=
  Page.Core (PromptChange (js "a dragon")) :: map Page.Core dragonShown.

(** Seven stored thumbnails, the first of them twice. *)
Definition sevenThumbnails : list json :=
  map JString
    [js "data:,a"; js "data:,a"; js "data:,b"; js "data:,c"; js "data:,d";
     js "data:,e"; js "data:,f"].

Definition sevenStored : jsstring :=
  @JSON_stringify Example.browser sevenThumbnails.

(** A browser whose storage holds them. *)
Definition storedBrowser : Browser := {|
  JSON_parse :=
    Example.parseDocument
      ((sevenStored, JArray sevenThumbnails) :: Example.documents);
  JSON_stringify := @JSON_stringify Example.browser;
  setItem_throws := fun _ => None;
  toDataURL := @toDataURL Example.browser
|}.

(** A page showing an image fetched from a server. *)
Definition remoteImage : State :=
  setImageUrl (Some (js "https://host/a.png")) initialState.

(** A page showing an edited image. *)
Definition editedImage : State :=
  setEditPrompt (js "make it red!")
    (setImageUrl (Some (js "data:image/png;base64,AAAA")) initialState).

End PageExample.

(* ================================================================== *)
(** * Properties *)

Import Flows Js ImageForge.

(** ** Strings *)

Lemma eqb_eq (s t : jsstring) : JsString.eqb s t = true <-> s = t.
Proof.
  revert t; induction s as [|c s IH]; intros [|d t]; simpl;
    try (split; [discriminate | discriminate]); try tauto.
  rewrite andb_true_iff, N.eqb_eq, IH.
  split; [intros [-> ->]; reflexivity | intros E; inversion E; auto].
Qed.

Lemma eqb_refl (s : jsstring) : JsString.eqb s s = true.
Proof. apply eqb_eq; reflexivity. Qed.

Lemma trimStart_blank (s : jsstring) : blank s = true -> trimStart s = [].
Proof.
  induction s as [|c s IH]; simpl; [reflexivity|].
  intros H; apply andb_true_iff in H as [Hc Hs].
  rewrite Hc; auto.
Qed.

Lemma trimStart_nil_blank (s : jsstring) : trimStart s = [] -> blank s = true.
Proof.
  induction s as [|c s IH]; simpl; [reflexivity|].
  destruct (isWhiteSpace c); simpl; [assumption | discriminate].
Qed.

(** [!s.trim()] holds exactly for the strings made of white space. *)
Lemma trim_blank_iff (s : jsstring) :
  truthy (trim s) = false <-> blank s = true.
Proof.
  unfold trim, trimEnd; split.
  - intros H.
    destruct (rev (trimStart (rev (trimStart s)))) as [|c r] eqn:E;
      [|discriminate].
    apply (f_equal (@rev N)) in E; rewrite rev_involutive in E; simpl in E.
    destruct (trimStart s) as [|c r] eqn:E1.
    + now apply trimStart_nil_blank.
    + exfalso.
      (* the last kept code unit would have to be white space *)
      assert (Hnw : isWhiteSpace c = false).
      { clear -E1. induction s as [|d s IH]; simpl in E1; [discriminate|].
        destruct (isWhiteSpace d) eqn:Hd; [auto|].
        inversion E1; subst; assumption. }
      apply trimStart_nil_blank in E.
      unfold blank in E; rewrite forallb_forall in E.
      specialize (E c); rewrite Hnw in E.
      assert (In c (rev (c :: r))) by (apply in_rev; rewrite rev_involutive; left; reflexivity).
      specialize (E H0); discriminate.
  - intros H. rewrite (trimStart_blank _ H). reflexivity.
Qed.

Lemma not_blank_trim (s : jsstring) :
  blank s = false -> truthy (trim s) = true.
Proof.
  intros H. destruct (truthy (trim s)) eqn:E; [reflexivity|].
  apply trim_blank_iff in E; congruence.
Qed.

(** ** Lists: truncation *)

Lemma firstn_app_firstn {A} (n : nat) (a b : list A) :
  firstn n (a ++ firstn n b) = firstn n (a ++ b).
Proof.
  rewrite !firstn_app, firstn_firstn.
  f_equal. f_equal. lia.
Qed.

Lemma In_firstn {A} (n : nat) (x : A) (l : list A) :
  In x (firstn n l) -> In x l.
Proof.
  revert l; induction n as [|n IH]; intros [|y l]; simpl; try tauto.
  intros [E | H]; [left; assumption | right; apply IH; assumption].
Qed.

Lemma NoDup_firstn {A} (n : nat) (l : list A) : NoDup l -> NoDup (firstn n l).
Proof.
  revert l; induction n as [|n IH]; intros [|x l] H; simpl;
    try constructor.
  - inversion H; subst. intros Hin. apply In_firstn in Hin. contradiction.
  - inversion H; subst. apply IH; assumption.
Qed.

(** ** The event loop: what rendering leaves alone *)

Section EventLoop.
Context {B : Browser}.

Lemma persist_frame (h : list json) (w : World) :
  st (persistHistoryEffect h w) = st w
  /\ calls (persistHistoryEffect h w) = calls w
  /\ pending (persistHistoryEffect h w) = pending w
  /\ nextId (persistHistoryEffect h w) = nextId w
  /\ historySet (persistHistoryEffect h w) = historySet w.
Proof.
  unfold persistHistoryEffect.
  destruct (setItem_throws (JSON_stringify h)); simpl; auto.
Qed.

Lemma commit_frame (w : World) :
  st (commit w) = st w
  /\ calls (commit w) = calls w
  /\ pending (commit w) = pending w
  /\ nextId (commit w) = nextId w.
Proof.
  unfold commit. destruct (historySet w); [|auto].
  match goal with |- context [persistHistoryEffect ?h ?x] =>
    destruct (persist_frame h x) as (E1 & E2 & E3 & E4 & _) end.
  rewrite E1, E2, E3, E4; simpl; auto.
Qed.

Lemma commit_st (w : World) : st (commit w) = st w.
Proof. apply commit_frame. Qed.

Lemma commit_calls (w : World) : calls (commit w) = calls w.
Proof. apply commit_frame. Qed.

Lemma commit_pending (w : World) : pending (commit w) = pending w.
Proof. apply commit_frame. Qed.

Lemma commit_historySet (w : World) : historySet (commit w) = false.
Proof.
  unfold commit. destruct (historySet w) eqn:E; [|assumption].
  match goal with |- context [persistHistoryEffect ?h ?x] =>
    destruct (persist_frame h x) as (_ & _ & _ & _ & E5) end.
  rewrite E5; reflexivity.
Qed.

(** A render that did not touch [imageHistory] runs no effect. *)
Lemma commit_idle (w : World) : historySet w = false -> commit w = w.
Proof. unfold commit; intros ->; reflexivity. Qed.

Lemma step_historySet (w : World) (ev : Event) :
  historySet w = false -> historySet (step w ev) = false.
Proof.
  intros H. destruct ev; simpl; try apply commit_historySet.
  destruct (lookupPending id (pending w)); [|assumption].
  destruct (resume p r); [apply commit_historySet | assumption].
Qed.

Lemma steps_historySet (evs : list Event) (w : World) :
  historySet w = false -> historySet (steps w evs) = false.
Proof.
  revert w; induction evs as [|ev evs IH]; intros w H; simpl; [assumption|].
  apply IH, step_historySet, H.
Qed.

(** Between two events every effect has run. *)
Lemma reachable_idle (w : World) : reachable w -> historySet w = false.
Proof.
  intros (stored & evs & ->). apply steps_historySet. reflexivity.
Qed.

Lemma reachable_step (w : World) (ev : Event) :
  reachable w -> reachable (step w ev).
Proof.
  intros (stored & evs & ->). exists stored, (evs ++ [ev]).
  unfold steps. rewrite fold_left_app. reflexivity.
Qed.

End EventLoop.

(** ** Validation *)

Section Validation.
Context {B : Browser}.

(** C6. Generate on a prompt made of white space only (the empty string
    included) sets the validation error and does nothing else: no flow
    is invoked and nothing is left pending.  Edit does the same when its
    instruction ([editActionPrompt || editPrompt]) is white space only
    while an image is present, and when there is no current image,
    whatever the instruction. *)
Theorem validation_fail_fast :
  (forall (w : World) (p : jsstring),
      blank p = true ->
      let w' := step w (GenerateImage p) in
      st w' = setError (Some emptyPromptError) (st w)
      /\ calls w' = calls w /\ pending w' = pending w)
  /\ (forall (w : World) (editActionPrompt : option jsstring) (a : jsstring),
      imageUrl (st w) = Some a ->
      blank (finalEditPromptOf editActionPrompt (editPrompt (st w))) = true ->
      let w' := step w (EditImage editActionPrompt) in
      st w' = setError (Some emptyEditPromptError) (st w)
      /\ calls w' = calls w /\ pending w' = pending w)
  /\ (forall (w : World) (editActionPrompt : option jsstring),
      imageUrl (st w) = None ->
      let w' := step w (EditImage editActionPrompt) in
      (st w' = setError (Some emptyEditPromptError) (st w)
       \/ st w' = setError (Some noImageError) (st w))
      /\ calls w' = calls w /\ pending w' = pending w).
Proof.
  split; [|split].
  - intros w p Hp w'. subst w'. simpl.
    rewrite commit_st, commit_calls, commit_pending.
    unfold handleGenerateImage.
    apply trim_blank_iff in Hp. rewrite Hp. simpl. auto.
  - intros w arg a _ Hp w'. subst w'. simpl.
    rewrite commit_st, commit_calls, commit_pending.
    unfold handleEditImage.
    apply trim_blank_iff in Hp. rewrite Hp. simpl. auto.
  - intros w arg Hnone w'. subst w'. simpl.
    rewrite commit_st, commit_calls, commit_pending.
    unfold handleEditImage. rewrite Hnone.
    destruct (truthy (trim (finalEditPromptOf arg (editPrompt (st w)))));
      simpl; auto.
Qed.

End Validation.

Section ValidationExample.
#[local] Existing Instance Example.browser.

Lemma validation_fail_fast_witness :
  let w := step (initialWorld None) Mount in
  let blanks : jsstring := [0x20; 0x09; 0xA0; 0x3000]%N in
  (st (step w (GenerateImage blanks))
   = setError (Some emptyPromptError) (st w)
   /\ calls (step w (GenerateImage blanks)) = []
   /\ pending (step w (GenerateImage blanks)) = [])
  /\ let w1 := withState (setImageUrl (Some (js "data:image/png;base64,AAAA"))) w in
     calls (step w1 (EditImage (Some blanks))) = []
  /\ calls (step w (EditImage (Some (js "make the sky red")))) = [].
Proof.
  destruct (@validation_fail_fast Example.browser) as (G & E & N).
  split; [|split].
  - exact (G (step (initialWorld None) Mount) [0x20; 0x09; 0xA0; 0x3000]%N
             eq_refl).
  - exact (proj1 (proj2
             (E (withState
                   (setImageUrl (Some (js "data:image/png;base64,AAAA")))
                   (step (initialWorld None) Mount))
                (Some [0x20; 0x09; 0xA0; 0x3000]%N)
                (js "data:image/png;base64,AAAA") eq_refl eq_refl))).
  - exact (proj1 (proj2
             (N (step (initialWorld None) Mount)
                (Some (js "make the sky red")) eq_refl))).
Defined.

End ValidationExample.

(** ** Reset *)

Section ResetFrame.
Context {B : Browser}.

(** C8. In every world the component can reach, Reset empties the prompt,
    the edit prompt, the current image, the undo stack, the error and both
    suggestion sets, and leaves the history list and the stored history
    item as they were. *)
Theorem reset_frame (w : World) :
  reachable w ->
  let w' := step w Reset in
  prompt (st w') = []
  /\ editPrompt (st w') = []
  /\ imageUrl (st w') = None
  /\ undoStack (st w') = []
  /\ error (st w') = None
  /\ refinedPrompts (st w') = None
  /\ suggestedEdits (st w') = None
  /\ imageHistory (st w') = imageHistory (st w)
  /\ localStorage w' = localStorage w.
Proof.
  intros Hr w'. subst w'.
  apply reachable_idle in Hr.
  simpl. rewrite commit_idle by exact Hr.
  simpl. repeat split; reflexivity.
Qed.

End ResetFrame.

Section ResetExample.
#[local] Existing Instance Example.browser.

Lemma reset_frame_witness :
  let w :=
    steps (initialWorld None)
      [Mount; GenerateImage (js "a dragon in a desert");
       Settle 0 (ReplyImage (Fulfilled (js "data:image/png;base64,I1")));
       Settle 1 (ReplyImageLoad Example.loaded640x480);
       Settle 2 (ReplyRefine (Fulfilled Example.dragon))] in
  imageUrl (st w) = Some (js "data:image/png;base64,I1")
  /\ length (imageHistory (st w)) = 1
  /\ imageUrl (st (step w Reset)) = None
  /\ refinedPrompts (st (step w Reset)) = None
  /\ imageHistory (st (step w Reset)) = imageHistory (st w)
  /\ localStorage (step w Reset) = localStorage w.
Proof.
  intros w.
  assert (Hr : reachable w) by (eexists; eexists; reflexivity).
  destruct (reset_frame w Hr) as (_ & _ & Hi & _ & _ & Hp & _ & Hh & Hs).
  split; [vm_compute; reflexivity|]. split; [vm_compute; reflexivity|].
  split; [exact Hi|]. split; [exact Hp|]. split; [exact Hh | exact Hs].
Defined.

End ResetExample.

(** ** The undo stack *)

Section UndoChain.
Context {B : Browser}.

Lemma pushAll_undoStack (images : list jsstring) (s : State) :
  length (undoStack s) <= MAX_UNDO_STEPS ->
  undoStack (pushAll images s)
  = firstn MAX_UNDO_STEPS (rev images ++ undoStack s).
Proof.
  revert s; induction images as [|i images IH]; intros s Hs.
  - unfold pushAll; cbn [fold_left rev app].
    symmetry. apply firstn_all2. exact Hs.
  - unfold pushAll; cbn [fold_left rev].
    fold (pushAll images (pushUndo i s)). rewrite IH.
    + unfold pushUndo at 1; cbn [undoStack setUndoStack].
      rewrite firstn_app_firstn, <- app_assoc. reflexivity.
    + unfold pushUndo; cbn [undoStack setUndoStack]. apply firstn_le_length.
Qed.

(** One click on Undo with a non-empty stack pops its head into the
    current image; with an empty stack it changes nothing. *)
Lemma undo_pop (w : World) (x : jsstring) (rest : list jsstring) :
  undoStack (st w) = x :: rest ->
  st (step w Undo) = setUndoStack rest (setImageUrl (Some x) (st w)).
Proof.
  intros E. simpl. rewrite commit_st. unfold handleUndo. rewrite E.
  reflexivity.
Qed.

Lemma undo_empty (w : World) :
  undoStack (st w) = [] ->
  st (step w Undo) = st w /\ toasts (run (handleUndo (st w)) w) = toasts w.
Proof.
  intros E. simpl. rewrite commit_st. unfold handleUndo. rewrite E.
  split; reflexivity.
Qed.

Lemma undoTimes_S (n : nat) (w : World) :
  undoTimes (S n) w = undoTimes n (step w Undo).
Proof. reflexivity. Qed.

Lemma undoTimes_pops (chain : list jsstring) :
  forall (w : World) (k : nat),
    undoStack (st w) = chain ->
    k < length chain ->
    imageUrl (st (undoTimes (S k) w)) = nth_error chain k
    /\ undoStack (st (undoTimes (S k) w)) = skipn (S k) chain.
Proof.
  induction chain as [|x chain IH]; intros w k E Hk; simpl in Hk; [lia|].
  rewrite undoTimes_S.
  pose proof (undo_pop w x chain E) as Hpop.
  destruct k as [|k].
  - change (undoTimes 0 (step w Undo)) with (step w Undo).
    rewrite Hpop. split; reflexivity.
  - assert (E' : undoStack (st (step w Undo)) = chain)
      by (rewrite Hpop; reflexivity).
    destruct (IH (step w Undo) k E' ltac:(lia)) as [H1 H2].
    split; [exact H1 | exact H2].
Qed.

Lemma undoTimes_exhausted (n : nat) :
  forall (w : World),
    length (undoStack (st w)) <= n ->
    undoStack (st (undoTimes n w)) = []
    /\ st (step (undoTimes n w) Undo) = st (undoTimes n w).
Proof.
  induction n as [|n IH]; intros w Hn.
  - destruct (undoStack (st w)) eqn:E; simpl in Hn; [|lia].
    change (undoTimes 0 w) with w. split; [exact E | apply undo_empty, E].
  - rewrite undoTimes_S. apply IH.
    destruct (undoStack (st w)) as [|x rest] eqn:E.
    + destruct (undo_empty w E) as [-> _]. rewrite E. simpl; lia.
    + rewrite (undo_pop w x rest E). simpl in *. lia.
Qed.

(** C4. Starting from an emptied undo stack, after any sequence of pushes
    the stack holds the five most recent images, newest first, so its
    length never exceeds five; successive Undo clicks restore those images
    in last-in-first-out order; once the stack is exhausted it stays empty
    and a further Undo leaves the state, the current image included,
    unchanged. *)
Theorem undo_chain_lifo (w : World) (images : list jsstring) :
  let w0 := withState (fun s => pushAll images (setUndoStack [] s)) w in
  let chain := undoStack (st w0) in
  chain = firstn MAX_UNDO_STEPS (rev images)
  /\ length chain <= 5
  /\ (forall k, k < length chain ->
        imageUrl (st (undoTimes (S k) w0)) = nth_error chain k
        /\ undoStack (st (undoTimes (S k) w0)) = skipn (S k) chain)
  /\ (forall n, length chain <= n ->
        undoStack (st (undoTimes n w0)) = []
        /\ st (step (undoTimes n w0) Undo) = st (undoTimes n w0)).
Proof.
  intros w0 chain.
  assert (Hc : chain = firstn MAX_UNDO_STEPS (rev images)).
  { subst chain w0. simpl st. rewrite pushAll_undoStack.
    - simpl undoStack. rewrite app_nil_r. reflexivity.
    - simpl. lia. }
  split; [exact Hc|]. split.
  - rewrite Hc. apply firstn_le_length.
  - split.
    + intros k Hk. apply undoTimes_pops; [reflexivity | exact Hk].
    + intros n Hn. apply undoTimes_exhausted. exact Hn.
Qed.

End UndoChain.

Section UndoExample.
#[local] Existing Instance Example.browser.

Lemma undo_chain_lifo_witness :
  let images := [js "1"; js "2"; js "3"; js "4"; js "5"; js "6"; js "7"] in
  let w0 :=
    withState (fun s => pushAll images (setUndoStack [] s))
      (initialWorld None) in
  undoStack (st w0) = [js "7"; js "6"; js "5"; js "4"; js "3"]
  /\ imageUrl (st (undoTimes 1 w0)) = Some (js "7")
  /\ imageUrl (st (undoTimes 3 w0)) = Some (js "5")
  /\ undoStack (st (undoTimes 3 w0)) = [js "4"; js "3"]
  /\ imageUrl (st (undoTimes 5 w0)) = Some (js "3")
  /\ imageUrl (st (undoTimes 6 w0)) = Some (js "3")
  /\ undoStack (st (undoTimes 6 w0)) = [].
Proof.
  intros images w0.
  destruct (undo_chain_lifo (initialWorld None) images)
    as (Hc & _ & Hpop & Hend).
  split; [exact Hc|].
  split; [exact (proj1 (Hpop 0 ltac:(simpl; lia)))|].
  split; [exact (proj1 (Hpop 2 ltac:(simpl; lia)))|].
  split; [exact (proj2 (Hpop 2 ltac:(simpl; lia)))|].
  split; [exact (proj1 (Hpop 4 ltac:(simpl; lia)))|].
  split; [reflexivity|].
  exact (proj1 (Hend 6 ltac:(simpl; lia))).
Defined.

End UndoExample.

(** ** The history list *)

Section HistoryStore.
Context {B : Browser}.

Lemma strictEqString_iff (v : json) (t : jsstring) :
  strictEqString v t = true <-> v = JString t.
Proof.
  destruct v; simpl; try (split; [discriminate | discriminate]).
  rewrite eqb_eq. split; [intros ->; reflexivity | intros E; inversion E; auto].
Qed.

(** The new thumbnail is put in front of what is kept of the others. *)
Lemma recordThumbnail_cons (t : jsstring) (h : list json) :
  recordThumbnail t h
  = JString t
    :: firstn 4 (filter (fun url => negb (strictEqString url t)) h).
Proof. reflexivity. Qed.

Lemma recordThumbnail_length (t : jsstring) (h : list json) :
  length (recordThumbnail t h) <= MAX_HISTORY_LENGTH.
Proof. unfold recordThumbnail. apply firstn_le_length. Qed.

Lemma recordThumbnail_fresh (t : jsstring) (h : list json) :
  ~ In (JString t)
      (firstn 4 (filter (fun url => negb (strictEqString url t)) h)).
Proof.
  intros Hin. apply In_firstn in Hin. apply filter_In in Hin as [_ Hf].
  assert (E : strictEqString (JString t) t = true)
    by (apply strictEqString_iff; reflexivity).
  rewrite E in Hf. discriminate.
Qed.

Lemma recordThumbnail_NoDup (t : jsstring) (h : list json) :
  NoDup h -> NoDup (recordThumbnail t h).
Proof.
  intros H. rewrite recordThumbnail_cons. constructor.
  - apply recordThumbnail_fresh.
  - apply NoDup_firstn, NoDup_filter, H.
Qed.




End HistoryStore.

Section HistoryExample.
#[local] Existing Instance Example.browser.


End HistoryExample.

(** ** Loading the stored history on mount *)

Section LoadOnStart.
Context {B : Browser}.

(** Writing the history never shows the loading effect's toast. *)
Lemma persist_loadErrorReported (h : list json) (w : World) :
  loadErrorReported (persistHistoryEffect h w) = loadErrorReported w.
Proof.
  unfold persistHistoryEffect, loadErrorReported.
  destruct (setItem_throws (JSON_stringify h)); cbn [toasts]; [|reflexivity].
  rewrite existsb_app. cbn [existsb toastTitle].
  replace (JsString.eqb (js "History Save Failed") (js "History Load Failed"))
    with false by reflexivity.
  rewrite !orb_false_r. reflexivity.
Qed.

Lemma commit_loadErrorReported (w : World) :
  loadErrorReported (commit w) = loadErrorReported w.
Proof.
  unfold commit. destruct (historySet w); [|reflexivity].
  rewrite persist_loadErrorReported. reflexivity.
Qed.

Lemma mount_state (stored : option jsstring) :
  st (step (initialWorld stored) Mount)
  = st (loadHistoryEffect (initialWorld stored))
  /\ loadErrorReported (step (initialWorld stored) Mount)
     = loadErrorReported (loadHistoryEffect (initialWorld stored)).
Proof.
  cbn [step]. rewrite commit_st, commit_loadErrorReported.
  rewrite persist_loadErrorReported.
  split; [apply persist_frame | reflexivity].
Qed.

(** C7, as the code has it. On mount the stored item is read and parsed.
    When the item is absent or the empty string, or parses to something
    that is not an array, the history starts empty and no load error is
    reported; when the item is a non-empty string that [JSON.parse]
    rejects, the history starts empty and the load error toast is
    shown. *)
Theorem load_on_start :
  (forall stored : option jsstring,
      stored = None \/ stored = Some [] ->
      let w := step (initialWorld stored) Mount in
      imageHistory (st w) = [] /\ loadErrorReported w = false)
  /\ (forall (s : jsstring) (e : Thrown),
      s <> [] ->
      JSON_parse s = Rejected e ->
      let w := step (initialWorld (Some s)) Mount in
      imageHistory (st w) = [] /\ loadErrorReported w = true)
  /\ (forall (s : jsstring) (v : json),
      s <> [] ->
      JSON_parse s = Fulfilled v ->
      (forall items, v <> JArray items) ->
      let w := step (initialWorld (Some s)) Mount in
      imageHistory (st w) = [] /\ loadErrorReported w = false).
Proof.
  split; [|split].
  - intros stored Hs w. subst w.
    destruct (mount_state stored) as [-> ->].
    destruct Hs as [-> | ->]; split; reflexivity.
  - intros s e Hne Hp w. subst w.
    destruct (mount_state (Some s)) as [-> ->].
    destruct s as [|c s]; [congruence|].
    unfold loadHistoryEffect. cbn [localStorage initialWorld].
    rewrite Hp. split; reflexivity.
  - intros s v Hne Hp Hv w. subst w.
    destruct (mount_state (Some s)) as [-> ->].
    destruct s as [|c s]; [congruence|].
    unfold loadHistoryEffect. cbn [localStorage initialWorld].
    rewrite Hp.
    destruct v; try (split; reflexivity).
    exfalso. exact (Hv items eq_refl).
Qed.

(** C9, as the code has it. When the stored item parses to an array, the
    loading effect installs that array as it is: nothing is truncated,
    removed or checked.  The render that follows reads every entry as a
    string: it fails, and the page is gone, unless all entries are strings.
    When they are, the page goes on with the array as its history.  The
    next record then restores the length bound and puts the new thumbnail
    first, once; entries other than the new thumbnail are not
    deduplicated, so the resulting list is free of duplicates exactly when
    the first four of the other loaded entries are. *)
Theorem load_installs_array_unchecked (s : jsstring) (parsed : list json) :
  s <> [] ->
  JSON_parse s = Fulfilled (JArray parsed) ->
  let loaded := loadHistoryEffect (initialWorld (Some s)) in
  imageHistory (st loaded) = parsed
  /\ Page.renders (st loaded) = forallb Page.isString parsed
  /\ (forallb Page.isString parsed = true ->
      let w := step (initialWorld (Some s)) Mount in
      imageHistory (st w) = parsed
      /\ Page.renders (st w) = true
      /\ forall t : jsstring,
          let others :=
            firstn 4 (filter (fun url => negb (strictEqString url t)) parsed) in
          let h := recordThumbnail t (imageHistory (st w)) in
          h = JString t :: others
          /\ length h <= 5
          /\ ~ In (JString t) others
          /\ (NoDup h <-> NoDup others)).
Proof.
  intros Hne Hp loaded.
  assert (Hl : imageHistory (st loaded) = parsed).
  { subst loaded. destruct s as [|c s]; [congruence|].
    unfold loadHistoryEffect. cbn [localStorage initialWorld].
    rewrite Hp. reflexivity. }
  split; [exact Hl|]. split; [unfold Page.renders; rewrite Hl; reflexivity|].
  intros Hstrings w. subst w.
  destruct (mount_state (Some s)) as [-> _]. fold loaded.
  split; [exact Hl|].
  split; [unfold Page.renders; rewrite Hl; exact Hstrings|].
  rewrite Hl. intros t. cbv zeta.
  rewrite recordThumbnail_cons.
  split; [reflexivity|]. split.
  - rewrite <- recordThumbnail_cons. apply recordThumbnail_length.
  - split; [apply recordThumbnail_fresh|].
    split.
    + intros H. inversion H; assumption.
    + intros H. constructor; [apply recordThumbnail_fresh | exact H].
Qed.

End LoadOnStart.

Section LoadExample.
#[local] Existing Instance Example.browser.

(** With nothing stored the history starts empty and no error of any kind
    is shown. *)
Lemma load_absent_reports_nothing :
  let w := step (initialWorld None) Mount in
  imageHistory (st w) = []
  /\ toasts w = []
  /\ loadErrorReported w = false.
Proof. vm_compute. repeat split. Qed.

Lemma load_on_start_witness :
  (let w := step (initialWorld None) Mount in
   imageHistory (st w) = [] /\ loadErrorReported w = false)
  /\ (let w := step (initialWorld (Some (js "[1,"))) Mount in
      imageHistory (st w) = [] /\ loadErrorReported w = true)
  /\ (let w := step (initialWorld (Some (js "{}"))) Mount in
      imageHistory (st w) = [] /\ loadErrorReported w = false).
Proof.
  destruct (@load_on_start Example.browser) as (A & M & O).
  split; [|split].
  - exact (A None (or_introl eq_refl)).
  - refine (M (js "[1,") (JsError (js "Unexpected token")) _ eq_refl).
    discriminate.
  - refine (O (js "{}") (JObject []) _ eq_refl _).
    + discriminate.
    + intros items; discriminate.
Defined.

(** The stored array [["a","a"]] is installed with its duplicate, and the
    duplicate is still there after the next record. *)
Lemma load_then_record_keeps_duplicates :
  let w := step (initialWorld (Some Example.twiceA)) Mount in
  let h := recordThumbnail (js "t") (imageHistory (st w)) in
  imageHistory (st w) = [JString (js "a"); JString (js "a")]
  /\ Page.renders (st w) = true
  /\ h = [JString (js "t"); JString (js "a"); JString (js "a")]
  /\ ~ NoDup h.
Proof.
  split; [reflexivity|]. split; [reflexivity|]. split; [reflexivity|].
  intros H. inversion H as [|x l _ H1]; subst.
  inversion H1 as [|y l' Hin _]; subst.
  apply Hin. left; reflexivity.
Defined.

(** Seven stored strings are installed as they are, the page renders,
    and the next record leaves five entries; the stored array
    [[7,7,1,2,3,4,5]] is installed as well, and the render fails. *)
Lemma load_installs_array_unchecked_witness :
  (let w :=
     @step PageExample.storedBrowser
       (initialWorld (Some PageExample.sevenStored)) Mount in
   imageHistory (st w) = PageExample.sevenThumbnails
   /\ Page.renders (st w) = true
   /\ length (recordThumbnail (js "t") (imageHistory (st w))) <= 5)
  /\ (let loaded :=
        @loadHistoryEffect Example.browser
          (initialWorld (Some (js "[7,7,1,2,3,4,5]"))) in
      imageHistory (st loaded)
      = [JNumber 7; JNumber 7; JNumber 1; JNumber 2; JNumber 3; JNumber 4;
         JNumber 5]
      /\ Page.renders (st loaded) = false).
Proof.
  split.
  - intros w.
    assert (Hne : PageExample.sevenStored <> []) by discriminate.
    destruct (@load_installs_array_unchecked PageExample.storedBrowser
                PageExample.sevenStored _ Hne eq_refl) as (_ & _ & Hs).
    destruct (Hs eq_refl) as (Hl & Hr & Ht).
    split; [exact Hl|]. split; [exact Hr|].
    exact (proj1 (proj2 (Ht (js "t")))).
  - intros loaded.
    assert (Hne : js "[7,7,1,2,3,4,5]" <> []) by discriminate.
    destruct (@load_installs_array_unchecked Example.browser
                (js "[7,7,1,2,3,4,5]") _ Hne eq_refl) as (Hl & Hr & _).
    split; [exact Hl | exact Hr].
Defined.

End LoadExample.

(** ** Suspended processes *)

Section Suspended.
Context {B : Browser}.

Lemma lookupPending_bound (n : nat) (l : list (nat * Proc)) :
  Forall (fun ip => fst ip < n) l ->
  forall id, n <= id -> lookupPending id l = None.
Proof.
  induction 1 as [|[i p] l Hi _ IH]; intros id Hid; [reflexivity|].
  cbn [lookupPending]. cbn [fst] in Hi.
  destruct (Nat.eqb i id) eqn:E; [apply Nat.eqb_eq in E; lia | apply IH, Hid].
Qed.

Lemma fresh_suspend (p : Proc) (c : option Call) (w : World) :
  fresh w -> fresh (suspend p c w).
Proof.
  unfold fresh, suspend. cbn [pending nextId]. intros H.
  apply Forall_app. split.
  - eapply Forall_impl; [|exact H]. cbn. intros; lia.
  - constructor; [cbn; lia | constructor].
Qed.

Lemma run_fresh (p : Proc) : forall w, fresh w -> fresh (run p w).
Proof.
  induction p; intros w Hw; cbn [run];
    try (apply fresh_suspend; exact Hw); try exact Hw;
    apply IHp; exact Hw.
Qed.

Lemma persist_fresh (h : list json) (w : World) :
  fresh w -> fresh (persistHistoryEffect h w).
Proof.
  unfold fresh. destruct (persist_frame h w) as (_ & _ & -> & -> & _). auto.
Qed.

Lemma commit_fresh (w : World) : fresh w -> fresh (commit w).
Proof.
  unfold fresh. destruct (commit_frame w) as (_ & _ & -> & ->). auto.
Qed.

Lemma step_fresh (w : World) (ev : Event) : fresh w -> fresh (step w ev).
Proof.
  intros Hw. destruct ev; cbn [step];
    try (apply commit_fresh, run_fresh; exact Hw).
  - apply commit_fresh, persist_fresh.
    unfold loadHistoryEffect.
    destruct (localStorage w) as [[|c s]|]; try exact Hw.
    destruct (JSON_parse (c :: s)) as [[]|]; try exact Hw;
      apply run_fresh; exact Hw.
  - destruct (lookupPending id (pending w)); [|exact Hw].
    destruct (resume p r); [|exact Hw].
    apply commit_fresh, run_fresh.
    unfold fresh, removePending in *. cbn [pending nextId].
    apply Forall_forall. intros ip Hin. apply filter_In in Hin as [Hin _].
    rewrite Forall_forall in Hw. apply Hw, Hin.
Qed.

Lemma reachable_fresh (w : World) : reachable w -> fresh w.
Proof.
  intros (stored & evs & ->). unfold steps.
  assert (H0 : fresh (initialWorld stored)) by constructor.
  revert H0. generalize (initialWorld stored).
  induction evs as [|ev evs IH]; intros w H; [exact H|].
  cbn [fold_left]. apply IH, step_fresh, H.
Qed.

Lemma reachable_next_free (w : World) :
  reachable w -> lookupPending (nextId w) (pending w) = None.
Proof.
  intros H. apply (lookupPending_bound (nextId w)); [|lia].
  apply reachable_fresh, H.
Qed.

Lemma lookupPending_fresh (id : nat) (p : Proc) (l : list (nat * Proc)) :
  lookupPending id l = None -> lookupPending id (l ++ [(id, p)]) = Some p.
Proof.
  induction l as [|[i q] l IH]; cbn [lookupPending app].
  - rewrite Nat.eqb_refl. reflexivity.
  - destruct (Nat.eqb i id); [discriminate | exact IH].
Qed.

Lemma step_settle (w : World) (id : nat) (r : Reply) (p k : Proc) :
  lookupPending id (pending w) = Some p ->
  resume p r = Some k ->
  step w (Settle id r) = commit (run k (dropPending id w)).
Proof. intros Hp Hr. cbn [step]. rewrite Hp, Hr. reflexivity. Qed.

Lemma removePending_absent (id : nat) (l : list (nat * Proc)) :
  Forall (fun ip => fst ip < id) l -> removePending id l = l.
Proof.
  induction 1 as [|[i p] l Hi _ IH]; [reflexivity|].
  cbn [removePending filter fst] in *.
  destruct (Nat.eqb i id) eqn:E; [apply Nat.eqb_eq in E; lia|].
  cbn [negb]. unfold removePending in IH. rewrite IH. reflexivity.
Qed.

Lemma removePending_last (id : nat) (p : Proc) (l : list (nat * Proc)) :
  Forall (fun ip => fst ip < id) l ->
  removePending id (l ++ [(id, p)]) = l.
Proof.
  intros H. unfold removePending. rewrite filter_app.
  fold (removePending id l). rewrite (removePending_absent id l H).
  cbn [filter fst]. rewrite Nat.eqb_refl. cbn [negb]. apply app_nil_r.
Qed.

(** When the image of a suspended [updateImageHistory] has loaded, its
    thumbnail is recorded and the rest of the caller runs. *)
Lemma updateImageHistory_loaded (src : jsstring) (img : LoadedImage)
    (k : Proc) :
  context2d img = true ->
  resume (updateImageHistory src k) (ReplyImageLoad (Some img))
  = Some (SetImageHistory (recordThumbnail (thumbnailOf src img)) k).
Proof.
  intros Hc. unfold updateImageHistory, createThumbnailDataUri.
  cbn [resume]. rewrite Hc. cbn [negb]. unfold thumbnailOf.
  destruct (Thumbnail.scaledSize _ _ _) as [width height]. reflexivity.
Qed.

Lemma lookupPending_app_bound (n id : nat) (l l' : list (nat * Proc)) :
  Forall (fun ip => fst ip < n) l ->
  n <= id ->
  lookupPending id (l ++ l') = lookupPending id l'.
Proof.
  induction 1 as [|[i q] l Hi _ IH]; intros Hid; [reflexivity|].
  cbn [app lookupPending]. cbn [fst] in Hi.
  destruct (Nat.eqb i id) eqn:E; [apply Nat.eqb_eq in E; lia | apply IH, Hid].
Qed.

Lemma fresh_weaken (w : World) :
  fresh w -> Forall (fun ip => fst ip < S (nextId w)) (pending w).
Proof.
  intros H. eapply Forall_impl; [|exact H]. cbn. intros; lia.
Qed.

Lemma reachable_steps (w : World) (evs : list Event) :
  reachable w -> reachable (steps w evs).
Proof.
  revert w; induction evs as [|ev evs IH]; intros w H; [exact H|].
  apply (IH (step w ev)), reachable_step, H.
Qed.

Lemma steps_app (w : World) (evs evs' : list Event) :
  steps w (evs ++ evs') = steps (steps w evs) evs'.
Proof. unfold steps. apply fold_left_app. Qed.

End Suspended.

(** ** Generating *)

Section Generating.
Context {B : Browser}.

(** A Generate whose flow call succeeds: the image is shown and its
    thumbnail is being made. *)
Lemma generate_image_arrives (w : World) (p url : jsstring) :
  reachable w ->
  blank p = false ->
  let w2 :=
    steps w [GenerateImage p;
             Settle (nextId w) (ReplyImage (Fulfilled url))] in
  pending w2
  = pending w ++ [(S (nextId w), updateImageHistory url (afterGenerated p))]
  /\ nextId w2 = S (S (nextId w))
  /\ imageUrl (st w2) = Some url
  /\ imageHistory (st w2) = imageHistory (st w).
Proof.
  intros Hr Hb w2. subst w2.
  pose proof (reachable_fresh w Hr) as Hf.
  pose proof (reachable_next_free w Hr) as Hn.
  unfold steps; cbn [fold_left].
  remember (step w (GenerateImage p)) as w1 eqn:E1.
  assert (H1 : pending w1
               = pending w
                 ++ [(nextId w,
                      AwaitGenerateImage p (fun result =>
                        match result with
                        | Fulfilled resultImageUrl =>
                            setImageUrl (Some resultImageUrl) ;;
                            updateImageHistory resultImageUrl
                              (afterGenerated p)
                        | Rejected e =>
                            handleApiError e CtxGenerate generateFinally
                        end))]
               /\ nextId w1 = S (nextId w)
               /\ imageHistory (st w1) = imageHistory (st w)).
  { rewrite E1. cbn [step].
    destruct (commit_frame (run (handleGenerateImage p) w))
      as (-> & _ & -> & ->).
    unfold handleGenerateImage. rewrite (not_blank_trim _ Hb).
    repeat split. }
  destruct H1 as (Hp1 & Hn1 & Hh1).
  erewrite step_settle;
    [|rewrite Hp1; apply lookupPending_fresh, Hn | reflexivity].
  match goal with |- context [commit ?x] =>
    destruct (commit_frame x) as (-> & _ & -> & ->) end.
  unfold updateImageHistory at 1 2 3 4, createThumbnailDataUri.
  cbn [run suspend pending nextId withState st dropPending].
  rewrite Hp1, Hn1, (removePending_last _ _ _ Hf).
  split; [reflexivity|]. split; [reflexivity|].
  split; [reflexivity | exact Hh1].
Qed.


(** Whatever becomes of the thumbnail, the caller of [updateImageHistory]
    goes on: a suspended [updateImageHistory] resumes into a process that
    only records or reports before running the rest. *)
Lemma updateImageHistory_resumes (src : jsstring) (k : Proc)
    (l : option LoadedImage) :
  exists pre : Proc,
    resume (updateImageHistory src k) (ReplyImageLoad l) = Some pre
    /\ forall w,
        exists w',
          run pre w = run k w'
          /\ pending w' = pending w /\ nextId w' = nextId w
          /\ imageUrl (st w') = imageUrl (st w)
          /\ refinedPrompts (st w') = refinedPrompts (st w).
Proof.
  unfold updateImageHistory, createThumbnailDataUri. cbn [resume].
  destruct l as [img|]; [destruct (context2d img); cbn [negb]|].
  - destruct (Thumbnail.scaledSize _ _ _) as [width height].
    eexists; split; [reflexivity|]. intros w. cbn [run].
    eexists; split; [reflexivity|]. repeat split.
  - eexists; split; [reflexivity|]. intros w. cbn [run].
    eexists; split; [reflexivity|]. repeat split.
  - eexists; split; [reflexivity|]. intros w. cbn [run].
    eexists; split; [reflexivity|]. repeat split.
Qed.

(** A Generate whose flow call succeeds ends up awaiting its refinement,
    with the generated image shown, whatever happened to the thumbnail. *)
Lemma generate_awaits_refinement (w : World) (p url : jsstring)
    (l : option LoadedImage) :
  reachable w ->
  blank p = false ->
  let w3 :=
    steps w [GenerateImage p;
             Settle (nextId w) (ReplyImage (Fulfilled url));
             Settle (S (nextId w)) (ReplyImageLoad l)] in
  pending w3 = pending w ++ [(S (S (nextId w)), awaitRefinedPrompts p)]
  /\ nextId w3 = S (S (S (nextId w)))
  /\ imageUrl (st w3) = Some url.
Proof.
  intros Hr Hb w3. subst w3.
  pose proof (reachable_fresh w Hr) as Hf.
  destruct (generate_image_arrives w p url Hr Hb) as (Hp2 & Hn2 & Hi2 & _).
  change [GenerateImage p; Settle (nextId w) (ReplyImage (Fulfilled url));
          Settle (S (nextId w)) (ReplyImageLoad l)]
    with ([GenerateImage p; Settle (nextId w) (ReplyImage (Fulfilled url))]
          ++ [Settle (S (nextId w)) (ReplyImageLoad l)]).
  rewrite steps_app.
  remember (steps w [GenerateImage p;
                     Settle (nextId w) (ReplyImage (Fulfilled url))])
    as w2 eqn:E2.
  unfold steps at 1 2 3; cbn [fold_left].
  destruct (updateImageHistory_resumes url (afterGenerated p) l)
    as (pre & Hres & Hrun).
  erewrite step_settle; [| |exact Hres].
  2:{ rewrite Hp2. apply lookupPending_fresh.
      apply (lookupPending_bound (nextId w)); [exact Hf | lia]. }
  destruct (Hrun (dropPending (S (nextId w)) w2))
    as (w' & -> & Hp' & Hn' & Hi' & _).
  match goal with |- context [commit ?x] =>
    destruct (commit_frame x) as (-> & _ & -> & ->) end.
  unfold afterGenerated, awaitRefinedPrompts.
  cbn [run suspend pending nextId withState st imageUrl setEditPrompt
         setIsRefining].
  rewrite Hp', Hn', Hi'. cbn [dropPending pending nextId st].
  rewrite Hp2, Hn2, Hi2, (removePending_last _ _ _ (fresh_weaken w Hf)).
  repeat split.
Qed.

(** A Generate whose flow call succeeds and whose image loads records the
    thumbnail of the generated image at the head of the history and
    writes the new list to storage. *)
Lemma generate_records_thumbnail (w : World) (p url : jsstring)
    (img : LoadedImage) :
  reachable w ->
  blank p = false ->
  context2d img = true ->
  let w3 :=
    steps w [GenerateImage p;
             Settle (nextId w) (ReplyImage (Fulfilled url));
             Settle (S (nextId w)) (ReplyImageLoad (Some img))] in
  imageUrl (st w3) = Some url
  /\ imageHistory (st w3)
     = recordThumbnail (thumbnailOf url img) (imageHistory (st w))
  /\ (setItem_throws (JSON_stringify (imageHistory (st w3))) = None ->
      localStorage w3 = Some (JSON_stringify (imageHistory (st w3)))).
Proof.
  intros Hr Hb Hc w3. subst w3.
  pose proof (reachable_fresh w Hr) as Hf.
  destruct (generate_image_arrives w p url Hr Hb) as (Hp2 & _ & Hi2 & Hh2).
  change [GenerateImage p; Settle (nextId w) (ReplyImage (Fulfilled url));
          Settle (S (nextId w)) (ReplyImageLoad (Some img))]
    with ([GenerateImage p; Settle (nextId w) (ReplyImage (Fulfilled url))]
          ++ [Settle (S (nextId w)) (ReplyImageLoad (Some img))]).
  rewrite steps_app.
  remember (steps w [GenerateImage p;
                     Settle (nextId w) (ReplyImage (Fulfilled url))])
    as w2 eqn:E2.
  unfold steps; cbn [fold_left].
  assert (Hl : lookupPending (S (nextId w)) (pending w2)
               = Some (updateImageHistory url (afterGenerated p))).
  { rewrite Hp2. apply lookupPending_fresh.
    apply (lookupPending_bound (nextId w)); [exact Hf | lia]. }
  rewrite (step_settle w2 _ _ _ _ Hl (updateImageHistory_loaded url img _ Hc)).
  set (k := afterGenerated p).
  set (f := recordThumbnail (thumbnailOf url img)).
  set (w2' := dropPending (S (nextId w)) w2).
  assert (Hrun : historySet (run (SetImageHistory f k) w2') = true
                 /\ st (run (SetImageHistory f k) w2')
                    = setIsRefining true
                        (setEditPrompt []
                           (setImageHistory (f (imageHistory (st w2)))
                              (st w2)))
                 /\ localStorage (run (SetImageHistory f k) w2')
                    = localStorage w2).
  { repeat split. }
  destruct Hrun as (Hs & Hst & Hls).
  unfold commit. rewrite Hs.
  match goal with |- context [persistHistoryEffect ?h ?x] =>
    destruct (persist_frame h x) as (E & _); rewrite E;
    unfold persistHistoryEffect end.
  cbn [st]. rewrite Hst.
  cbn [imageUrl imageHistory setIsRefining setEditPrompt setImageHistory].
  rewrite Hi2, Hh2.
  split; [reflexivity|]. split; [reflexivity|].
  intros Hok. rewrite Hok. reflexivity.
Qed.

End Generating.

(** ** Background refinement *)

Section Refinement.
Context {B : Browser}.

Lemma lookupPending_remove_other (id id' : nat) (l : list (nat * Proc)) :
  id <> id' ->
  lookupPending id' (removePending id l) = lookupPending id' l.
Proof.
  intros Hne. induction l as [|[i p] l IH]; [reflexivity|].
  cbn [removePending filter fst lookupPending].
  destruct (Nat.eqb i id) eqn:Ei; cbn [negb].
  - apply Nat.eqb_eq in Ei; subst i.
    destruct (Nat.eqb id id') eqn:E; [apply Nat.eqb_eq in E; contradiction|].
    exact IH.
  - cbn [lookupPending]. destruct (Nat.eqb i id'); [reflexivity | exact IH].
Qed.

(** Appending to the suspended processes does not change what an
    identifier stands for. *)
Lemma lookupPending_app_found (id : nat) (p : Proc)
    (l l' : list (nat * Proc)) :
  lookupPending id l = Some p -> lookupPending id (l ++ l') = Some p.
Proof.
  induction l as [|[i q] l IH]; cbn [lookupPending app]; [discriminate|].
  destruct (Nat.eqb i id); [intros H; exact H | exact IH].
Qed.

Lemma run_keeps_pending (q : Proc) :
  forall (w : World) (id : nat) (p : Proc),
    lookupPending id (pending w) = Some p ->
    lookupPending id (pending (run q w)) = Some p.
Proof.
  induction q; intros w id p Hp; cbn [run];
    try (cbn [suspend pending]; apply lookupPending_app_found; exact Hp);
    try exact Hp;
    apply IHq; exact Hp.
Qed.

(** A suspended process stays suspended until its own promise settles,
    whatever else happens to the page. *)
Lemma page_step_keeps_pending (w : World) (ev : Page.PageEvent) (id : nat)
    (p : Proc) :
  lookupPending id (pending w) = Some p ->
  (forall r, ev <> Page.Core (Settle id r)) ->
  lookupPending id (pending (Page.step w ev)) = Some p.
Proof.
  intros Hp Hev.
  destruct ev as [ev| | | | |]; cbn [Page.step];
    try (rewrite commit_pending; apply run_keeps_pending; exact Hp).
  destruct ev; cbn [step];
    try (rewrite commit_pending; apply run_keeps_pending; exact Hp).
  - (* Mount *)
    rewrite commit_pending.
    match goal with |- context [persistHistoryEffect ?h ?x] =>
      destruct (persist_frame h x) as (_ & _ & -> & _) end.
    unfold loadHistoryEffect.
    destruct (localStorage w) as [[|c s]|]; try exact Hp.
    destruct (JSON_parse (c :: s)) as [[]|]; try exact Hp;
      apply run_keeps_pending; exact Hp.
  - (* Settle *)
    destruct (lookupPending id0 (pending w)) as [q|] eqn:Hq; [|exact Hp].
    destruct (resume q r) as [k|]; [|exact Hp].
    rewrite commit_pending. apply run_keeps_pending. cbn [pending].
    rewrite lookupPending_remove_other; [exact Hp|].
    intros ->. exact (Hev r eq_refl).
Qed.

Lemma page_steps_keep_pending (evs : list Page.PageEvent) :
  forall (w : World) (id : nat) (p : Proc),
    lookupPending id (pending w) = Some p ->
    (forall r, ~ In (Page.Core (Settle id r)) evs) ->
    lookupPending id (pending (Page.steps w evs)) = Some p.
Proof.
  induction evs as [|ev evs IH]; intros w id p Hp Hn; [exact Hp|].
  cbn [Page.steps fold_left]. apply IH.
  - apply page_step_keeps_pending; [exact Hp|].
    intros r ->. apply (Hn r). left. reflexivity.
  - intros r Hin. apply (Hn r). right. exact Hin.
Qed.

(** When the refinement awaited by a Generate resolves, its result
    becomes the set of refined prompts and the [finally] block clears
    both flags; the other suspended processes stay suspended. *)
Lemma refinement_installed (w : World) (id : nat) (p : jsstring)
    (r : RefinePromptV2Output) :
  lookupPending id (pending w) = Some (awaitRefinedPrompts p) ->
  let w' := step w (Settle id (ReplyRefine (Fulfilled r))) in
  refinedPrompts (st w') = Some r
  /\ isLoading (st w') = false
  /\ isRefining (st w') = false
  /\ pending w' = removePending id (pending w).
Proof.
  intros Hp w'. subst w'. cbn [step]. rewrite Hp.
  unfold awaitRefinedPrompts. cbn [resume].
  rewrite commit_st, commit_pending. repeat split; reflexivity.
Qed.

(** What the page has instead of a token: no control calls
    [handleGenerateImage] while [isLoading] or [isRefining] is set. *)
Lemma generate_enabled_idle (w : World) (reading : nat) (p : jsstring) :
  Page.enabled w reading (Page.Core (GenerateImage p)) = true ->
  isLoading (st w) = false /\ isRefining (st w) = false.
Proof.
  unfold Page.enabled, Page.refinedShown, Page.panelShown.
  destruct (isLoading (st w)), (isRefining (st w)); cbn [orb negb andb];
    try (split; reflexivity);
    destruct (imageUrl (st w)) as [[|c u]|]; cbn [andb]; discriminate.
Qed.

(** C2, as the code has it. No token tells the refinement of an earlier
    Generate from that of a later one.  A refinement that is awaited stays
    awaited whatever happens to the page in between (other generations
    started, their images and refinements arriving, uploads, edits), and
    when it resolves its result is installed as the refined prompts and
    both flags are cleared.  So with the refinements of Generate(p1) and
    Generate(p2) awaited at once, in whatever order the two were started,
    the set left after both have resolved is the result of the one that
    resolved last: p1's when p1's arrives late (it is installed over
    p2's, not discarded), p2's when p1's resolves first. *)
Theorem refinement_last_resolved_wins (w : World) (id1 id2 : nat)
    (p1 p2 : jsstring) (r1 r2 : RefinePromptV2Output)
    (between : list Page.PageEvent) :
  lookupPending id1 (pending w) = Some (awaitRefinedPrompts p1) ->
  lookupPending id2 (pending w) = Some (awaitRefinedPrompts p2) ->
  id1 <> id2 ->
  (forall r, ~ In (Page.Core (Settle id1 r)) between) ->
  let late := Page.Core (Settle id1 (ReplyRefine (Fulfilled r1))) in
  let other := Page.Core (Settle id2 (ReplyRefine (Fulfilled r2))) in
  let arrived := Page.steps w (between ++ [late]) in
  (refinedPrompts (st arrived) = Some r1
   /\ isLoading (st arrived) = false
   /\ isRefining (st arrived) = false)
  /\ refinedPrompts (st (Page.steps w [other; late])) = Some r1
  /\ refinedPrompts (st (Page.steps w [late; other])) = Some r2.
Proof.
  intros H1 H2 Hne Hbetween late other arrived.
  assert (Hlate : forall evs,
             (forall r, ~ In (Page.Core (Settle id1 r)) evs) ->
             let w' := Page.steps w (evs ++ [late]) in
             refinedPrompts (st w') = Some r1
             /\ isLoading (st w') = false
             /\ isRefining (st w') = false).
  { intros evs Hn. unfold Page.steps. rewrite fold_left_app.
    cbn [fold_left]. unfold late. cbn [Page.step].
    destruct (refinement_installed (fold_left Page.step evs w) id1 p1 r1)
      as (E1 & E2 & E3 & _).
    - apply (page_steps_keep_pending evs w id1 _ H1 Hn).
    - cbv zeta. auto. }
  split; [exact (Hlate between Hbetween)|]. split.
  - refine (proj1 (Hlate [other] _)).
    intros r [H|[]]. inversion H. congruence.
  - unfold Page.steps. cbn [fold_left]. unfold other. cbn [Page.step].
    refine (proj1 (refinement_installed (Page.step w late) id2 p2 r2 _)).
    apply page_step_keeps_pending; [exact H2|].
    intros r H. inversion H. congruence.
Qed.

End Refinement.

Section RefinementExample.
#[local] Existing Instance Example.browser.

(** A session the page lets happen: [a dragon] is submitted while a
    chosen file is being read; the analysis of the upload ends first and
    enables the prompt again, so [a castle] is generated while the
    dragon's image is still awaited.  The castle's refinement resolves,
    then the dragon's.  At the end the castle's image is shown under the
    prompt [a castle], with the refinements computed for [a dragon]. *)
Lemma stale_refinement_installed :
  let evs :=
    PageExample.overlapped
    ++ [PageExample.castleRefined; PageExample.dragonRefined] in
  let w := Page.steps (initialWorld None) (Page.Core Mount :: evs) in
  Page.session None evs = true
  /\ calls w
     = [CallGenerateImage (js "a dragon");
        CallSuggestEdits (js "data:image/png;base64,AAAA");
        CallGenerateImage (js "a castle");
        CallRefinePromptV2 (js "a dragon");
        CallRefinePromptV2 (js "a castle")]
  /\ pending w = []
  /\ prompt (st w) = js "a castle"
  /\ imageUrl (st w) = Some (js "data:image/png;base64,I2")
  /\ Page.refinedShown (st w) = Some Example.dragon
  /\ Page.refinedShown (st w) <> Some Example.castle.
Proof.
  vm_compute. repeat split. discriminate.
Defined.

Lemma refinement_last_resolved_wins_witness :
  let w :=
    Page.steps (initialWorld None) (Page.Core Mount :: PageExample.overlapped) in
  Page.session None PageExample.overlapped = true
  /\ refinedPrompts
       (st (Page.steps w [PageExample.castleRefined; PageExample.dragonRefined]))
     = Some Example.dragon
  /\ refinedPrompts
       (st (Page.steps w [PageExample.dragonRefined; PageExample.castleRefined]))
     = Some Example.castle.
Proof.
  intros w. split; [vm_compute; reflexivity|].
  assert (Hn : forall r,
             ~ In (Page.Core (Settle 5 r)) [PageExample.castleRefined]).
  { intros r [H|[]]. discriminate H. }
  assert (Hne : 5 <> 7) by discriminate.
  destruct (@refinement_last_resolved_wins Example.browser w 5 7
              (js "a dragon") (js "a castle") Example.dragon Example.castle
              [PageExample.castleRefined] eq_refl eq_refl Hne Hn)
    as ((Hlate & _) & _ & Hfirst).
  split; [exact Hlate | exact Hfirst].
Defined.

End RefinementExample.

(** ** Editing: the optimistic push and the rollback *)

Section EditRollback.
Context {B : Browser}.

(** Reporting an error touches neither the image nor the undo stack. *)
Lemma handleApiError_run (e : Thrown) (context : ApiContext) (k : Proc)
    (w : World) :
  exists w2,
    run (handleApiError e context k) w = run k w2
    /\ imageUrl (st w2) = imageUrl (st w)
    /\ undoStack (st w2) = undoStack (st w).
Proof.
  unfold handleApiError. cbn [run].
  destruct (includes _ (js "429")); [|destruct context];
    cbn [run]; eexists; (split; [reflexivity|]); split; reflexivity.
Qed.

(** What a failed edit leaves: the image it started from, and the first
    four entries of the undo stack it started from (the push kept only
    five entries, the rollback removed the pushed one). *)
Lemma failed_edit_rolls_back (w : World) (editActionPrompt : option jsstring)
    (a : jsstring) (e : Thrown) :
  imageUrl (st w) = Some a ->
  a <> [] ->
  blank (finalEditPromptOf editActionPrompt (editPrompt (st w))) = false ->
  reachable w ->
  let w' :=
    steps w [EditImage editActionPrompt;
             Settle (nextId w) (ReplyImage (Rejected e))] in
  imageUrl (st w') = Some a
  /\ undoStack (st w') = firstn 4 (undoStack (st w)).
Proof.
  intros Hi Ha Hb Hr w'. subst w'.
  pose proof (reachable_next_free w Hr) as Hf.
  destruct a as [|c a]; [congruence|].
  unfold steps; cbn [fold_left].
  set (w1 := step w (EditImage editActionPrompt)).
  assert (H1 : pending w1
               = pending w
                 ++ [(nextId w,
                      AwaitEditImage (c :: a)
                        (finalEditPromptOf editActionPrompt (editPrompt (st w)))
                        (fun result =>
                           match result with
                           | Fulfilled editedImageDataUri =>
                               setImageUrl (Some editedImageDataUri) ;;
                               updateImageHistory editedImageDataUri
                                 (setIsUploadedImage false ;;
                                  setEditPrompt [] ;;
                                  handleSuggestEdits editedImageDataUri
                                    (setIsLoading false ;;
                                     setActiveLoader None ;; Done))
                           | Rejected e0 =>
                               handleApiError e0 CtxEdit
                                 (rollbackUndo ;;
                                  setIsLoading false ;;
                                  setActiveLoader None ;; Done)
                           end))]
               /\ imageUrl (st w1) = Some (c :: a)
               /\ undoStack (st w1) = (c :: a) :: firstn 4 (undoStack (st w))).
  { subst w1. cbn [step]. rewrite commit_pending, commit_st.
    unfold handleEditImage. rewrite (not_blank_trim _ Hb), Hi.
    cbn [negb run suspend pending st withState]. split; [reflexivity|].
    split; [exact Hi | reflexivity]. }
  destruct H1 as (Hp & Hi1 & Hu1).
  cbn [step]. rewrite Hp, (lookupPending_fresh _ _ _ Hf). cbn [resume].
  rewrite commit_st.
  match goal with |- context [run (handleApiError ?e ?c ?k) ?x] =>
    destruct (handleApiError_run e c k x) as (w2 & -> & Hi2 & Hu2) end.
  cbn [st] in Hi2, Hu2. rewrite Hi1 in Hi2. rewrite Hu1 in Hu2.
  cbn [run withState st]. unfold rollbackUndo. rewrite Hu2.
  cbn [truthy]. split; reflexivity.
Qed.

End EditRollback.

Section EditExample.
#[local] Existing Instance Example.browser.

(** C1, on the code. With five images on the undo stack and the current
    image [I5], an edit whose flow call fails leaves [I5] as the current
    image but only four entries on the stack: the push dropped the oldest
    entry [I0] to keep five, and the rollback removed the pushed image, so
    the length is not back to the five it was before the attempt. *)
Theorem edit_failure_at_capacity :
  let w := steps (initialWorld None) Example.fiveEdits in
  let w' := steps w Example.failedEdit in
  imageUrl (st w) = Some (js "I5")
  /\ undoStack (st w) = [js "I4"; js "I3"; js "I2"; js "I1"; js "I0"]
  /\ imageUrl (st w') = Some (js "I5")
  /\ undoStack (st w') = [js "I4"; js "I3"; js "I2"; js "I1"]
  /\ length (undoStack (st w')) <> length (undoStack (st w)).
Proof.
  vm_compute. repeat split. discriminate.
Qed.

End EditExample.

(** ** Loading an image from the history *)

Section HistoryClick.
Context {B : Browser}.

Lemma blank_false_truthy (s : jsstring) : blank s = false -> truthy s = true.
Proof. destruct s; [discriminate | reflexivity]. Qed.

(** An edit and a suggestion refresh are called on the current image. *)
Lemma edit_calls_on_current (w : World) (a instruction : jsstring) :
  imageUrl (st w) = Some a ->
  a <> [] ->
  blank instruction = false ->
  calls (step w (EditImage (Some instruction)))
  = calls w ++ [CallEditImage a instruction].
Proof.
  intros Hi Ha Hb. destruct a as [|c a]; [congruence|].
  cbn [step]. rewrite commit_calls.
  unfold handleEditImage. rewrite Hi.
  cbn [finalEditPromptOf]. rewrite (blank_false_truthy _ Hb).
  rewrite (not_blank_trim _ Hb). reflexivity.
Qed.

Lemma suggest_calls_on_current (w : World) (a : jsstring) :
  imageUrl (st w) = Some a ->
  a <> [] ->
  calls (step w SuggestEdits) = calls w ++ [CallSuggestEdits a].
Proof.
  intros Hi Ha. destruct a as [|c a]; [congruence|].
  cbn [step]. rewrite commit_calls.
  unfold onSuggestEditsClick. rewrite Hi. reflexivity.
Qed.

(** C10. A history entry is the encoded thumbnail of the recorded image
    (canvas of the scaled size, JPEG, quality 0.7), not that image.
    Clicking an entry makes it the current image, empties the undo stack,
    both prompts, the error and the refined prompts, marks the image as
    uploaded and calls the suggestion flow on the entry; the edit and the
    suggestion refresh that follow are called on the entry as well. *)
Theorem history_click_loads_thumbnail :
  (forall (w : World) (p url : jsstring) (img : LoadedImage),
      reachable w ->
      blank p = false ->
      context2d img = true ->
      let w3 :=
        steps w [GenerateImage p;
                 Settle (nextId w) (ReplyImage (Fulfilled url));
                 Settle (S (nextId w)) (ReplyImageLoad (Some img))] in
      imageUrl (st w3) = Some url
      /\ hd_error (imageHistory (st w3)) = Some (JString (thumbnailOf url img))
      /\ imageUrl (st (step w3 (HistoryImageClick (thumbnailOf url img))))
         = Some (thumbnailOf url img))
  /\ (forall (w : World) (histImageUrl : jsstring),
      let w1 := step w (HistoryImageClick histImageUrl) in
      imageUrl (st w1) = Some histImageUrl
      /\ undoStack (st w1) = []
      /\ prompt (st w1) = []
      /\ editPrompt (st w1) = []
      /\ error (st w1) = None
      /\ refinedPrompts (st w1) = None
      /\ isUploadedImage (st w1) = true
      /\ calls w1 = calls w ++ [CallSuggestEdits histImageUrl]
      /\ (histImageUrl <> [] ->
          (forall instruction : jsstring,
              blank instruction = false ->
              calls (step w1 (EditImage (Some instruction)))
              = calls w1 ++ [CallEditImage histImageUrl instruction])
          /\ calls (step w1 SuggestEdits)
             = calls w1 ++ [CallSuggestEdits histImageUrl])).
Proof.
  split.
  - intros w p url img Hr Hb Hc w3.
    destruct (generate_records_thumbnail w p url img Hr Hb Hc)
      as (Hi & Hh & _).
    fold w3 in Hi, Hh. split; [exact Hi|]. split.
    + rewrite Hh. reflexivity.
    + cbn [step]. rewrite commit_st. reflexivity.
  - intros w h w1.
    assert (Hi : imageUrl (st w1) = Some h).
    { subst w1. cbn [step]. rewrite commit_st. reflexivity. }
    split; [exact Hi|].
    split; [|split; [|split; [|split; [|split; [|split; [|split]]]]]];
      try (subst w1; cbn [step]; rewrite ?commit_st, ?commit_calls;
           reflexivity).
    intros Hne. split.
    + intros instruction Hb. apply edit_calls_on_current; assumption.
    + apply suggest_calls_on_current; assumption.
Qed.

End HistoryClick.

Section HistoryClickExample.
#[local] Existing Instance Example.browser.

Lemma history_click_loads_thumbnail_witness :
  let w0 := step (initialWorld None) Mount in
  let w :=
    steps w0 [GenerateImage (js "a dragon");
              Settle 0 (ReplyImage (Fulfilled (js "I0")));
              Settle 1 (ReplyImageLoad Example.loaded640x480)] in
  let thumbnail := js "data:image/jpeg;" ++ [400; 300]%N ++ js "I0" in
  thumbnailOf (js "I0") (mkLoaded 640 480 true) = thumbnail
  /\ hd_error (imageHistory (st w)) = Some (JString thumbnail)
  /\ let w1 := step w (HistoryImageClick thumbnail) in
     imageUrl (st w1) = Some thumbnail
     /\ calls (step w1 (EditImage (Some (js "make the sky red"))))
        = calls w1 ++ [CallEditImage thumbnail (js "make the sky red")].
Proof.
  intros w0 w thumbnail.
  destruct (@history_click_loads_thumbnail Example.browser) as [Hrec H].
  assert (Hr : reachable w0) by (exists None, [Mount]; reflexivity).
  assert (Ht : thumbnailOf (js "I0") (mkLoaded 640 480 true) = thumbnail)
    by (vm_compute; reflexivity).
  split; [exact Ht|].
  split.
  - rewrite <- Ht.
    exact (proj1 (proj2
             (Hrec w0 (js "a dragon") (js "I0") (mkLoaded 640 480 true)
                Hr eq_refl eq_refl))).
  - destruct (H w thumbnail) as (Hi & _ & _ & _ & _ & _ & _ & _ & Hnext).
    split; [exact Hi|].
    assert (Hne : thumbnail <> []) by discriminate.
    exact (proj1 (Hnext Hne) (js "make the sky red") eq_refl).
Defined.

End HistoryClickExample.

(** ** Binary64 rounding and the thumbnail size *)

Section Binary64.
Import JsNumber.
#[local] Open Scope Q_scope.

Lemma pow2_pos (e : Z) : 0 < pow2 e.
Proof. unfold pow2. apply Qpower_0_lt. reflexivity. Qed.

Lemma pow2_add (a b : Z) : pow2 (a + b) == pow2 a * pow2 b.
Proof. unfold pow2. apply Qpower_plus. discriminate. Qed.

Lemma pow2_inject (k : Z) : (0 <= k)%Z -> pow2 k == inject_Z (2 ^ k).
Proof. intros H. unfold pow2. rewrite Zpower_Qpower by exact H. reflexivity. Qed.

Lemma roundHalfEven_error (y : Q) :
  - (1 # 2) <= inject_Z (roundHalfEven y) - y <= 1 # 2.
Proof.
  unfold roundHalfEven.
  pose proof (Qfloor_le y) as Hl.
  pose proof (Qlt_floor y) as Hu.
  rewrite inject_Z_plus in Hu. change (inject_Z 1) with 1 in Hu.
  destruct (Qcompare (y - inject_Z (Qfloor y)) (1 # 2)) eqn:E.
  - apply Qeq_alt in E.
    destruct (Z.even (Qfloor y)); [|rewrite inject_Z_plus; change (inject_Z 1) with 1]; lra.
  - apply Qlt_alt in E. lra.
  - apply Qgt_alt in E. rewrite inject_Z_plus. change (inject_Z 1) with 1. lra.
Qed.

Lemma Qdiv_mult_cancel (x p : Q) : ~ p == 0 -> x / p * p == x.
Proof. intros H. field. exact H. Qed.

(** Rounding moves a number by at most half a unit in the last place. *)
Lemma round64_ulp (x : Q) :
  - (pow2 (ulpExp x) * (1 # 2)) <= round64 x - x <= pow2 (ulpExp x) * (1 # 2).
Proof.
  unfold round64.
  pose proof (pow2_pos (ulpExp x)) as Hp.
  destruct (Qeq_bool x 0) eqn:E.
  - apply Qeq_bool_iff in E. lra.
  - set (p := pow2 (ulpExp x)) in *.
    pose proof (roundHalfEven_error (x / p)) as [Hl Hu].
    set (m := inject_Z (roundHalfEven (x / p))) in *.
    assert (Hx : x / p * p == x) by (apply Qdiv_mult_cancel; lra).
    assert (H1 : (m - x / p) * p <= (1 # 2) * p)
      by (apply Qmult_le_compat_r; lra).
    assert (H2 : (- (1 # 2)) * p <= (m - x / p) * p)
      by (apply Qmult_le_compat_r; lra).
    assert (H3 : (m - x / p) * p == m * p - x) by (rewrite <- Hx at 2; ring).
    lra.
Qed.

(** [ilog2] does not overshoot: [2 ^ ilog2 x <= x]. *)
Lemma ilog2_lower (x : Q) : 0 < x -> pow2 (ilog2 x) <= x.
Proof.
  intros Hx. unfold ilog2.
  assert (Ha : Qabs x == x) by (apply Qabs_pos; lra).
  destruct (Qle_bool _ (Qabs x)) eqn:E.
  - apply Qle_bool_iff in E. rewrite Ha in E. exact E.
  - clear E. destruct x as [n d]. cbn [Qnum Qden].
    assert (Hn : (0 < n)%Z).
    { unfold Qlt in Hx. cbn in Hx. lia. }
    rewrite (Z.abs_eq n) by lia.
    pose proof (Z.log2_spec n Hn) as [Hn1 _].
    pose proof (Z.log2_spec (Zpos d) (Pos2Z.is_pos d)) as [_ Hd2].
    pose proof (Z.log2_nonneg n) as Hln.
    pose proof (Z.log2_nonneg (Zpos d)) as Hld.
    set (ln := Z.log2 n) in *. set (ld := Z.log2 (Zpos d)) in *.
    replace (ln - ld - 1)%Z with (ln + - (ld + 1))%Z by lia.
    rewrite pow2_add. unfold pow2 at 2. rewrite Qpower_opp.
    fold (pow2 (ld + 1)).
    rewrite (pow2_inject ln) by lia.
    rewrite (pow2_inject (ld + 1)) by lia.
    rewrite (Qmake_Qdiv n d).
    assert (Hd0 : 0 < inject_Z (Zpos d))
      by (change 0 with (inject_Z 0); rewrite <- Zlt_Qlt; lia).
    assert (Hb0 : 0 < inject_Z (2 ^ (ld + 1))).
    { change 0 with (inject_Z 0). rewrite <- Zlt_Qlt. lia. }
    apply Qle_shift_div_l; [exact Hd0|].
    setoid_replace (inject_Z (2 ^ ln) * / inject_Z (2 ^ (ld + 1))
                    * inject_Z (Zpos d))
      with (inject_Z (2 ^ ln) * inject_Z (Zpos d) / inject_Z (2 ^ (ld + 1)))
      by (field; lra).
    apply Qle_shift_div_r; [exact Hb0|].
    rewrite <- !inject_Z_mult. rewrite <- Zle_Qle.
    apply Z.mul_le_mono_nonneg; lia.
Qed.

(** ... and it does not undershoot: [x < 2 ^ (ilog2 x + 1)], so [ilog2 x]
    is the exponent of the binade of [x]. *)
Lemma ilog2_upper (x : Q) : 0 < x -> x < pow2 (ilog2 x + 1).
Proof.
  intros Hx. unfold ilog2.
  assert (Ha : Qabs x == x) by (apply Qabs_pos; lra).
  destruct (Qle_bool _ (Qabs x)) eqn:E.
  - clear E. destruct x as [n d]. cbn [Qnum Qden].
    assert (Hn : (0 < n)%Z).
    { unfold Qlt in Hx. cbn in Hx. lia. }
    rewrite (Z.abs_eq n) by lia.
    pose proof (Z.log2_spec n Hn) as [_ Hn2].
    pose proof (Z.log2_spec (Zpos d) (Pos2Z.is_pos d)) as [Hd1 _].
    pose proof (Z.log2_nonneg n) as Hln.
    pose proof (Z.log2_nonneg (Zpos d)) as Hld.
    set (ln := Z.log2 n) in *. set (ld := Z.log2 (Zpos d)) in *.
    replace (ln - ld + 1)%Z with ((ln + 1) + - ld)%Z by lia.
    rewrite pow2_add. unfold pow2 at 2. rewrite Qpower_opp.
    fold (pow2 ld).
    rewrite (pow2_inject (ln + 1)) by lia.
    rewrite (pow2_inject ld) by lia.
    rewrite (Qmake_Qdiv n d).
    assert (Hd0 : 0 < inject_Z (Zpos d))
      by (change 0 with (inject_Z 0); rewrite <- Zlt_Qlt; lia).
    assert (Hb0 : 0 < inject_Z (2 ^ ld)).
    { change 0 with (inject_Z 0). rewrite <- Zlt_Qlt. lia. }
    apply Qlt_shift_div_r; [exact Hd0|].
    setoid_replace (inject_Z (2 ^ (ln + 1)) * / inject_Z (2 ^ ld)
                    * inject_Z (Zpos d))
      with (inject_Z (2 ^ (ln + 1)) * inject_Z (Zpos d) / inject_Z (2 ^ ld))
      by (field; lra).
    apply Qlt_shift_div_l; [exact Hb0|].
    rewrite <- !inject_Z_mult. rewrite <- Zlt_Qlt.
    assert (Hp : (0 < 2 ^ ld)%Z) by (apply Z.pow_pos_nonneg; lia).
    apply Z.lt_le_trans with (2 ^ (ln + 1) * 2 ^ ld)%Z.
    + apply Z.mul_lt_mono_pos_r; lia.
    + apply Z.mul_le_mono_nonneg_l; lia.
  - replace (Z.log2 (Z.abs (Qnum x)) - Z.log2 (Zpos (Qden x)) - 1 + 1)%Z
      with (Z.log2 (Z.abs (Qnum x)) - Z.log2 (Zpos (Qden x)))%Z by lia.
    apply Qnot_le_lt. intros H.
    assert (H' : pow2 (Z.log2 (Z.abs (Qnum x)) - Z.log2 (Zpos (Qden x)))
                 <= Qabs x) by (rewrite Ha; exact H).
    apply Qle_bool_iff in H'. congruence.
Qed.

(** The error of one rounding, relative plus absolute part. *)
Lemma round64_error (x : Q) :
  0 <= x ->
  - (x * u53 + eta) <= round64 x - x <= x * u53 + eta.
Proof.
  intros Hx.
  destruct (Qeq_bool x 0) eqn:E.
  - unfold round64. rewrite E. apply Qeq_bool_iff in E.
    pose proof (pow2_pos (-53)). pose proof (pow2_pos (-1075)).
    unfold u53, eta. nra.
  - apply Qeq_bool_neq in E.
    assert (Hx' : 0 < x) by lra.
    pose proof (round64_ulp x) as [Hl Hu].
    assert (Hp : pow2 (ulpExp x) * (1 # 2) <= x * u53 + eta).
    { unfold ulpExp.
      pose proof (ilog2_lower x Hx') as Hlog.
      pose proof (pow2_pos (-1075)) as He.
      pose proof (pow2_pos (ilog2 x)) as Hi.
      assert (H53 : pow2 (ilog2 x - 52) * (1 # 2) == pow2 (ilog2 x) * u53).
      { replace (ilog2 x - 52)%Z with (ilog2 x + -52)%Z by lia.
        rewrite pow2_add. unfold u53.
        assert (Hc : pow2 (-52) * (1 # 2) == pow2 (-53)) by reflexivity.
        rewrite <- Hc. ring. }
      assert (H1075 : pow2 (-1074) * (1 # 2) == eta) by reflexivity.
      assert (Hu53 : 0 < u53) by apply pow2_pos.
      assert (Hm : pow2 (ilog2 x) * u53 <= x * u53)
        by (apply Qmult_le_compat_r; lra).
      assert (H0 : 0 <= x * u53) by (apply Qmult_le_0_compat; lra).
      fold eta in He.
      destruct (Z.max_spec (ilog2 x - 52) (-1074)) as [[_ ->] | [_ ->]]; lra. }
    lra.
Qed.

Lemma roundHalfEven_nonneg (y : Q) : 0 <= y -> (0 <= roundHalfEven y)%Z.
Proof.
  intros Hy. unfold roundHalfEven.
  pose proof (Qfloor_resp_le 0 y Hy) as Hf. change (Qfloor 0) with 0%Z in Hf.
  destruct (Qcompare _ _); [destruct (Z.even _)| |]; lia.
Qed.

Lemma round64_nonneg (x : Q) : 0 <= x -> 0 <= round64 x.
Proof.
  intros Hx. unfold round64.
  destruct (Qeq_bool x 0); [lra|].
  pose proof (pow2_pos (ulpExp x)) as Hp.
  apply Qmult_le_0_compat; [|lra].
  change 0 with (inject_Z 0). rewrite <- Zle_Qle.
  apply roundHalfEven_nonneg.
  apply Qle_shift_div_l; [exact Hp | lra].
Qed.

(** One rounding, with the constants written out:
    [2^-53] relative, at most [2^-100] absolute. *)
Lemma round64_error_num (x : Q) :
  0 <= x ->
  x - (x * (1 # 9007199254740992) + (1 # 1267650600228229401496703205376))
  <= round64 x
  <= x + (x * (1 # 9007199254740992) + (1 # 1267650600228229401496703205376)).
Proof.
  intros Hx. pose proof (round64_error x Hx) as [Hl Hu].
  assert (Hu53 : u53 == 1 # 9007199254740992) by reflexivity.
  assert (Heta : eta <= 1 # 1267650600228229401496703205376).
  { apply Qle_bool_iff. vm_compute. reflexivity. }
  rewrite Hu53 in Hl, Hu. lra.
Qed.

(** The side that is scaled: [s * (400 / l)] in binary64, truncated by
    the canvas, is the exact quotient [400 * s / l] rounded down, or one
    less. *)
Lemma scaled_side (l s : Z) :
  (400 < l < 2 ^ 32)%Z -> (0 <= s <= l)%Z ->
  let c := toUnsignedLong (mul (ofZ s) (div (ofZ 400) (ofZ l))) in
  (0 <= c <= 400 /\ c * l <= 400 * s <= (c + 1) * l)%Z.
Proof.
  intros Hl Hs.
  unfold mul, div, ofZ.
  set (L := inject_Z l). set (S := inject_Z s).
  assert (HL : 400 < L <= 4294967296).
  { subst L. split.
    - change 400 with (inject_Z 400). rewrite <- Zlt_Qlt. lia.
    - change 4294967296 with (inject_Z 4294967296). rewrite <- Zle_Qle. lia. }
  assert (HS : 0 <= S <= L).
  { subst S L. split.
    - change 0 with (inject_Z 0). rewrite <- Zle_Qle. lia.
    - rewrite <- Zle_Qle. lia. }
  set (X := inject_Z 400 / L).
  assert (HXL : X * L == 400).
  { subst X. change (inject_Z 400) with 400. field. lra. }
  assert (HX : 0 < X).
  { subst X. apply Qlt_shift_div_l; [lra|]. change (inject_Z 400) with 400. lra. }
  pose proof (round64_error_num X ltac:(lra)) as [Hq1 Hq2].
  pose proof (round64_nonneg X ltac:(lra)) as Hq0.
  set (q := round64 X) in *.
  assert (HY0 : 0 <= S * q) by (apply Qmult_le_0_compat; lra).
  pose proof (round64_error_num (S * q) HY0) as [Hp1 Hp2].
  pose proof (round64_nonneg (S * q) HY0) as Hp0.
  set (p := round64 (S * q)) in *.
  (* exact value Z = S * X, with Z * L = 400 * S *)
  assert (HZL : S * X * L == 400 * S) by (rewrite <- HXL; ring).
  assert (HZ : 0 <= S * X <= 400).
  { split; [apply Qmult_le_0_compat; lra|].
    rewrite <- HXL. rewrite (Qmult_comm X L).
    apply Qmult_le_compat_r; lra. }
  assert (HYu : S * q <= S * (X + (X * (1 # 9007199254740992)
                                   + (1 # 1267650600228229401496703205376)))).
  { rewrite !(Qmult_comm S). apply Qmult_le_compat_r; lra. }
  assert (HYl : S * (X - (X * (1 # 9007199254740992)
                          + (1 # 1267650600228229401496703205376))) <= S * q).
  { rewrite !(Qmult_comm S). apply Qmult_le_compat_r; lra. }
  assert (HYu' : S * q <= S * X + (S * X * (1 # 9007199254740992)
                 + S * (1 # 1267650600228229401496703205376)))
    by (eapply Qle_trans; [exact HYu|]; ring_simplify; lra).
  assert (HYl' : S * X - (S * X * (1 # 9007199254740992)
                 + S * (1 # 1267650600228229401496703205376)) <= S * q)
    by (eapply Qle_trans; [|exact HYl]; ring_simplify; lra).
  set (Y := S * q) in *. set (Z := S * X) in *.
  assert (Hd : - (1 # 8589934592) <= p - Z <= 1 # 8589934592) by lra.
  (* the truncated value *)
  assert (Hc : toUnsignedLong p = Qfloor p /\ (0 <= Qfloor p)%Z).
  { pose proof (Qfloor_resp_le 0 p Hp0) as Hf.
    change (Qfloor 0) with 0%Z in Hf.
    unfold toUnsignedLong, truncate.
    assert (E : Qle_bool 0 p = true) by (apply Qle_bool_iff; exact Hp0).
    rewrite E. split; [|exact Hf].
    apply Z.mod_small. split; [exact Hf|].
    assert (Hlt : inject_Z (Qfloor p) < inject_Z (2 ^ 32)).
    { pose proof (Qfloor_le p). change (inject_Z (2 ^ 32)) with 4294967296.
      lra. }
    rewrite <- Zlt_Qlt in Hlt. exact Hlt. }
  destruct Hc as [Hc Hc0]. cbv zeta. rewrite Hc.
  set (c := Qfloor p) in *.
  pose proof (Qfloor_le p) as Hfl. pose proof (Qlt_floor p) as Hfu.
  fold c in Hfl, Hfu. rewrite inject_Z_plus in Hfu.
  change (inject_Z 1) with 1 in Hfu.
  assert (H1 : inject_Z c * L <= (Z + (1 # 8589934592)) * L)
    by (apply Qmult_le_compat_r; lra).
  assert (H2 : (Z - (1 # 8589934592)) * L <= (inject_Z c + 1) * L)
    by (apply Qmult_le_compat_r; lra).
  assert (H1' : inject_Z (c * l) < inject_Z (400 * s + 1)).
  { rewrite inject_Z_plus, !inject_Z_mult. fold L S.
    change (inject_Z 400) with 400. change (inject_Z 1) with 1.
    assert (E : (Z + (1 # 8589934592)) * L == 400 * S + (1 # 8589934592) * L)
      by (rewrite <- HZL; ring).
    lra. }
  assert (H2' : inject_Z (400 * s - 1) < inject_Z ((c + 1) * l)).
  { unfold Z.sub. rewrite !inject_Z_plus, !inject_Z_mult, inject_Z_plus.
    fold L S.
    change (inject_Z 400) with 400. change (inject_Z 1) with 1.
    change (inject_Z (- (1))) with (- (1)).
    assert (E : (Z - (1 # 8589934592)) * L == 400 * S - (1 # 8589934592) * L)
      by (rewrite <- HZL; ring).
    lra. }
  rewrite <- Zlt_Qlt in H1', H2'.
  repeat split; try lia; nia.
Qed.

Lemma gt_ofZ (a b : Z) : gt (ofZ a) (ofZ b) = (b <? a)%Z.
Proof.
  unfold gt, ofZ.
  destruct (Qle_bool (inject_Z a) (inject_Z b)) eqn:E; cbn [negb]; symmetry.
  - apply Qle_bool_iff in E. rewrite <- Zle_Qle in E. apply Z.ltb_ge. exact E.
  - apply Z.ltb_lt. apply Z.nle_gt. intros H.
    rewrite Zle_Qle in H. apply Qle_bool_iff in H. congruence.
Qed.

Lemma toUnsignedLong_ofZ (a : Z) :
  (0 <= a < 2 ^ 32)%Z -> toUnsignedLong (ofZ a) = a.
Proof.
  intros Ha. unfold toUnsignedLong, truncate, ofZ.
  assert (E : Qle_bool 0 (inject_Z a) = true).
  { apply Qle_bool_iff. change 0 with (inject_Z 0). rewrite <- Zle_Qle. lia. }
  rewrite E, Qfloor_Z. apply Z.mod_small. exact Ha.
Qed.

End Binary64.

Section ThumbnailEncoder.
Context {B : Browser}.
Import JsNumber.
#[local] Open Scope Q_scope.

(** C5. When the image has loaded and a 2d context is available, the
    thumbnail is the canvas encoded as JPEG at quality 0.7 (the binary64
    number nearest to it).  If the longer side of the image exceeds 400,
    the longer side of the canvas is exactly 400 and the other side is
    the proportional value rounded down or one less, so the sides stay in
    proportion up to one unit; if both sides are at most 400, the canvas
    has the size of the image. *)
Theorem thumbnail_dimension_bound (src : jsstring) (img : LoadedImage)
    (k : Result jsstring -> Proc) :
  let w := width img in
  let h := height img in
  context2d img = true ->
  (0 <= w < 2 ^ 32)%Z ->
  (0 <= h < 2 ^ 32)%Z ->
  let drawn := Thumbnail.scaledSize (ofZ w) (ofZ h) Thumbnail.defaultMaxSize in
  let cw := toUnsignedLong (fst drawn) in
  let ch := toUnsignedLong (snd drawn) in
  resume (createThumbnailDataUri src Thumbnail.defaultMaxSize k)
    (ReplyImageLoad (Some img))
  = Some (k (Fulfilled
               (toDataURL src cw ch (fst drawn) (snd drawn)
                  (js "image/jpeg") Thumbnail.jpegQuality)))
  /\ Qabs (Thumbnail.jpegQuality - (7 # 10)) <= 1 # 18014398509481984
  /\ ((400 < Z.max w h)%Z ->
      Z.max cw ch = 400%Z /\ (Z.abs (cw * h - ch * w) <= Z.max w h)%Z)
  /\ ((w <= 400)%Z -> (h <= 400)%Z -> cw = w /\ ch = h).
Proof.
  intros w h Hc Hw Hh drawn cw ch.
  split; [|split].
  - unfold createThumbnailDataUri. cbn [resume]. rewrite Hc. cbn [negb].
    fold w h drawn. destruct drawn as [dw dh] eqn:E. reflexivity.
  - apply Qle_bool_iff. vm_compute. reflexivity.
  - subst cw ch drawn. unfold Thumbnail.scaledSize, Thumbnail.defaultMaxSize.
    rewrite !gt_ofZ.
    destruct (h <? w)%Z eqn:Ewh; [apply Z.ltb_lt in Ewh | apply Z.ltb_ge in Ewh].
    + destruct (400 <? w)%Z eqn:Ew;
        [apply Z.ltb_lt in Ew | apply Z.ltb_ge in Ew]; cbn [fst snd].
      * split; [|intros; lia]. intros _.
        pose proof (scaled_side w h ltac:(lia) ltac:(lia)) as Hs.
        cbv zeta in Hs.
        set (c := toUnsignedLong (mul (ofZ h) (div (ofZ 400) (ofZ w)))) in *.
        rewrite (toUnsignedLong_ofZ 400) by lia.
        split; [lia|]. nia.
      * split; [intros; lia|]. intros _ _.
        rewrite !toUnsignedLong_ofZ by lia. split; reflexivity.
    + destruct (400 <? h)%Z eqn:Eh;
        [apply Z.ltb_lt in Eh | apply Z.ltb_ge in Eh]; cbn [fst snd].
      * split; [|intros; lia]. intros _.
        pose proof (scaled_side h w ltac:(lia) ltac:(lia)) as Hs.
        cbv zeta in Hs.
        set (c := toUnsignedLong (mul (ofZ w) (div (ofZ 400) (ofZ h)))) in *.
        rewrite (toUnsignedLong_ofZ 400) by lia.
        split; [lia|]. nia.
      * split; [intros; lia|]. intros _ _.
        rewrite !toUnsignedLong_ofZ by lia. split; reflexivity.
Qed.

End ThumbnailEncoder.
Section ThumbnailExample.
#[local] Existing Instance Example.browser.
Import JsNumber.

(** A 1024 x 768 image gives a 400 x 300 canvas; a square one of side 539
    gives 399 x 400, because [539 * (400 / 539)] is just below 400 in
    binary64. *)
Lemma thumbnail_dimension_bound_witness :
  Thumbnail.canvasSize (ofZ 1024) (ofZ 768) Thumbnail.defaultMaxSize
  = (400, 300)%Z
  /\ Thumbnail.canvasSize (ofZ 539) (ofZ 539) Thumbnail.defaultMaxSize
     = (399, 400)%Z
  /\ (let drawn :=
        Thumbnail.scaledSize (ofZ 1024) (ofZ 768) Thumbnail.defaultMaxSize in
      Z.max (toUnsignedLong (fst drawn)) (toUnsignedLong (snd drawn)) = 400%Z)
  /\ (let drawn :=
        Thumbnail.scaledSize (ofZ 320) (ofZ 200) Thumbnail.defaultMaxSize in
      toUnsignedLong (fst drawn) = 320%Z /\ toUnsignedLong (snd drawn) = 200%Z).
Proof.
  split; [vm_compute; reflexivity|]. split; [vm_compute; reflexivity|].
  assert (Hw : (0 <= 1024 < 2 ^ 32)%Z) by (split; [discriminate | reflexivity]).
  assert (Hh : (0 <= 768 < 2 ^ 32)%Z) by (split; [discriminate | reflexivity]).
  assert (Hm : (400 < Z.max 1024 768)%Z) by reflexivity.
  assert (Hw' : (0 <= 320 < 2 ^ 32)%Z) by (split; [discriminate | reflexivity]).
  assert (Hh' : (0 <= 200 < 2 ^ 32)%Z) by (split; [discriminate | reflexivity]).
  assert (Hs1 : (320 <= 400)%Z) by discriminate.
  assert (Hs2 : (200 <= 400)%Z) by discriminate.
  split.
  - exact (proj1 (proj1 (proj2 (proj2
             (@thumbnail_dimension_bound Example.browser (js "I0")
                (mkLoaded 1024 768 true) (fun _ => Done) eq_refl Hw Hh)))
             Hm)).
  - exact (proj2 (proj2 (proj2
             (@thumbnail_dimension_bound Example.browser (js "I0")
                (mkLoaded 320 200 true) (fun _ => Done) eq_refl Hw' Hh')))
             Hs1 Hs2).
Defined.

End ThumbnailExample.

(* ================================================================== *)
(** * Properties of the rest of the page *)

(** ** The page: what holds in every state it can reach *)

Section PageInvariants.
Context {B : Browser}.

Lemma page_steps_app (w : World) (evs evs' : list Page.PageEvent) :
  Page.steps w (evs ++ evs') = Page.steps (Page.steps w evs) evs'.
Proof. unfold Page.steps. apply fold_left_app. Qed.

(** An induction principle for the reachable worlds of the page. *)
Lemma page_reachable_ind (P : World -> Prop) :
  (forall stored, P (initialWorld stored)) ->
  (forall w ev, Page.reachable w -> P w -> P (Page.step w ev)) ->
  forall w, Page.reachable w -> P w.
Proof.
  intros H0 Hs w (stored & evs & ->).
  induction evs as [|ev evs IH] using rev_ind; [apply H0|].
  rewrite page_steps_app. apply Hs; [|exact IH].
  exists stored, evs. reflexivity.
Qed.

Lemma core_reachable_page (w : World) :
  ImageForge.reachable w -> Page.reachable w.
Proof.
  intros (stored & evs & ->). exists stored, (map Page.Core evs).
  unfold Page.steps, ImageForge.steps.
  generalize (initialWorld stored).
  induction evs as [|ev evs IH]; intros w; [reflexivity|].
  cbn [map fold_left]. apply IH.
Qed.

Lemma page_step_fresh (w : World) (ev : Page.PageEvent) :
  fresh w -> fresh (Page.step w ev).
Proof.
  intros Hw. destruct ev; cbn [Page.step];
    try (apply commit_fresh, run_fresh; exact Hw).
  apply step_fresh, Hw.
Qed.

Lemma page_reachable_fresh (w : World) : Page.reachable w -> fresh w.
Proof.
  apply page_reachable_ind.
  - intros stored. constructor.
  - intros w' ev _ H. apply page_step_fresh, H.
Qed.

Lemma page_reachable_idle (w : World) :
  Page.reachable w -> historySet w = false.
Proof.
  revert w. apply (page_reachable_ind (fun w => historySet w = false)).
  - reflexivity.
  - intros w' ev _ H. destruct ev; cbn [Page.step];
      try apply commit_historySet.
    apply step_historySet, H.
Qed.

(** *** Processes and the properties of their updates *)

Lemma every_resume (onDo : (State -> State) -> Prop)
    (onSet : (list json -> list json) -> Prop) (p k : Proc) (r : Reply) :
  Page.every onDo onSet p -> resume p r = Some k -> Page.every onDo onSet k.
Proof.
  intros Hp Hr. destruct p, r; cbn [resume] in Hr; try discriminate;
    inversion Hr; subst; apply Hp.
Qed.

Section Every.
Variable onDo : (State -> State) -> Prop.
Variable onSet : (list json -> list json) -> Prop.
Hypothesis Hok : Page.updatesOk onDo onSet.

Ltac ok :=
  destruct Hok as (? & ? & ? & ? & ? & ? & ? & ? & ? & ? & ? & ? & Hpush & ? & ?);
  first [apply Hpush; discriminate | auto].

Lemma every_handleApiError (e : Thrown) (c : ApiContext) (k : Proc) :
  Page.every onDo onSet k -> Page.every onDo onSet (handleApiError e c k).
Proof.
  intros Hk. unfold handleApiError. cbn [Page.every].
  destruct (includes _ _); [|destruct c]; cbn [Page.every];
    repeat split; try exact Hk; ok.
Qed.

Lemma every_updateImageHistory (src : jsstring) (k : Proc) :
  Page.every onDo onSet k -> Page.every onDo onSet (updateImageHistory src k).
Proof.
  intros Hk. unfold updateImageHistory, createThumbnailDataUri.
  cbn [Page.every]. intros [img|]; [destruct (context2d img); cbn [negb]|];
    try destruct (Thumbnail.scaledSize _ _ _);
    cbn [Page.every]; repeat split; try exact Hk; ok.
Qed.

Lemma every_handleSuggestEdits (d : jsstring) (k : Proc) :
  Page.every onDo onSet k -> Page.every onDo onSet (handleSuggestEdits d k).
Proof.
  intros Hk. unfold handleSuggestEdits. cbn [Page.every].
  repeat split; try solve [ok].
  intros [results|e].
  - cbn [Page.every]. repeat split; try exact Hk; ok.
  - apply every_handleApiError. cbn [Page.every].
    repeat split; try exact Hk; ok.
Qed.

Lemma every_generateFinally : Page.every onDo onSet generateFinally.
Proof. unfold generateFinally. cbn [Page.every]. repeat split; ok. Qed.

Lemma every_handleGenerateImage (p : jsstring) :
  Page.every onDo onSet (handleGenerateImage p).
Proof.
  unfold handleGenerateImage.
  destruct (negb (truthy (trim p))); cbn [Page.every];
    repeat split; try solve [ok].
  intros [url|e].
  - cbn [Page.every]. split; [ok|].
    apply every_updateImageHistory.
    unfold afterGenerated, awaitRefinedPrompts. cbn [Page.every].
    repeat split; try solve [ok].
    intros [r|e].
    + cbn [Page.every]. split; [ok | apply every_generateFinally].
    + apply every_handleApiError, every_generateFinally.
  - apply every_handleApiError, every_generateFinally.
Qed.

Lemma every_handleEditImage (render : State) (arg : option jsstring) :
  Page.every onDo onSet (handleEditImage render arg).
Proof.
  unfold handleEditImage.
  destruct (negb (truthy (trim _))); [cbn [Page.every]; split; [ok | exact I]|].
  destruct (imageUrl render) as [[|c a]|];
    try (cbn [Page.every]; split; [ok | exact I]).
  cbn [Page.every]. repeat split; try solve [ok].
  intros [edited|e].
  - cbn [Page.every]. split; [ok|].
    apply every_updateImageHistory. cbn [Page.every].
    repeat split; try solve [ok].
    apply every_handleSuggestEdits. cbn [Page.every]. repeat split; ok.
  - apply every_handleApiError. cbn [Page.every]. repeat split; ok.
Qed.

Lemma every_handleReset : Page.every onDo onSet handleReset.
Proof. unfold handleReset. cbn [Page.every]. repeat split; ok. Qed.

Lemma every_handleHistoryImageClick (h : jsstring) :
  Page.every onDo onSet (handleHistoryImageClick h).
Proof.
  unfold handleHistoryImageClick. cbn [Page.every].
  repeat split; try solve [ok].
  apply every_handleSuggestEdits. exact I.
Qed.

Lemma every_onSuggestEditsClick (render : State) :
  Page.every onDo onSet (onSuggestEditsClick render).
Proof.
  unfold onSuggestEditsClick.
  destruct (imageUrl render) as [[|c a]|]; try exact I.
  apply every_handleSuggestEdits. exact I.
Qed.

Lemma every_handleFileSelected (file : option Page.File) :
  Page.every onDo onSet (Page.handleFileSelected file).
Proof.
  unfold Page.handleFileSelected.
  destruct file as [f|]; [|exact I].
  destruct (negb _); [|exact I]. cbn [Page.every]. split; [ok | exact I].
Qed.

Lemma every_onFileLoaded (d : jsstring) :
  Page.every onDo onSet (Page.onFileLoaded d).
Proof.
  unfold Page.onFileLoaded. cbn [Page.every]. repeat split; try solve [ok].
  apply every_updateImageHistory. cbn [Page.every].
  repeat split; try solve [ok].
  apply every_handleSuggestEdits. exact I.
Qed.

End Every.

(** *** Invariants of the state *)

Section Keeps.
Variable I : State -> Prop.

Lemma run_holds (p : Proc) :
  forall w, Page.keeps I p -> Page.holds I w -> Page.holds I (run p w).
Proof.
  unfold Page.keeps, Page.holds.
  induction p; intros w Hp [Hs Hpend]; cbn [run];
    try (cbn [suspend st pending]; split; [exact Hs|];
         apply Forall_app; split; [exact Hpend|];
         constructor; [exact Hp | constructor]).
  - split; assumption.
  - destruct Hp as [Hf Hk]. apply IHp; [exact Hk|].
    cbn [withState st pending]. split; [apply Hf, Hs | exact Hpend].
  - destruct Hp as [Hf Hk]. apply IHp; [exact Hk|].
    cbn [st pending]. split; [apply Hf, Hs | exact Hpend].
  - apply IHp; [exact Hp|]. cbn [st pending]. split; assumption.
  - apply IHp; [exact Hp|]. cbn [st pending]. split; assumption.
Qed.

Lemma commit_holds (w : World) : Page.holds I w -> Page.holds I (commit w).
Proof.
  unfold Page.holds. destruct (commit_frame w) as (-> & _ & -> & _). auto.
Qed.

Lemma persist_holds (h : list json) (w : World) :
  Page.holds I w -> Page.holds I (persistHistoryEffect h w).
Proof.
  unfold Page.holds. destruct (persist_frame h w) as (-> & _ & -> & _). auto.
Qed.

Lemma settle_holds (w : World) (id : nat) (r : Reply) :
  Page.holds I w -> Page.holds I (ImageForge.step w (Settle id r)).
Proof.
  intros Hw. cbn [ImageForge.step].
  destruct (lookupPending id (pending w)) as [p|] eqn:Hl; [|exact Hw].
  destruct (resume p r) as [k|] eqn:Hr; [|exact Hw].
  apply commit_holds, run_holds.
  - apply (every_resume _ _ p k r); [|exact Hr].
    destruct Hw as [_ Hpend]. clear -Hl Hpend.
    induction Hpend as [|[i q] l Hq _ IH]; [discriminate|].
    cbn [lookupPending] in Hl. destruct (Nat.eqb i id).
    + inversion Hl; subst. exact Hq.
    + apply IH, Hl.
  - destruct Hw as [Hs Hpend]. split; [exact Hs|].
    cbn [pending]. unfold removePending.
    apply Forall_forall. intros ip Hin. apply filter_In in Hin as [Hin _].
    rewrite Forall_forall in Hpend. apply Hpend, Hin.
Qed.

Hypothesis Hok :
  Page.updatesOk (fun f => forall s, I s -> I (f s))
    (fun f => forall s, I s -> I (setImageHistory (f (imageHistory s)) s)).
Hypothesis Hundo : forall s, I s -> Page.keeps I (handleUndo s).

Lemma page_step_holds (w : World) (ev : Page.PageEvent) :
  (ev = Page.Core Mount -> Page.holds I (loadHistoryEffect w)) ->
  Page.holds I w -> Page.holds I (Page.step w ev).
Proof.
  intros Hload Hw.
  destruct Hok as (H1 & H2 & H3 & H4 & H5 & H6 & H7 & H8 & H9 & H10 & H11
                   & H12 & H13 & H14 & H15).
  destruct ev as [ev| | | | |]; cbn [Page.step].
  - destruct ev; try apply settle_holds; try assumption; cbn [ImageForge.step];
      apply commit_holds.
    + apply persist_holds, Hload. reflexivity.
    + apply run_holds; [|exact Hw]. split; [apply H1 | exact Logic.I].
    + apply run_holds; [|exact Hw]. split; [apply H2 | exact Logic.I].
    + apply run_holds; [|exact Hw]. apply every_handleGenerateImage, Hok.
    + apply run_holds; [|exact Hw]. apply every_handleEditImage, Hok.
    + apply run_holds; [|exact Hw]. apply every_onSuggestEditsClick, Hok.
    + apply run_holds; [|exact Hw]. apply Hundo, Hw.
    + apply run_holds; [|exact Hw]. apply every_handleReset, Hok.
    + apply run_holds; [|exact Hw]. apply every_handleHistoryImageClick, Hok.
  - apply commit_holds, run_holds; [|exact Hw].
    apply every_handleFileSelected, Hok.
  - apply commit_holds, run_holds; [|exact Hw]. apply every_onFileLoaded, Hok.
  - apply commit_holds, run_holds; [|exact Hw].
    split; [apply H7 | exact Logic.I].
  - apply commit_holds, run_holds; [|exact Hw].
    split; [apply H11 | exact Logic.I].
  - apply commit_holds, run_holds; [|exact Hw]. exact Logic.I.
Qed.

Lemma page_reachable_holds (w : World) :
  (forall w', Page.holds I w' -> Page.holds I (loadHistoryEffect w')) ->
  I initialState -> Page.reachable w -> Page.holds I w.
Proof.
  intros Hload H0. revert w. apply (page_reachable_ind (Page.holds I)).
  - intros stored. split; [exact H0 | constructor].
  - intros w ev _ Hw. apply page_step_holds; [intros _; apply Hload, Hw | exact Hw].
Qed.

Lemma page_steps_holds (evs : list Page.PageEvent) :
  ~ In (Page.Core Mount) evs ->
  forall w, Page.holds I w -> Page.holds I (Page.steps w evs).
Proof.
  induction evs as [|ev evs IH]; intros Hn w Hw; [exact Hw|].
  cbn [Page.steps fold_left]. apply IH.
  - intros Hin. apply Hn. right. exact Hin.
  - apply page_step_holds; [|exact Hw].
    intros ->. exfalso. apply Hn. left. reflexivity.
Qed.

End Keeps.

(** *** The undo stack stays bounded *)

(** X1. In every state the page can reach the undo stack holds at most
    five images, whatever the order of clicks, uploads and replies. *)
Theorem undo_stack_bounded (w : World) :
  Page.reachable w -> length (undoStack (st w)) <= 5.
Proof.
  intros Hr.
  apply (page_reachable_holds Page.undoBounded); [| | | |exact Hr].
  3:{ intros w' Hw. unfold loadHistoryEffect.
      destruct (localStorage w') as [[|c s]|]; try exact Hw.
      destruct (JSON_parse (c :: s)) as [[]|]; try exact Hw;
        apply run_holds; try exact Hw;
        first [exact Logic.I | split; [intros; assumption | exact Logic.I]]. }
  - unfold Page.updatesOk, Page.undoBounded.
    repeat split; try (intros; assumption).
    + intros s _. unfold MAX_UNDO_STEPS. cbn. lia.
    + intros a _ s _. unfold pushUndo. cbn [undoStack setUndoStack].
      apply firstn_le_length.
    + intros s Hs. unfold rollbackUndo.
      destruct (undoStack s) as [|x rest] eqn:E; [cbn; lia|].
      destruct (truthy x); cbn [undoStack setUndoStack setImageUrl];
        rewrite ?E in Hs; cbn in Hs; unfold MAX_UNDO_STEPS in *; lia.
  - intros s Hs. unfold handleUndo, Page.undoBounded in *.
    destruct (undoStack s) as [|x rest]; [exact Logic.I|].
    cbn in Hs. cbn [Page.keeps Page.every]. unfold Page.keeps. cbn [Page.every].
    repeat split; try (intros; assumption).
    intros s' _. cbn. unfold MAX_UNDO_STEPS in *. lia.
  - unfold Page.undoBounded, MAX_UNDO_STEPS. cbn. lia.
Qed.


(** *** The undo stack holds images *)

(** X2. No entry of the undo stack is ever the empty string, so the guard
    [if (lastImage)] of the rollback after a failed edit never fails:
    with an entry on the stack, the rollback shows it and removes it. *)
Theorem undo_stack_holds_images (w : World) :
  Page.reachable w ->
  Forall (fun u : jsstring => u <> []) (undoStack (st w))
  /\ (forall lastImage rest,
        undoStack (st w) = lastImage :: rest ->
        rollbackUndo (st w)
        = setUndoStack rest (setImageUrl (Some lastImage) (st w))).
Proof.
  intros Hr.
  assert (H : Page.undoHoldsImages (st w)).
  { apply (page_reachable_holds Page.undoHoldsImages); [| | | |exact Hr].
    3:{ intros w' Hw. unfold loadHistoryEffect.
        destruct (localStorage w') as [[|c s]|]; try exact Hw.
        destruct (JSON_parse (c :: s)) as [[]|]; try exact Hw;
          apply run_holds; try exact Hw;
          first [exact Logic.I | split; [intros; assumption | exact Logic.I]]. }
    - unfold Page.updatesOk, Page.undoHoldsImages.
      repeat split; try (intros; assumption).
      + intros s _. constructor.
      + intros a Ha s Hs. unfold pushUndo. cbn [undoStack setUndoStack].
        apply Forall_forall. intros u Hin. apply In_firstn in Hin.
        destruct Hin as [<-|Hin]; [exact Ha|].
        rewrite Forall_forall in Hs. apply Hs, Hin.
      + intros s Hs. unfold rollbackUndo.
        destruct (undoStack s) as [|x rest] eqn:E; [constructor|].
        inversion Hs; subst.
        destruct (truthy x); cbn [undoStack setUndoStack setImageUrl];
          assumption.
    - intros s Hs. unfold handleUndo, Page.undoHoldsImages in *.
      destruct (undoStack s) as [|x rest]; [exact Logic.I|].
      inversion Hs; subst.
      unfold Page.keeps. cbn [Page.every].
      repeat split; try (intros; assumption).
    - constructor. }
  split; [exact H|].
  intros lastImage rest E. unfold Page.undoHoldsImages in H. rewrite E in H.
  inversion H as [|? ? Hne _]; subst.
  unfold rollbackUndo. rewrite E.
  destruct lastImage; [congruence | reflexivity].
Qed.

(** *** The history stays well formed *)

Lemma recordThumbnail_wellFormed (t : jsstring) (h : list json) :
  Page.wellFormedHistory h -> Page.wellFormedHistory (recordThumbnail t h).
Proof.
  intros (_ & Hn & Hs). split; [|split].
  - apply recordThumbnail_length.
  - apply recordThumbnail_NoDup, Hn.
  - rewrite recordThumbnail_cons. constructor; [eexists; reflexivity|].
    apply Forall_forall. intros v Hin.
    apply In_firstn in Hin. apply filter_In in Hin as [Hin _].
    rewrite Forall_forall in Hs. apply Hs, Hin.
Qed.

Lemma historyOk_updates :
  Page.updatesOk (fun f => forall s, Page.historyOk s -> Page.historyOk (f s))
    (fun f => forall s, Page.historyOk s
                        -> Page.historyOk (setImageHistory (f (imageHistory s)) s)).
Proof.
  unfold Page.updatesOk.
  repeat match goal with |- _ /\ _ => split end;
    try (intros; assumption).
  - intros s Hs. unfold rollbackUndo.
    destruct (undoStack s) as [|x rest]; [exact Hs|].
    destruct (truthy x); exact Hs.
  - intros t s Hs. unfold Page.historyOk in *. cbn [imageHistory setImageHistory].
    apply recordThumbnail_wellFormed, Hs.
Qed.

Lemma historyOk_handleUndo (s : State) :
  Page.historyOk s -> Page.keeps Page.historyOk (handleUndo s).
Proof.
  intros _. unfold handleUndo. destruct (undoStack s); [exact Logic.I|].
  unfold Page.keeps. cbn [Page.every].
  repeat match goal with |- _ /\ _ => split end;
    try exact Logic.I; intros; assumption.
Qed.

(** X3. Mounted once on a storage item that is absent, unusable, or an
    array of at most five distinct strings, the page keeps its history a
    list of at most five distinct strings, whatever happens next. *)
Theorem history_stays_well_formed (stored : option jsstring)
    (evs : list Page.PageEvent) :
  (forall s l, stored = Some s -> JSON_parse s = Fulfilled (JArray l) ->
               Page.wellFormedHistory l) ->
  ~ In (Page.Core Mount) evs ->
  let w := Page.steps (initialWorld stored) (Page.Core Mount :: evs) in
  Page.wellFormedHistory (imageHistory (st w)).
Proof.
  intros Hstored Hn w. subst w. cbn [Page.steps fold_left].
  apply (page_steps_holds Page.historyOk historyOk_updates historyOk_handleUndo
           evs Hn).
  apply page_step_holds;
    [exact historyOk_updates | exact historyOk_handleUndo | |].
  - intros _. unfold loadHistoryEffect. cbn [localStorage initialWorld].
    assert (H0 : Page.holds Page.historyOk (initialWorld stored)).
    { split; [|constructor]. repeat split; [cbn; lia | constructor | constructor]. }
    destruct stored as [[|c s]|]; try exact H0.
    destruct (JSON_parse (c :: s)) as [[]|] eqn:E; try exact H0.
    split; [|constructor]. cbn [run st imageHistory setImageHistory].
    apply (Hstored (c :: s) items eq_refl E).
  - split; [|constructor]. repeat split; [cbn; lia | constructor | constructor].
Qed.


(** *** Storage mirrors the history *)

Lemma framesHistory_updates :
  Page.updatesOk (fun f => forall s, imageHistory (f s) = imageHistory s)
    (fun _ => True).
Proof.
  unfold Page.updatesOk.
  repeat match goal with |- _ /\ _ => split end;
    try (intros; reflexivity); try (intros; exact Logic.I).
  intros s. unfold rollbackUndo.
  destruct (undoStack s) as [|x rest]; [reflexivity|].
  destruct (truthy x); reflexivity.
Qed.

Lemma framesHistory_handleUndo (s : State) :
  Page.framesHistory (handleUndo s).
Proof.
  unfold handleUndo. destruct (undoStack s); [exact Logic.I|].
  unfold Page.framesHistory. cbn [Page.every].
  repeat match goal with |- _ /\ _ => split end;
    try exact Logic.I; intros; reflexivity.
Qed.

(** Running a process that frames the history either calls
    [setImageHistory] or leaves the history as it was; storage is written
    by the effect only. *)
Lemma run_frames (p : Proc) :
  forall w,
    Page.framesHistory p ->
    Forall (fun ip => Page.framesHistory (snd ip)) (pending w) ->
    localStorage (run p w) = localStorage w
    /\ Forall (fun ip => Page.framesHistory (snd ip)) (pending (run p w))
    /\ (historySet (run p w) = true
        \/ (historySet (run p w) = historySet w
            /\ imageHistory (st (run p w)) = imageHistory (st w))).
Proof.
  unfold Page.framesHistory.
  induction p; intros w Hp Hpend; cbn [run];
    try (cbn [suspend localStorage pending historySet st];
         split; [reflexivity|]; split;
         [apply Forall_app; split; [exact Hpend|];
          constructor; [exact Hp | constructor]
         | right; split; reflexivity]).
  - split; [reflexivity|]. split; [exact Hpend|]. right. split; reflexivity.
  - destruct Hp as [Hf Hk].
    destruct (IHp (withState f w) Hk Hpend) as (E1 & E2 & E3).
    split; [exact E1|]. split; [exact E2|].
    destruct E3 as [E3 | [E3 E4]]; [left; exact E3 | right].
    split; [exact E3|]. rewrite E4. cbn [withState st]. apply Hf.
  - destruct Hp as [_ Hk].
    match goal with |- context [run p ?x] =>
      destruct (IHp x Hk Hpend) as (E1 & E2 & E3) end.
    split; [exact E1|]. split; [exact E2|]. left.
    destruct E3 as [E3 | [E3 _]]; [exact E3 | rewrite E3; reflexivity].
  - match goal with |- context [run p ?x] =>
      destruct (IHp x Hp Hpend) as (E1 & E2 & E3) end.
    split; [exact E1|]. split; [exact E2|]. exact E3.
  - match goal with |- context [run p ?x] =>
      destruct (IHp x Hp Hpend) as (E1 & E2 & E3) end.
    split; [exact E1|]. split; [exact E2|]. exact E3.
Qed.

Section Mirror.
Hypothesis Hset : forall v, setItem_throws v = None.

Lemma persist_writes (h : list json) (w : World) :
  persistHistoryEffect h w
  = mkWorld (st w) (Some (JSON_stringify h)) (toasts w) (console w) (calls w)
      (pending w) (nextId w) (historySet w).
Proof. unfold persistHistoryEffect. rewrite Hset. reflexivity. Qed.

Lemma commit_run_mirrored (p : Proc) (w : World) :
  Page.framesHistory p ->
  historySet w = false ->
  localStorage w = Some (JSON_stringify (imageHistory (st w))) ->
  Forall (fun ip => Page.framesHistory (snd ip)) (pending w) ->
  Page.mirrored (commit (run p w)).
Proof.
  intros Hp Hh Hs Hpend.
  destruct (run_frames p w Hp Hpend) as (E1 & E2 & E3).
  unfold Page.mirrored, commit.
  destruct (historySet (run p w)) eqn:E.
  - rewrite persist_writes. cbn [historySet localStorage st pending].
    split; [reflexivity|]. split; [reflexivity | exact E2].
  - destruct E3 as [E3 | [_ E4]]; [congruence|].
    split; [exact E|]. split; [|exact E2]. rewrite E1, E4. exact Hs.
Qed.

Lemma page_step_mirrored (w : World) (ev : Page.PageEvent) :
  Page.mirrored w -> Page.mirrored (Page.step w ev).
Proof.
  intros (Hh & Hs & Hpend).
  pose proof framesHistory_updates as Hok.
  destruct ev as [ev| | | | |]; cbn [Page.step];
    try (apply commit_run_mirrored; try assumption).
  - destruct ev; cbn [ImageForge.step];
      try (apply commit_run_mirrored; try assumption).
    + (* Mount *)
      rewrite persist_writes.
      assert (Hl : exists p, Page.framesHistory p
                             /\ loadHistoryEffect w = run p w).
      { unfold loadHistoryEffect.
        destruct (localStorage w) as [[|c s]|];
          try (exists Done; split; [exact Logic.I | reflexivity]).
        destruct (JSON_parse (c :: s)) as [[]|];
          try (exists Done; split; [exact Logic.I | reflexivity]);
          eexists; (split; [|reflexivity]); repeat split. }
      destruct Hl as (p & Hp & ->).
      destruct (run_frames p w Hp Hpend) as (E1 & E2 & E3).
      unfold Page.mirrored, commit. cbn [historySet st localStorage pending].
      destruct (historySet (run p w)) eqn:E.
      * rewrite persist_writes. cbn [historySet localStorage st pending].
        split; [reflexivity|]. split; [reflexivity | exact E2].
      * destruct E3 as [E3 | [_ E4]]; [congruence|].
        cbn [historySet localStorage st pending].
        split; [reflexivity|]. split; [rewrite E4; reflexivity | exact E2].
    + split; [intros; reflexivity | exact Logic.I].
    + split; [intros; reflexivity | exact Logic.I].
    + apply every_handleGenerateImage, Hok.
    + apply every_handleEditImage, Hok.
    + apply every_onSuggestEditsClick, Hok.
    + apply framesHistory_handleUndo.
    + apply every_handleReset, Hok.
    + apply every_handleHistoryImageClick, Hok.
    + (* Settle *)
      destruct (lookupPending id (pending w)) as [p|] eqn:Hl;
        [|repeat split; assumption].
      destruct (resume p r) as [k|] eqn:Hr; [|repeat split; assumption].
      apply commit_run_mirrored; try assumption.
      * apply (every_resume _ _ p k r); [|exact Hr].
        clear -Hl Hpend.
        induction Hpend as [|[i q] l Hq _ IH]; [discriminate|].
        cbn [lookupPending] in Hl. destruct (Nat.eqb i id).
        -- inversion Hl; subst. exact Hq.
        -- apply IH, Hl.
      * cbn [pending]. unfold removePending.
        apply Forall_forall. intros ip Hin. apply filter_In in Hin as [Hin _].
        rewrite Forall_forall in Hpend. apply Hpend, Hin.
  - apply every_handleFileSelected, Hok.
  - apply every_onFileLoaded, Hok.
  - split; [intros; reflexivity | exact Logic.I].
  - split; [intros; reflexivity | exact Logic.I].
  - exact Logic.I.
Qed.

End Mirror.

Lemma mounted_page_mirrored (stored : option jsstring)
    (evs : list Page.PageEvent) :
  (forall v, setItem_throws v = None) ->
  Page.mirrored (Page.steps (initialWorld stored) (Page.Core Mount :: evs)).
Proof.
  intros Hset. cbn [Page.steps fold_left].
  assert (H1 : Page.mirrored (Page.step (initialWorld stored) (Page.Core Mount))).
  { cbn [Page.step ImageForge.step]. rewrite (persist_writes Hset).
    unfold loadHistoryEffect. cbn [localStorage initialWorld].
    destruct stored as [[|c s]|];
      try (unfold Page.mirrored, commit; cbn; rewrite ?(persist_writes Hset);
           repeat split; constructor).
    destruct (JSON_parse (c :: s)) as [[]|];
      unfold Page.mirrored, commit; cbn [run historySet st localStorage pending
                                     initialWorld imageHistory setImageHistory];
      rewrite ?(persist_writes Hset);
      repeat split; constructor. }
  revert H1. generalize (Page.step (initialWorld stored) (Page.Core Mount)).
  induction evs as [|ev evs IH]; intros w Hw; [apply Hw|].
  cbn [fold_left]. apply IH, page_step_mirrored; assumption.
Qed.

(** *** The page stays rendered *)

Lemma recordThumbnail_strings (t : jsstring) (h : list json) :
  forallb Page.isString h = true ->
  forallb Page.isString (recordThumbnail t h) = true.
Proof.
  intros H. rewrite recordThumbnail_cons. cbn [forallb Page.isString andb].
  rewrite forallb_forall in *. intros v Hin.
  apply In_firstn in Hin. apply filter_In in Hin as [Hin _].
  apply H, Hin.
Qed.

Lemma renders_updates :
  Page.updatesOk
    (fun f => forall s, Page.renders s = true -> Page.renders (f s) = true)
    (fun f => forall s,
         Page.renders s = true ->
         Page.renders (setImageHistory (f (imageHistory s)) s) = true).
Proof.
  unfold Page.updatesOk.
  repeat match goal with |- _ /\ _ => split end;
    try (intros; assumption).
  - intros s Hs. unfold rollbackUndo.
    destruct (undoStack s) as [|x rest]; [exact Hs|].
    destruct (truthy x); exact Hs.
  - intros t s Hs. unfold Page.renders in *.
    cbn [imageHistory setImageHistory].
    apply recordThumbnail_strings, Hs.
Qed.

Lemma renders_handleUndo (s : State) :
  Page.renders s = true ->
  Page.keeps (fun s' => Page.renders s' = true) (handleUndo s).
Proof.
  intros _. unfold handleUndo. destruct (undoStack s); [exact Logic.I|].
  unfold Page.keeps. cbn [Page.every].
  repeat match goal with |- _ /\ _ => split end;
    try exact Logic.I; intros; assumption.
Qed.

(** Mounted once on a storage item that is absent, unusable or an array
    of strings, the page has a history of strings after every event: no
    render fails. *)
Lemma mounted_page_renders (stored : option jsstring)
    (evs : list Page.PageEvent) :
  (forall s l, stored = Some s -> JSON_parse s = Fulfilled (JArray l) ->
               forallb Page.isString l = true) ->
  ~ In (Page.Core Mount) evs ->
  Page.renders
    (st (Page.steps (initialWorld stored) (Page.Core Mount :: evs))) = true.
Proof.
  intros Hstored Hn. cbn [Page.steps fold_left].
  apply (page_steps_holds (fun s => Page.renders s = true)
           renders_updates renders_handleUndo evs Hn).
  assert (H0 : Page.holds (fun s => Page.renders s = true)
                 (initialWorld stored)).
  { split; [reflexivity | constructor]. }
  apply page_step_holds;
    [exact renders_updates | exact renders_handleUndo | | exact H0].
  intros _. unfold loadHistoryEffect. cbn [localStorage initialWorld].
  destruct stored as [[|c s]|]; try exact H0.
  destruct (JSON_parse (c :: s)) as [[]|] eqn:E; try exact H0.
  split; [|constructor]. cbn [run st]. unfold Page.renders.
  cbn [imageHistory setImageHistory].
  apply (Hstored (c :: s) items eq_refl E).
Qed.

(** X4. Mounted once on a storage item that is absent, unusable or an
    array of strings, and with a storage that never refuses a write, the
    page renders after every event and the stored item is then the
    serialization of the history list. *)
Theorem storage_mirrors_history (stored : option jsstring)
    (evs : list Page.PageEvent) :
  (forall v, setItem_throws v = None) ->
  (forall s l, stored = Some s -> JSON_parse s = Fulfilled (JArray l) ->
               forallb Page.isString l = true) ->
  ~ In (Page.Core Mount) evs ->
  let w := Page.steps (initialWorld stored) (Page.Core Mount :: evs) in
  Page.renders (st w) = true
  /\ localStorage w = Some (JSON_stringify (imageHistory (st w))).
Proof.
  intros Hset Hstored Hn w. split.
  - apply (mounted_page_renders stored evs Hstored Hn).
  - apply (mounted_page_mirrored stored evs Hset).
Qed.

(** X5. Closing the page and opening it again brings the history back.
    Let the page be mounted once on a storage item that is absent,
    unusable or an array of strings, with a storage that never refuses a
    write.  When the serialized history parses to the list it was made
    from, the first render of a new page on the storage the old one left
    installs the history the old one had, renders it, and leaves the
    stored item as it was. *)
Theorem history_survives_reload (stored : option jsstring)
    (evs : list Page.PageEvent) :
  (forall v, setItem_throws v = None) ->
  (forall s l, stored = Some s -> JSON_parse s = Fulfilled (JArray l) ->
               forallb Page.isString l = true) ->
  ~ In (Page.Core Mount) evs ->
  let w := Page.steps (initialWorld stored) (Page.Core Mount :: evs) in
  let h := imageHistory (st w) in
  JSON_stringify h <> [] ->
  JSON_parse (JSON_stringify h) = Fulfilled (JArray h) ->
  let w' := Page.step (initialWorld (localStorage w)) (Page.Core Mount) in
  imageHistory (st w') = h
  /\ Page.renders (st w') = true
  /\ localStorage w' = localStorage w.
Proof.
  intros Hset Hstored Hn w h Hne Hparse w'.
  destruct (mounted_page_mirrored stored evs Hset) as (_ & Hls & _).
  pose proof (mounted_page_renders stored evs Hstored Hn) as Hr.
  fold w in Hls, Hr. fold h in Hls. unfold Page.renders in Hr. fold h in Hr.
  assert (E : imageHistory (st w') = h /\ localStorage w' = localStorage w).
  { subst w'. rewrite Hls.
    cbn [Page.step ImageForge.step]. rewrite (persist_writes Hset).
    unfold loadHistoryEffect. cbn [localStorage initialWorld].
    destruct (JSON_stringify h) as [|c s] eqn:E; [congruence|].
    rewrite Hparse. unfold commit.
    cbn [run historySet st imageHistory setImageHistory localStorage].
    rewrite (persist_writes Hset).
    cbn [st imageHistory localStorage]. rewrite E. split; reflexivity. }
  destruct E as [E1 E2].
  split; [exact E1|]. split; [|exact E2].
  unfold Page.renders. rewrite E1. exact Hr.
Qed.

(** *** Nothing pending, nothing loading *)

Lemma endsIdle_keepsIdle (p : Proc) : Page.endsIdle p -> Page.keepsIdle p.
Proof. intros H s s' _. apply H. Qed.

Lemma keepsIdle_Do (f : State -> State) (k : Proc) :
  (forall s, isLoading (f s) = isLoading s
             /\ activeLoader (f s) = activeLoader s) ->
  Page.keepsIdle k -> Page.keepsIdle (Do f k).
Proof.
  intros Hf Hk s s' [H1 H2] E. cbn [Page.final] in E.
  apply (Hk (f s) s'); [|exact E].
  unfold Page.idle. destruct (Hf s) as [-> ->]. split; assumption.
Qed.

Lemma endsIdle_Do (f : State -> State) (k : Proc) :
  Page.endsIdle k -> Page.endsIdle (Do f k).
Proof. intros Hk s s' E. apply (Hk (f s) s'), E. Qed.

Lemma finally_idle (k : Proc) :
  Page.keepsIdle k -> Page.endsIdle (setIsLoading false ;; setActiveLoader None ;; k).
Proof.
  intros Hk s s' E. cbn [Page.final] in E.
  refine (Hk _ s' _ E). split; reflexivity.
Qed.

Lemma keepsIdle_Done : Page.keepsIdle Done.
Proof. intros s s' H E. inversion E; subst. exact H. Qed.

Lemma endsIdle_handleApiError (e : Thrown) (c : ApiContext) (k : Proc) :
  Page.endsIdle k -> Page.endsIdle (handleApiError e c k).
Proof.
  intros Hk s s' E. unfold handleApiError in E. cbn [Page.final] in E.
  destruct (includes _ _); [|destruct c]; cbn [Page.final] in E;
    apply Hk in E; exact E.
Qed.

Lemma settlesIdle_handleApiError (e : Thrown) (c : ApiContext) (k : Proc) :
  Page.settlesIdle k -> Page.settlesIdle (handleApiError e c k).
Proof.
  intros Hk. unfold handleApiError. cbn [Page.settlesIdle].
  destruct (includes _ _); [|destruct c]; cbn [Page.settlesIdle]; exact Hk.
Qed.

Lemma settlesIdle_updateImageHistory (src : jsstring) (k : Proc) :
  Page.endsIdle k -> Page.settlesIdle k ->
  Page.settlesIdle (updateImageHistory src k).
Proof.
  intros He Hk. unfold updateImageHistory, createThumbnailDataUri.
  cbn [Page.settlesIdle].
  intros [img|]; [destruct (context2d img); cbn [negb]|];
    try destruct (Thumbnail.scaledSize _ _ _);
    (split; [intros s s' E; cbn [Page.final] in E; apply He in E; exact E
            | cbn [Page.settlesIdle]; exact Hk]).
Qed.

Lemma settlesIdle_handleSuggestEdits (d : jsstring) (k : Proc) :
  Page.keepsIdle k -> Page.settlesIdle k ->
  Page.settlesIdle (handleSuggestEdits d k).
Proof.
  intros Hkeep Hk. unfold handleSuggestEdits. cbn [Page.settlesIdle].
  intros [results|e]; split.
  - apply endsIdle_Do, finally_idle, Hkeep.
  - cbn [Page.settlesIdle]. exact Hk.
  - apply endsIdle_handleApiError, finally_idle, Hkeep.
  - apply settlesIdle_handleApiError. cbn [Page.settlesIdle]. exact Hk.
Qed.

Lemma endsIdle_await_suggest (d : jsstring) (k : Proc) :
  Page.endsIdle (handleSuggestEdits d k).
Proof. intros s s' E. discriminate. Qed.

Lemma endsIdle_generateFinally : Page.endsIdle generateFinally.
Proof.
  intros s s' E. unfold generateFinally in E. cbn [Page.final] in E.
  inversion E; subst. split; reflexivity.
Qed.

Lemma settlesIdle_handleGenerateImage (p : jsstring) :
  Page.settlesIdle (handleGenerateImage p)
  /\ Page.keepsIdle (handleGenerateImage p).
Proof.
  unfold handleGenerateImage. destruct (negb (truthy (trim p))).
  - split; [exact Logic.I|].
    apply keepsIdle_Do; [intros; split; reflexivity | apply keepsIdle_Done].
  - split; [|intros s s' _ E; discriminate].
    cbn [Page.settlesIdle]. intros [url|e]; split.
    + intros s s' E. discriminate.
    + cbn [Page.settlesIdle]. apply settlesIdle_updateImageHistory.
      * intros s s' E. discriminate.
      * unfold afterGenerated, awaitRefinedPrompts. cbn [Page.settlesIdle].
        intros [r|e]; split.
        -- apply endsIdle_Do, endsIdle_generateFinally.
        -- exact Logic.I.
        -- apply endsIdle_handleApiError, endsIdle_generateFinally.
        -- apply settlesIdle_handleApiError. exact Logic.I.
    + apply endsIdle_handleApiError, endsIdle_generateFinally.
    + apply settlesIdle_handleApiError. exact Logic.I.
Qed.

Lemma settlesIdle_handleEditImage (render : State) (arg : option jsstring) :
  Page.settlesIdle (handleEditImage render arg)
  /\ Page.keepsIdle (handleEditImage render arg).
Proof.
  unfold handleEditImage.
  assert (Herr : forall m, Page.settlesIdle (setError m ;; Done)
                           /\ Page.keepsIdle (setError m ;; Done)).
  { intros m. split; [exact Logic.I|].
    apply keepsIdle_Do; [intros; split; reflexivity | apply keepsIdle_Done]. }
  destruct (negb (truthy (trim _))); [apply Herr|].
  destruct (imageUrl render) as [[|c a]|]; try apply Herr.
  split; [|intros s s' _ E; discriminate].
  cbn [Page.settlesIdle]. intros [edited|e]; split.
  - intros s s' E. discriminate.
  - cbn [Page.settlesIdle]. apply settlesIdle_updateImageHistory.
    + intros s s' E. discriminate.
    + cbn [Page.settlesIdle]. apply settlesIdle_handleSuggestEdits.
      * apply endsIdle_keepsIdle, (finally_idle Done), keepsIdle_Done.
      * exact Logic.I.
  - apply endsIdle_handleApiError, endsIdle_Do,
      (finally_idle Done), keepsIdle_Done.
  - apply settlesIdle_handleApiError. exact Logic.I.
Qed.

Lemma run_final (p : Proc) :
  forall w,
    match Page.final p (st w) with
    | Some s' => st (run p w) = s' /\ pending (run p w) = pending w
    | None =>
        exists q, pending (run p w) = pending w ++ [(nextId w, q)]
                  /\ (Page.settlesIdle p -> Page.settlesIdle q)
    end.
Proof.
  induction p; intros w; cbn [Page.final run];
    try (match goal with |- context [suspend ?q _ _] => exists q end;
         split; [reflexivity | intros Hq; exact Hq]).
  - split; reflexivity.
  - apply (IHp (withState f w)).
  - match goal with |- context [run p ?x] => apply (IHp x) end.
  - match goal with |- context [run p ?x] => apply (IHp x) end.
  - match goal with |- context [run p ?x] => apply (IHp x) end.
Qed.

Lemma commit_settled (w : World) : Page.settled w -> Page.settled (commit w).
Proof.
  unfold Page.settled. destruct (commit_frame w) as (-> & _ & -> & _). auto.
Qed.

(** An event handler called on a settled page leaves it settled. *)
Lemma handler_settled (p : Proc) (w : World) :
  Page.settlesIdle p -> Page.keepsIdle p -> Page.settled w -> Page.settled (run p w).
Proof.
  intros Hp Hk [Hidle Hpend]. pose proof (run_final p w) as Hf.
  destruct (Page.final p (st w)) as [s'|] eqn:E.
  - destruct Hf as [H1 H2]. unfold Page.settled. rewrite H1, H2.
    split; [|exact Hpend].
    intros Hnil. apply (Hk (st w) s'); [apply Hidle, Hnil | exact E].
  - destruct Hf as (q & H1 & Hq). unfold Page.settled. rewrite H1. split.
    + intros Hnil. destruct (pending w); discriminate.
    + apply Forall_app. split; [exact Hpend|].
      constructor; [apply Hq, Hp | constructor].
Qed.

(** A resumed process leaves it settled as well. *)
Lemma resumed_settled (p : Proc) (w : World) :
  Page.settlesIdle p -> Page.endsIdle p ->
  Forall (fun ip => Page.settlesIdle (snd ip)) (pending w) ->
  Page.settled (run p w).
Proof.
  intros Hp He Hpend. pose proof (run_final p w) as Hf.
  destruct (Page.final p (st w)) as [s'|] eqn:E.
  - destruct Hf as [H1 H2]. unfold Page.settled. rewrite H1, H2.
    split; [|exact Hpend].
    intros _. apply (He (st w) s'), E.
  - destruct Hf as (q & H1 & Hq). unfold Page.settled. rewrite H1. split.
    + intros Hnil. destruct (pending w); discriminate.
    + apply Forall_app. split; [exact Hpend|].
      constructor; [apply Hq, Hp | constructor].
Qed.

Lemma settlesIdle_resume (p k : Proc) (r : Reply) :
  Page.settlesIdle p -> resume p r = Some k ->
  Page.endsIdle k /\ Page.settlesIdle k.
Proof.
  intros Hp Hr. destruct p, r as [x|x|x|x]; cbn [resume] in Hr;
    try discriminate; inversion Hr; subst; cbn [Page.settlesIdle] in Hp;
    destruct (Hp x) as [H1 H2]; split; assumption.
Qed.

Lemma page_step_settled (w : World) (ev : Page.PageEvent) :
  Page.settled w -> Page.settled (Page.step w ev).
Proof.
  intros Hw.
  assert (Hset : forall f : State -> State,
             (forall s, isLoading (f s) = isLoading s
                        /\ activeLoader (f s) = activeLoader s) ->
             Page.settled (commit (run (f ;; Done) w))).
  { intros f Hf. apply commit_settled, handler_settled; [exact Logic.I | |exact Hw].
    apply keepsIdle_Do; [exact Hf | apply keepsIdle_Done]. }
  destruct ev as [ev| | | | |]; cbn [Page.step].
  - destruct ev; cbn [ImageForge.step].
    + (* Mount *)
      apply commit_settled.
      unfold Page.settled.
      destruct (persist_frame (imageHistory (st w)) (loadHistoryEffect w))
        as (-> & _ & -> & _).
      assert (Hl : exists p, loadHistoryEffect w = run p w
                             /\ Page.settlesIdle p /\ Page.keepsIdle p).
      { unfold loadHistoryEffect.
        destruct (localStorage w) as [[|c s]|];
          try (exists Done; split; [reflexivity|];
               split; [exact Logic.I | apply keepsIdle_Done]).
        destruct (JSON_parse (c :: s)) as [[]|];
          try (exists Done; split; [reflexivity|];
               split; [exact Logic.I | apply keepsIdle_Done]);
          eexists; (split; [reflexivity|]); (split; [exact Logic.I|]);
          intros s0 s' H E; cbn [Page.final] in E; inversion E; subst;
          exact H. }
      destruct Hl as (p & -> & Hp & Hk).
      apply handler_settled; assumption.
    + apply Hset. intros; split; reflexivity.
    + apply Hset. intros; split; reflexivity.
    + apply commit_settled, handler_settled; try exact Hw;
        apply settlesIdle_handleGenerateImage.
    + apply commit_settled, handler_settled; try exact Hw;
        apply settlesIdle_handleEditImage.
    + apply commit_settled, handler_settled; try exact Hw;
        unfold onSuggestEditsClick;
        destruct (imageUrl (st w)) as [[|c a]|];
        try exact Logic.I; try apply keepsIdle_Done.
      * apply settlesIdle_handleSuggestEdits;
          [apply keepsIdle_Done | exact Logic.I].
      * intros s s' _ E. discriminate.
    + apply commit_settled, handler_settled; try exact Hw;
        unfold handleUndo; destruct (undoStack (st w));
        try exact Logic.I; try apply keepsIdle_Done.
      apply keepsIdle_Do; [intros; split; reflexivity|].
      apply keepsIdle_Do; [intros; split; reflexivity|].
      intros s s' H E. cbn [Page.final] in E. inversion E; subst. exact H.
    + apply commit_settled, handler_settled; try exact Hw;
        [exact Logic.I|].
      unfold handleReset.
      repeat (apply keepsIdle_Do; [intros; split; reflexivity|]).
      apply keepsIdle_Done.
    + apply commit_settled, handler_settled; try exact Hw.
      * unfold handleHistoryImageClick. cbn [Page.settlesIdle].
        apply settlesIdle_handleSuggestEdits;
          [apply keepsIdle_Done | exact Logic.I].
      * intros s s' _ E. discriminate.
    + (* Settle *)
      destruct (lookupPending id (pending w)) as [p|] eqn:Hl; [|exact Hw].
      destruct (resume p r) as [k|] eqn:Hr; [|exact Hw].
      assert (Hp : Page.settlesIdle p).
      { destruct Hw as [_ Hpend]. clear -Hl Hpend.
        induction Hpend as [|[i q] l Hq _ IH]; [discriminate|].
        cbn [lookupPending] in Hl. destruct (Nat.eqb i id).
        - inversion Hl; subst. exact Hq.
        - apply IH, Hl. }
      destruct (settlesIdle_resume p k r Hp Hr) as [He Hk].
      apply commit_settled, resumed_settled; [exact Hk | exact He |].
      cbn [pending]. unfold removePending. destruct Hw as [_ Hpend].
      apply Forall_forall. intros ip Hin. apply filter_In in Hin as [Hin _].
      rewrite Forall_forall in Hpend. apply Hpend, Hin.
  - apply commit_settled, handler_settled; try exact Hw;
      unfold Page.handleFileSelected; destruct file as [f|];
      try exact Logic.I; try apply keepsIdle_Done;
      destruct (negb _); try exact Logic.I; try apply keepsIdle_Done.
    apply keepsIdle_Do; [intros; split; reflexivity|].
    intros s s' H E. cbn [Page.final] in E. inversion E; subst. exact H.
  - apply commit_settled, handler_settled; try exact Hw.
    + unfold Page.onFileLoaded. cbn [Page.settlesIdle].
      apply settlesIdle_updateImageHistory.
      * intros s s' E. discriminate.
      * cbn [Page.settlesIdle]. apply settlesIdle_handleSuggestEdits;
          [apply keepsIdle_Done | exact Logic.I].
    + intros s s' _ E. discriminate.
  - apply commit_settled, handler_settled; try exact Hw; [exact Logic.I|].
    unfold Page.onFileError.
    apply keepsIdle_Do; [intros; split; reflexivity|].
    intros s s' H E. cbn [Page.final] in E. inversion E; subst. exact H.
  - apply Hset. intros; split; reflexivity.
  - apply commit_settled, handler_settled; try exact Hw; [exact Logic.I|].
    intros s s' H E. cbn [Page.final] in E. inversion E; subst. exact H.
Qed.

(** X6. In every state the page can reach, if no promise is outstanding
    then nothing is shown as loading: [isLoading] is false and
    [activeLoader] is null. *)
Theorem nothing_pending_nothing_loading (w : World) :
  Page.reachable w ->
  pending w = [] ->
  isLoading (st w) = false /\ activeLoader (st w) = None.
Proof.
  intros Hr. apply (page_reachable_ind Page.settled); [| |exact Hr].
  - intros stored. split; [intros _; split; reflexivity | constructor].
  - intros w' ev _ Hw. apply page_step_settled, Hw.
Qed.

End PageInvariants.

(** ** Download: the name of the saved file *)

Section Download.

Lemma startsWith_app (p r : jsstring) : startsWith (p ++ r) p = true.
Proof.
  induction p as [|c p IH]; [destruct r; reflexivity|].
  cbn [app startsWith]. rewrite N.eqb_refl, IH. reflexivity.
Qed.

(** The first occurrence of [c :: p] in a string that begins with a part
    free of [c] and then [c :: p] is right after that part. *)
Lemma indexOfFrom_after (c : N) (p a r : jsstring) :
  ~ In c a ->
  forall i, Page.indexOfFrom (a ++ (c :: p) ++ r) (c :: p) i
            = (i + Z.of_nat (length a))%Z.
Proof.
  induction a as [|x a IH]; intros Ha i.
  - cbn [app length Z.of_nat].
    change ((c :: p) ++ r) with (c :: (p ++ r)).
    cbn [Page.indexOfFrom startsWith].
    rewrite N.eqb_refl, startsWith_app. cbn [andb]. lia.
  - change ((x :: a) ++ (c :: p) ++ r) with (x :: (a ++ (c :: p) ++ r)).
    cbn [Page.indexOfFrom startsWith].
    assert (E : N.eqb x c = false).
    { apply N.eqb_neq. intros ->. apply Ha. left; reflexivity. }
    rewrite E. cbn [andb]. rewrite IH by (intros H; apply Ha; right; exact H).
    cbn [length]. lia.
Qed.

Lemma includes_false_startsWith (s p : jsstring) :
  includes s p = false -> startsWith s p = false.
Proof.
  destruct s; cbn [includes]; intros H; apply orb_false_iff in H; apply H.
Qed.

(** A string that does not occur is reported at [-1]. *)
Lemma indexOfFrom_absent (s p : jsstring) :
  includes s p = false -> forall i, Page.indexOfFrom s p i = (-1)%Z.
Proof.
  induction s as [|x s IH]; intros H i; cbn [Page.indexOfFrom];
    rewrite (includes_false_startsWith _ _ H); [reflexivity|].
  apply IH. cbn [includes] in H. apply orb_false_iff in H. apply H.
Qed.

Lemma substring_prefix (s : jsstring) (n : nat) :
  Page.substring s 0 (Z.of_nat n) = firstn n s.
Proof.
  unfold Page.substring, Page.clamp. rewrite Nat2Z.id.
  change (Z.to_nat 0) with 0. cbn [Nat.min].
  rewrite Nat.max_0_l, Nat.sub_0_r. cbn [skipn].
  destruct (Nat.le_ge_cases n (length s)) as [H|H].
  - rewrite Nat.min_l by exact H. reflexivity.
  - rewrite Nat.min_r by exact H.
    rewrite !firstn_all2 by lia. reflexivity.
Qed.

(** [substring] with a negative end: the indices are swapped, which gives
    the part of the string before the start. *)
Lemma substring_swapped (s : jsstring) (n : nat) :
  Page.substring s (Z.of_nat n) (-1) = firstn n s.
Proof.
  unfold Page.substring, Page.clamp. rewrite Nat2Z.id.
  change (Z.to_nat (-1)) with 0. cbn [Nat.min].
  rewrite Nat.min_0_r, Nat.max_0_r, Nat.sub_0_r. cbn [skipn].
  destruct (Nat.le_ge_cases n (length s)) as [H|H].
  - rewrite Nat.min_l by exact H. reflexivity.
  - rewrite Nat.min_r by exact H.
    rewrite !firstn_all2 by lia. reflexivity.
Qed.

Lemma substring_middle (a b c : jsstring) :
  Page.substring (a ++ b ++ c) (Z.of_nat (length a))
    (Z.of_nat (length a + length b)) = b.
Proof.
  unfold Page.substring, Page.clamp. rewrite !Nat2Z.id, !length_app.
  rewrite (Nat.min_l (length a)) by lia.
  rewrite (Nat.min_l (length a + length b)) by lia.
  rewrite Nat.min_l, Nat.max_r by lia.
  replace (length a + length b - length a) with (length b) by lia.
  rewrite skipn_app, skipn_all, Nat.sub_diag. cbn [app skipn].
  rewrite firstn_app, firstn_all, Nat.sub_diag. cbn [firstn].
  apply app_nil_r.
Qed.

Lemma sanitize_safe (s : jsstring) :
  Forall (fun c => Page.safeChar c = true) (Page.sanitize s).
Proof.
  unfold Page.sanitize. apply Forall_forall. intros c Hin.
  apply in_map_iff in Hin as (x & <- & _).
  destruct (Page.safeChar x) eqn:E; [exact E | reflexivity].
Qed.

Lemma safePromptOf_nonempty (render : State) : Page.safePromptOf render <> [].
Proof.
  unfold Page.safePromptOf, Page.orElse.
  destruct (prompt render); cbn [truthy]; [|discriminate].
  destruct (editPrompt render); cbn [truthy]; [|discriminate].
  destruct (isUploadedImage render); discriminate.
Qed.

Lemma download_stem (render : State) :
  let stem := firstn 50 (Page.sanitize (Page.safePromptOf render)) in
  Page.orElse (Page.substring (Page.sanitize (Page.safePromptOf render)) 0 50)
    (js "visionary_image") = stem
  /\ stem <> []
  /\ length stem <= 50
  /\ Forall (fun c => Page.safeChar c = true) stem.
Proof.
  intros stem. subst stem.
  change 50%Z with (Z.of_nat 50). rewrite substring_prefix.
  pose proof (safePromptOf_nonempty render) as Hne.
  assert (Hs : firstn 50 (Page.sanitize (Page.safePromptOf render)) <> []).
  { unfold Page.sanitize. destruct (Page.safePromptOf render); [congruence|].
    discriminate. }
  split; [|split; [exact Hs | split]].
  - unfold Page.orElse.
    destruct (firstn 50 (Page.sanitize (Page.safePromptOf render)));
      [congruence | reflexivity].
  - apply firstn_le_length.
  - apply Forall_forall. intros c Hin. apply In_firstn in Hin.
    pose proof (sanitize_safe (Page.safePromptOf render)) as Hall.
    rewrite Forall_forall in Hall. apply Hall, Hin.
Qed.

(** X7. Whenever there is an image to download, the link points at it and
    the file name is a non-empty stem of at most fifty code units, all of
    them ASCII letters, digits, [_], [.] or [-], then a dot and a non-empty
    extension.  The stem is the beginning of the sanitized prompt text:
    the fallback of [filename || 'visionary_image'] is never taken,
    because the text the stem is cut from is never empty.  Without an
    image no link is made. *)
Theorem download_name_is_safe (render : State) :
  match Page.handleDownloadImage render with
  | Some link =>
      imageUrl render = Some (Page.href link)
      /\ Page.href link <> []
      /\ exists stem extension,
           Page.download link = stem ++ js "." ++ extension
           /\ stem = firstn 50 (Page.sanitize (Page.safePromptOf render))
           /\ stem <> []
           /\ length stem <= 50
           /\ Forall (fun c => Page.safeChar c = true) stem
           /\ extension <> []
  | None => imageUrl render = None \/ imageUrl render = Some []
  end.
Proof.
  unfold Page.handleDownloadImage.
  destruct (imageUrl render) as [[|c url]|]; [right; reflexivity | | left; reflexivity].
  cbn [Page.href Page.download].
  split; [reflexivity|]. split; [discriminate|].
  fold (Page.safePromptOf render).
  destruct (download_stem render) as (E & Hne & Hlen & Hsafe).
  rewrite E. eexists; eexists. split; [reflexivity|].
  split; [reflexivity|]. split; [exact Hne|]. split; [exact Hlen|].
  split; [exact Hsafe|].
  unfold Page.orElse.
  destruct (Page.substring (c :: url) _ _); cbn [truthy]; intros H;
    first [discriminate H | vm_compute in H; discriminate H].
Qed.

(** X8. For an image given as a data URL [<type>/<subtype>;base64...] the
    extension of the file name is the subtype, or [png] when the subtype
    is empty. *)
Theorem download_extension_is_subtype
    (render : State) (type subtype rest : jsstring) :
  imageUrl render = Some (type ++ js "/" ++ subtype ++ js ";base64" ++ rest) ->
  ~ In 0x2F%N type ->
  ~ In 0x3B%N (type ++ subtype) ->
  option_map Page.download (Page.handleDownloadImage render)
  = Some (firstn 50 (Page.sanitize (Page.safePromptOf render)) ++ js "."
          ++ Page.orElse subtype (js "png")).
Proof.
  intros Hurl Hslash Hsemi.
  unfold Page.handleDownloadImage. rewrite Hurl.
  set (url := type ++ js "/" ++ subtype ++ js ";base64" ++ rest).
  assert (Hne : exists c u, url = c :: u).
  { subst url. destruct type; [eexists; eexists; reflexivity|].
    eexists; eexists; reflexivity. }
  destruct Hne as (c & u & Ecu). rewrite Ecu. rewrite <- Ecu.
  cbn [option_map Page.download]. fold (Page.safePromptOf render).
  destruct (download_stem render) as (E & _). rewrite E.
  assert (E1 : Page.indexOf url (js "/") = Z.of_nat (length type)).
  { unfold Page.indexOf. subst url.
    change (js "/") with [0x2F%N].
    rewrite (indexOfFrom_after 0x2F%N [] type _ Hslash). lia. }
  assert (E2 : Page.indexOf url (js ";base64")
               = Z.of_nat (length (type ++ js "/") + length subtype)).
  { unfold Page.indexOf. subst url.
    replace (type ++ js "/" ++ subtype ++ js ";base64" ++ rest)
      with ((type ++ js "/" ++ subtype) ++ js ";base64" ++ rest)
      by (rewrite <- !app_assoc; reflexivity).
    change (js ";base64") with (0x3B%N :: js "base64").
    rewrite indexOfFrom_after.
    - rewrite !length_app. cbn [length js]. lia.
    - intros Hin. apply in_app_or in Hin as [Hin|Hin].
      + apply Hsemi, in_or_app. left; exact Hin.
      + apply in_app_or in Hin as [Hin|Hin].
        * cbn in Hin. destruct Hin as [Hin|[]]. discriminate.
        * apply Hsemi, in_or_app. right; exact Hin. }
  rewrite E1, E2.
  replace (Z.of_nat (length type) + 1)%Z
    with (Z.of_nat (length (type ++ js "/")))
    by (rewrite length_app; change (length (js "/")) with 1; lia).
  subst url.
  replace (type ++ js "/" ++ subtype ++ js ";base64" ++ rest)
    with ((type ++ js "/") ++ subtype ++ js ";base64" ++ rest)
    by (rewrite <- !app_assoc; reflexivity).
  rewrite substring_middle. reflexivity.
Qed.

(** X9. When [;base64] does not occur in the address of the image, its
    [indexOf] is [-1] and [substring] swaps its arguments: the extension
    is the beginning of the address up to and including its first [/],
    or [png] when there is no [/] either. *)
Theorem download_extension_without_marker (render : State) (url : jsstring) :
  imageUrl render = Some url ->
  url <> [] ->
  includes url (js ";base64") = false ->
  (forall before rest : jsstring,
      url = before ++ js "/" ++ rest -> ~ In 0x2F%N before ->
      option_map Page.download (Page.handleDownloadImage render)
      = Some (firstn 50 (Page.sanitize (Page.safePromptOf render)) ++ js "."
              ++ before ++ js "/"))
  /\ (includes url (js "/") = false ->
      option_map Page.download (Page.handleDownloadImage render)
      = Some (firstn 50 (Page.sanitize (Page.safePromptOf render)) ++ js "."
              ++ js "png")).
Proof.
  intros Hurl Hne Hmark.
  assert (Hd : option_map Page.download (Page.handleDownloadImage render)
               = Some (firstn 50 (Page.sanitize (Page.safePromptOf render))
                       ++ js "."
                       ++ Page.orElse
                            (Page.substring url
                               (Page.indexOf url (js "/") + 1)
                               (Page.indexOf url (js ";base64")))
                            (js "png"))).
  { unfold Page.handleDownloadImage. rewrite Hurl.
    destruct url as [|c u]; [congruence|].
    cbn [option_map Page.download]. fold (Page.safePromptOf render).
    destruct (download_stem render) as (E & _). rewrite E. reflexivity. }
  rewrite Hd. clear Hd.
  unfold Page.indexOf at 2 4.
  rewrite (indexOfFrom_absent _ _ Hmark).
  split.
  - intros before rest -> Hslash.
    unfold Page.indexOf. change (js "/") with [0x2F%N].
    rewrite (indexOfFrom_after 0x2F%N [] before rest Hslash).
    replace (0 + Z.of_nat (length before) + 1)%Z
      with (Z.of_nat (length (before ++ [0x2F%N])))
      by (rewrite length_app; cbn [length]; lia).
    rewrite substring_swapped.
    replace (before ++ [0x2F%N] ++ rest) with ((before ++ [0x2F%N]) ++ rest)
      by (rewrite <- app_assoc; reflexivity).
    rewrite firstn_app, firstn_all, Nat.sub_diag. cbn [firstn].
    rewrite app_nil_r. unfold Page.orElse.
    destruct before; cbn [app truthy]; rewrite <- ?app_assoc; reflexivity.
  - intros Hnone. unfold Page.indexOf.
    rewrite (indexOfFrom_absent _ _ Hnone).
    change (-1 + 1)%Z with (Z.of_nat 0). rewrite substring_swapped.
    reflexivity.
Qed.

End Download.

(** ** Reporting errors *)

Section ApiErrors.
Context {B : Browser}.

(** X10. A failure whose message contains [429] is reported as a rate
    limit whatever flow it came from, the prompt refinement included; any
    other failure of the prompt refinement is written to the console
    only, and leaves the state and the toasts as they are.  A rejection
    that is not an [Error] is never taken for a rate limit. *)
Theorem rate_limit_is_reported_for_every_flow
    (e : Thrown) (context : ApiContext) (w : World) :
  let w' := run (handleApiError e context Done) w in
  (includes (Page.errorMessageOf e) (js "429") = true ->
   error (st w') = Some rateLimitMessage
   /\ toasts w'
      = toasts w ++ [mkToast true (js "Rate Limit Exceeded") rateLimitMessage])
  /\ (includes (Page.errorMessageOf e) (js "429") = false ->
      context = CtxRefine ->
      st w' = st w /\ toasts w' = toasts w
      /\ console w'
         = console w
           ++ [LogThrown e; LogMessage (js "Failed to refine prompt:") e])
  /\ (instanceofError e = false ->
      includes (Page.errorMessageOf e) (js "429") = false).
Proof.
  intros w'. subst w'. unfold handleApiError. fold (Page.errorMessageOf e).
  split; [|split].
  - intros H. rewrite H. cbn [run withState st toasts error setError].
    split; reflexivity.
  - intros H ->. rewrite H. cbn [run st toasts console].
    split; [reflexivity|]. split; [reflexivity|].
    rewrite <- app_assoc. reflexivity.
  - intros H. unfold Page.errorMessageOf. rewrite H. reflexivity.
Qed.

End ApiErrors.

(** ** Which thumbnails the history keeps *)

Section HistoryOrder.
Context {B : Browser}.

Lemma filter_absent (t : jsstring) (h : list json) :
  ~ In (JString t) h ->
  filter (fun url => negb (strictEqString url t)) h = h.
Proof.
  induction h as [|v h IH]; intros Hn; [reflexivity|].
  cbn [filter].
  destruct (strictEqString v t) eqn:E.
  - apply strictEqString_iff in E. subst v. exfalso. apply Hn. left; reflexivity.
  - cbn [negb]. rewrite IH; [reflexivity|].
    intros Hin. apply Hn. right; exact Hin.
Qed.

Lemma filter_present_length (t : jsstring) (h : list json) :
  NoDup h -> In (JString t) h ->
  S (length (filter (fun url => negb (strictEqString url t)) h)) = length h.
Proof.
  induction 1 as [|v h Hv Hnd IH]; intros Hin; [destruct Hin|].
  cbn [filter length].
  destruct (strictEqString v t) eqn:E; cbn [negb].
  - apply strictEqString_iff in E. subst v.
    rewrite (filter_absent t h Hv). reflexivity.
  - destruct Hin as [->|Hin].
    + assert (E' : strictEqString (JString t) t = true)
        by (apply strictEqString_iff; reflexivity).
      congruence.
    + cbn [length]. rewrite (IH Hin). reflexivity.
Qed.

(** X11. Recording a thumbnail the history already holds evicts nothing:
    the entry moves to the front and the others keep their order. *)
Theorem record_known_thumbnail_moves_it_to_front
    (t : jsstring) (h : list json) :
  NoDup h ->
  length h <= MAX_HISTORY_LENGTH ->
  In (JString t) h ->
  recordThumbnail t h
  = JString t :: filter (fun url => negb (strictEqString url t)) h
  /\ length (recordThumbnail t h) = length h
  /\ (forall v, In v (recordThumbnail t h) <-> In v h).
Proof.
  intros Hnd Hlen Hin.
  pose proof (filter_present_length t h Hnd Hin) as Hf.
  assert (E : recordThumbnail t h
              = JString t :: filter (fun url => negb (strictEqString url t)) h).
  { rewrite recordThumbnail_cons. f_equal. apply firstn_all2.
    unfold MAX_HISTORY_LENGTH in Hlen. lia. }
  split; [exact E|]. rewrite E. split; [cbn [length]; exact Hf|].
  intros v. split.
  - intros [<-|Hv]; [exact Hin|]. apply filter_In in Hv. apply Hv.
  - intros Hv. destruct (strictEqString v t) eqn:Ev.
    + left. symmetry. apply strictEqString_iff, Ev.
    + right. apply filter_In. split; [exact Hv|]. rewrite Ev. reflexivity.
Qed.

(** X12. Recording a thumbnail the history does not hold puts it in front
    of the four most recent entries: a fifth, the oldest, is dropped. *)
Theorem record_new_thumbnail_evicts_oldest (t : jsstring) (h : list json) :
  ~ In (JString t) h ->
  recordThumbnail t h = JString t :: firstn 4 h
  /\ (length h = MAX_HISTORY_LENGTH ->
      NoDup h ->
      recordThumbnail t h = JString t :: removelast h
      /\ ~ In (last h JNull) (recordThumbnail t h)).
Proof.
  intros Hn. rewrite recordThumbnail_cons, (filter_absent t h Hn).
  split; [reflexivity|]. intros Hlen Hnd.
  destruct h as [|a [|b [|c [|d [|e [|f h]]]]]]; try discriminate Hlen.
  cbn [firstn removelast last]. split; [reflexivity|].
  intros [E|Hin].
  - apply Hn. rewrite E. right; right; right; right; left; reflexivity.
  - inversion Hnd as [|? ? Ha Hnd1]; subst.
    inversion Hnd1 as [|? ? Hb Hnd2]; subst.
    inversion Hnd2 as [|? ? Hc Hnd3]; subst.
    inversion Hnd3 as [|? ? Hd _]; subst.
    cbn [In] in *. intuition congruence.
Qed.

End HistoryOrder.

(** ** The canvas of a thumbnail, further *)

Section ThumbnailCanvas.
Import JsNumber.

(** X13. The canvas is never larger than the image, on either side. *)
Theorem thumbnail_never_enlarges (w h : Z) :
  (0 <= w < 2 ^ 32)%Z ->
  (0 <= h < 2 ^ 32)%Z ->
  let '(cw, ch) := Thumbnail.canvasSize (ofZ w) (ofZ h) Thumbnail.defaultMaxSize in
  (0 <= cw <= w /\ 0 <= ch <= h)%Z.
Proof.
  intros Hw Hh.
  unfold Thumbnail.canvasSize, Thumbnail.scaledSize, Thumbnail.defaultMaxSize.
  rewrite !gt_ofZ.
  destruct (h <? w)%Z eqn:Ewh; [apply Z.ltb_lt in Ewh | apply Z.ltb_ge in Ewh].
  - destruct (400 <? w)%Z eqn:Ew;
      [apply Z.ltb_lt in Ew | apply Z.ltb_ge in Ew].
    + pose proof (scaled_side w h ltac:(lia) ltac:(lia)) as Hs.
      cbv zeta in Hs.
      set (c := toUnsignedLong (mul (ofZ h) (div (ofZ 400) (ofZ w)))) in *.
      rewrite (toUnsignedLong_ofZ 400) by lia.
      split; [lia|]. split; [lia|]. nia.
    + rewrite !toUnsignedLong_ofZ by lia. lia.
  - destruct (400 <? h)%Z eqn:Eh;
      [apply Z.ltb_lt in Eh | apply Z.ltb_ge in Eh].
    + pose proof (scaled_side h w ltac:(lia) ltac:(lia)) as Hs.
      cbv zeta in Hs.
      set (c := toUnsignedLong (mul (ofZ w) (div (ofZ 400) (ofZ h)))) in *.
      rewrite (toUnsignedLong_ofZ 400) by lia.
      split; [|lia]. split; [lia|]. nia.
    + rewrite !toUnsignedLong_ofZ by lia. lia.
Qed.

(** X14. An image more than four hundred times as long as it is wide (or as
    wide as it is high) gets a canvas with a side of zero: the scaled
    side is below one and the canvas truncates it. *)
Theorem thumbnail_of_sliver_has_no_area (w h : Z) :
  (0 <= w < 2 ^ 32)%Z ->
  (0 <= h < 2 ^ 32)%Z ->
  ((0 < h)%Z -> (400 * h < w)%Z ->
   Thumbnail.canvasSize (ofZ w) (ofZ h) Thumbnail.defaultMaxSize = (400, 0)%Z)
  /\ ((0 < w)%Z -> (400 * w < h)%Z ->
      Thumbnail.canvasSize (ofZ w) (ofZ h) Thumbnail.defaultMaxSize
      = (0, 400)%Z).
Proof.
  intros Hw Hh.
  unfold Thumbnail.canvasSize, Thumbnail.scaledSize, Thumbnail.defaultMaxSize.
  rewrite !gt_ofZ. split; intros Hpos Hthin.
  - assert (E1 : (h <? w)%Z = true) by (apply Z.ltb_lt; lia).
    assert (E2 : (400 <? w)%Z = true) by (apply Z.ltb_lt; lia).
    rewrite E1, E2.
    pose proof (scaled_side w h ltac:(lia) ltac:(lia)) as Hs.
    cbv zeta in Hs.
    set (c := toUnsignedLong (mul (ofZ h) (div (ofZ 400) (ofZ w)))) in *.
    rewrite (toUnsignedLong_ofZ 400) by lia.
    f_equal. nia.
  - assert (E1 : (h <? w)%Z = false) by (apply Z.ltb_ge; lia).
    assert (E2 : (400 <? h)%Z = true) by (apply Z.ltb_lt; lia).
    rewrite E1, E2.
    pose proof (scaled_side h w ltac:(lia) ltac:(lia)) as Hs.
    cbv zeta in Hs.
    set (c := toUnsignedLong (mul (ofZ w) (div (ofZ 400) (ofZ h)))) in *.
    rewrite (toUnsignedLong_ofZ 400) by lia.
    f_equal. nia.
Qed.

End ThumbnailCanvas.

(** ** Failures on the way *)

Section Failures.
Context {B : Browser}.

(** The promise suspended last settles: its process is resumed in the
    world without it. *)
Lemma settle_newest (w : World) (l : list (nat * Proc)) (id : nat)
    (q k : Proc) (r : Reply) :
  pending w = l ++ [(id, q)] ->
  Forall (fun ip => fst ip < id) l ->
  resume q r = Some k ->
  step w (Settle id r)
  = commit (run k (mkWorld (st w) (localStorage w) (toasts w) (console w)
                     (calls w) l (nextId w) (historySet w))).
Proof.
  intros Hp Hl Hr.
  erewrite step_settle;
    [| rewrite Hp; apply lookupPending_fresh,
         (lookupPending_bound id l Hl); lia
     | exact Hr].
  unfold dropPending. rewrite Hp, (removePending_last id q l Hl).
  reflexivity.
Qed.

(** Reporting an error sets at most [error]. *)
Lemma handleApiError_sets_error (e : Thrown) (context : ApiContext)
    (k : Proc) (w : World) :
  exists w2,
    run (handleApiError e context k) w = run k w2
    /\ pending w2 = pending w /\ nextId w2 = nextId w
    /\ calls w2 = calls w /\ historySet w2 = historySet w
    /\ (st w2 = st w \/ exists m, st w2 = setError (Some m) (st w))
    /\ (context <> CtxRefine -> exists m, st w2 = setError (Some m) (st w)).
Proof.
  unfold handleApiError. cbn [run].
  destruct (includes _ (js "429")); [|destruct context];
    cbn [run]; eexists; (split; [reflexivity|]);
    cbn [pending nextId calls historySet st withState];
    repeat (split; [reflexivity|]);
    (split; [first [left; reflexivity | right; eexists; reflexivity]
            | intros Hc; first [eexists; reflexivity | congruence]]).
Qed.

(** X15. A generation whose flow call fails leaves the page without an
    image: the image shown before, the undo stack and both sets of
    suggestions were cleared when the call started and nothing brings
    them back.  The error is set, the loaders are off, the history is
    untouched and no refinement is asked for. *)
Theorem failed_generation_leaves_no_image (w : World) (p : jsstring)
    (e : Thrown) :
  reachable w ->
  blank p = false ->
  let w' :=
    steps w [GenerateImage p; Settle (nextId w) (ReplyImage (Rejected e))] in
  imageUrl (st w') = None
  /\ undoStack (st w') = []
  /\ suggestedEdits (st w') = None
  /\ refinedPrompts (st w') = None
  /\ (exists m, error (st w') = Some m)
  /\ isLoading (st w') = false
  /\ isRefining (st w') = false
  /\ activeLoader (st w') = None
  /\ imageHistory (st w') = imageHistory (st w)
  /\ calls w' = calls w ++ [CallGenerateImage p]
  /\ pending w' = pending w.
Proof.
  intros Hr Hb w'. subst w'.
  pose proof (reachable_fresh w Hr) as Hf.
  unfold steps; cbn [fold_left].
  remember (step w (GenerateImage p)) as w1 eqn:E1.
  assert (H1 : exists k,
             pending w1 = pending w ++ [(nextId w, AwaitGenerateImage p k)]
             /\ k (Rejected e) = handleApiError e CtxGenerate generateFinally
             /\ calls w1 = calls w ++ [CallGenerateImage p]
             /\ imageUrl (st w1) = None
             /\ undoStack (st w1) = []
             /\ suggestedEdits (st w1) = None
             /\ refinedPrompts (st w1) = None
             /\ imageHistory (st w1) = imageHistory (st w)).
  { rewrite E1. cbn [step].
    destruct (commit_frame (run (handleGenerateImage p) w))
      as (-> & -> & -> & _).
    unfold handleGenerateImage. rewrite (not_blank_trim _ Hb).
    cbn [negb run suspend withState pending calls st nextId].
    eexists. split; [reflexivity|]. split; [reflexivity|].
    repeat split. }
  destruct H1 as (k & Hp & Hk & Hc & Hi & Hu & Hs & Hrp & Hh).
  rewrite (settle_newest w1 (pending w) (nextId w) _ (k (Rejected e))
             (ReplyImage (Rejected e)) Hp Hf eq_refl).
  match goal with |- context [commit ?x] =>
    destruct (commit_frame x) as (-> & -> & -> & _) end.
  rewrite Hk.
  match goal with |- context [run (handleApiError ?e ?c ?k) ?x] =>
    destruct (handleApiError_sets_error e c k x)
      as (w2 & -> & Hp2 & _ & Hc2 & _ & _ & Hm) end.
  destruct Hm as (m & Hm); [discriminate|].
  cbn [st pending calls] in Hm, Hp2, Hc2.
  unfold generateFinally.
  cbn [run withState st pending calls]. rewrite Hm, Hp2, Hc2, Hc.
  cbn [setActiveLoader setIsRefining setIsLoading setError imageUrl undoStack
       suggestedEdits refinedPrompts error isLoading isRefining activeLoader
       imageHistory].
  rewrite Hi, Hu, Hs, Hrp, Hh.
  repeat match goal with |- _ /\ _ => split end; try reflexivity.
  exists m. reflexivity.
Qed.

End Failures.

(** Bring the world of the goal to the form of a record. *)
Ltac world :=
  cbn [suspend withState st localStorage toasts console calls pending nextId
       historySet].
Ltac world_in H :=
  cbn [suspend withState st localStorage toasts console calls pending nextId
       historySet] in H.

(** Compute the fields of a state given by setters. *)
Ltac state :=
  cbn [setPrompt setEditPrompt setImageUrl setUndoStack setIsUploadedImage
       setIsLoading setIsRefining setError setImageHistory setActiveLoader
       setRefinedPrompts setSuggestedEdits setIsHistorySheetOpen pushUndo
       prompt editPrompt imageUrl undoStack isUploadedImage isLoading
       isRefining error imageHistory activeLoader refinedPrompts
       suggestedEdits isHistorySheetOpen].

(** Resume the process suspended last, under the identifier [id]. *)
Ltac settle id l Hl :=
  match goal with |- context [step ?W (Settle id ?r)] =>
    rewrite (settle_newest W l id _ _ r eq_refl Hl eq_refl)
  end.
Ltac settle_by id l Hl Hres :=
  match goal with |- context [step ?W (Settle id ?r)] =>
    rewrite (settle_newest W l id _ _ r eq_refl Hl Hres)
  end.

Lemma fresh_below (w : World) (n : nat) :
  fresh w -> nextId w <= n -> Forall (fun ip => fst ip < n) (pending w).
Proof.
  intros H Hn. eapply Forall_impl; [|exact H]. cbn. intros; lia.
Qed.

Section ThumbnailFailure.
Context {B : Browser}.

(** X16. When the thumbnail of a generated image cannot be made (the image
    does not load, or the canvas gives no 2d context), the generation
    goes on: the image stays on the page, the history and the stored item
    are left as they were, one destructive toast tells of it, and the
    refinement of the prompt is requested all the same. *)
Theorem thumbnail_failure_does_not_stop_generation
    (w : World) (p url : jsstring) (l : option LoadedImage) :
  reachable w ->
  blank p = false ->
  match l with Some img => context2d img = false | None => True end ->
  let w3 :=
    steps w [GenerateImage p;
             Settle (nextId w) (ReplyImage (Fulfilled url));
             Settle (S (nextId w)) (ReplyImageLoad l)] in
  imageUrl (st w3) = Some url
  /\ imageHistory (st w3) = imageHistory (st w)
  /\ localStorage w3 = localStorage w
  /\ toasts w3 = toasts w ++ [Page.historyUpdateFailed]
  /\ calls w3 = calls w ++ [CallGenerateImage p; CallRefinePromptV2 p]
  /\ pending w3 = pending w ++ [(S (S (nextId w)), awaitRefinedPrompts p)].
Proof.
  intros Hr Hb Hl w3. subst w3.
  pose proof (reachable_fresh w Hr) as Hf.
  pose proof (reachable_idle w Hr) as Hhs.
  unfold steps; cbn [fold_left].
  (* the click *)
  change (step w (GenerateImage p))
    with (commit (run (handleGenerateImage p) w)).
  unfold handleGenerateImage. rewrite (not_blank_trim _ Hb).
  cbn [negb run]. rewrite commit_idle by exact Hhs. world.
  (* the image arrives *)
  settle (nextId w) (pending w) Hf. world.
  world. unfold updateImageHistory, createThumbnailDataUri. cbn [run].
  rewrite commit_idle by exact Hhs. world.
  (* the thumbnail does not *)
  destruct l as [img|];
    settle (S (nextId w)) (pending w) (fresh_weaken w Hf);
    world; cbv beta iota; rewrite ?Hl; cbn [negb];
    unfold afterGenerated, awaitRefinedPrompts; cbn [run];
    (rewrite commit_idle by exact Hhs); world;
    cbn [imageUrl imageHistory setIsRefining setEditPrompt setImageUrl
         setIsLoading setActiveLoader setError setIsUploadedImage
         setUndoStack setSuggestedEdits setRefinedPrompts];
    rewrite <- !app_assoc; repeat split.
Qed.

End ThumbnailFailure.

Section SuggestionRefresh.
Context {B : Browser}.

(** X17. Refreshing the suggestions of the current image: when the flow
    answers, its suggestions are installed and the error is cleared; when
    it fails, the suggestions shown before are gone and the error is set.
    Either way the loaders are off again, and the image and the undo
    stack are as before. *)
Theorem suggestion_refresh_outcome (w : World) (a : jsstring)
    (r : Result SuggestEditsOutput) :
  reachable w ->
  imageUrl (st w) = Some a ->
  a <> [] ->
  let w' := steps w [SuggestEdits; Settle (nextId w) (ReplySuggest r)] in
  match r with
  | Fulfilled results =>
      suggestedEdits (st w') = Some results /\ error (st w') = None
  | Rejected _ =>
      suggestedEdits (st w') = None /\ exists m, error (st w') = Some m
  end
  /\ isLoading (st w') = false
  /\ activeLoader (st w') = None
  /\ imageUrl (st w') = Some a
  /\ undoStack (st w') = undoStack (st w)
  /\ calls w' = calls w ++ [CallSuggestEdits a]
  /\ pending w' = pending w.
Proof.
  intros Hr Hi Ha w'. subst w'.
  pose proof (reachable_fresh w Hr) as Hf.
  pose proof (reachable_idle w Hr) as Hhs.
  destruct a as [|c a]; [congruence|].
  unfold steps; cbn [fold_left].
  change (step w SuggestEdits)
    with (commit (run (onSuggestEditsClick (st w)) w)).
  unfold onSuggestEditsClick. rewrite Hi. unfold handleSuggestEdits.
  cbn [run]. rewrite commit_idle by exact Hhs. world.
  settle (nextId w) (pending w) Hf. world.
  destruct r as [results|e].
  - cbn [run]. rewrite commit_idle by exact Hhs. world. state.
    rewrite Hi. repeat split.
  - match goal with |- context [run (handleApiError ?e ?c ?k) ?x] =>
      destruct (handleApiError_sets_error e c k x)
        as (w2 & -> & Hp2 & _ & Hc2 & _ & _ & Hm) end.
    destruct Hm as (m & Hm); [discriminate|].
    cbn [suspend withState st calls pending] in Hp2, Hc2, Hm.
    match goal with |- context [commit ?x] =>
      destruct (commit_frame x) as (-> & -> & -> & _) end.
    cbn [run withState st calls pending]. rewrite Hm, Hp2, Hc2.
    cbn [setActiveLoader setIsLoading setError setSuggestedEdits
         suggestedEdits error isLoading activeLoader imageUrl undoStack].
    rewrite Hi.
    repeat match goal with |- _ /\ _ => split end; try reflexivity.
    exists m. reflexivity.
Qed.

End SuggestionRefresh.

Section EditThenUndo.
Context {B : Browser}.

Lemma setImageHistory_same (s : State) : setImageHistory (imageHistory s) s = s.
Proof. destruct s; reflexivity. Qed.

(** Whatever becomes of the thumbnail, [updateImageHistory] goes on with
    what follows it, having changed at most the history. *)
Lemma updateImageHistory_settles (src : jsstring) (k : Proc)
    (l : option LoadedImage) :
  exists pre : Proc,
    resume (updateImageHistory src k) (ReplyImageLoad l) = Some pre
    /\ forall w,
        exists w',
          run pre w = run k w'
          /\ pending w' = pending w /\ nextId w' = nextId w
          /\ calls w' = calls w
          /\ exists h,
               st w' = setImageHistory h (st w)
               /\ (forall img,
                     l = Some img -> context2d img = true ->
                     h = recordThumbnail (thumbnailOf src img)
                           (imageHistory (st w))).
Proof.
  unfold updateImageHistory, createThumbnailDataUri. cbn [resume].
  destruct l as [img|]; [destruct (context2d img) eqn:Hc; cbn [negb]|].
  - pose proof (eq_refl (thumbnailOf src img)) as Ht.
    unfold thumbnailOf at 1 in Ht.
    destruct (Thumbnail.scaledSize _ _ _) as [width height].
    cbn [fst snd] in Ht.
    eexists; split; [reflexivity|]. intros w. cbn [run].
    eexists; split; [reflexivity|]. cbn [pending nextId calls st].
    repeat split. eexists; split; [reflexivity|].
    intros img' E _. inversion E; subst img'. rewrite Ht. reflexivity.
  - eexists; split; [reflexivity|]. intros w. cbn [run].
    eexists; split; [reflexivity|]. cbn [pending nextId calls st].
    repeat split. exists (imageHistory (st w)).
    split; [symmetry; apply setImageHistory_same|].
    intros img' E Hc'. inversion E; subst img'. congruence.
  - eexists; split; [reflexivity|]. intros w. cbn [run].
    eexists; split; [reflexivity|]. cbn [pending nextId calls st].
    repeat split. exists (imageHistory (st w)).
    split; [symmetry; apply setImageHistory_same|].
    intros img' E. discriminate.
Qed.

(** X18. An edit that succeeds shows the edited image, with the image it
    started from on top of the undo stack, and asks for suggestions on
    the edited image; whatever becomes of the thumbnail and of the
    suggestions, Undo then shows the image the edit started from again,
    and leaves the first four entries of the stack the edit found. *)
Theorem undo_reverts_successful_edit (w : World)
    (editActionPrompt : option jsstring) (a b : jsstring)
    (l : option LoadedImage) (r : Result SuggestEditsOutput) :
  reachable w ->
  imageUrl (st w) = Some a ->
  a <> [] ->
  blank (finalEditPromptOf editActionPrompt (editPrompt (st w))) = false ->
  let n := nextId w in
  let w4 :=
    steps w [EditImage editActionPrompt;
             Settle n (ReplyImage (Fulfilled b));
             Settle (S n) (ReplyImageLoad l);
             Settle (S (S n)) (ReplySuggest r)] in
  (imageUrl (st w4) = Some b
   /\ undoStack (st w4) = a :: firstn 4 (undoStack (st w))
   /\ isLoading (st w4) = false
   /\ activeLoader (st w4) = None
   /\ calls w4
      = calls w
        ++ [CallEditImage a
              (finalEditPromptOf editActionPrompt (editPrompt (st w)));
            CallSuggestEdits b]
   /\ pending w4 = pending w)
  /\ imageUrl (st (step w4 Undo)) = Some a
  /\ undoStack (st (step w4 Undo)) = firstn 4 (undoStack (st w))
  /\ suggestedEdits (st (step w4 Undo)) = suggestedEdits (st w4).
Proof.
  intros Hr Hi Ha Hb n w4.
  pose proof (reachable_fresh w Hr) as Hf.
  pose proof (reachable_idle w Hr) as Hhs.
  destruct a as [|c a]; [congruence|].
  assert (H4 : imageUrl (st w4) = Some b
               /\ undoStack (st w4) = (c :: a) :: firstn 4 (undoStack (st w))
               /\ isLoading (st w4) = false
               /\ activeLoader (st w4) = None
               /\ calls w4
                  = calls w
                    ++ [CallEditImage (c :: a)
                          (finalEditPromptOf editActionPrompt
                             (editPrompt (st w)));
                        CallSuggestEdits b]
               /\ pending w4 = pending w).
  { subst w4 n. unfold steps; cbn [fold_left].
    (* the click *)
    change (step w (EditImage editActionPrompt))
      with (commit (run (handleEditImage (st w) editActionPrompt) w)).
    unfold handleEditImage. rewrite (not_blank_trim _ Hb), Hi.
    cbn [negb run]. rewrite commit_idle by exact Hhs. world.
    (* the edited image arrives *)
    settle (nextId w) (pending w) Hf. world.
    cbn [run].
    match goal with |- context [run (updateImageHistory ?s ?k) ?x] =>
      change (run (updateImageHistory s k) x)
        with (suspend (updateImageHistory s k) None x);
      destruct (updateImageHistory_settles s k l) as (pre & Hres & Hrun)
    end.
    rewrite commit_idle by exact Hhs. world.
    (* the thumbnail settles *)
    settle_by (S (nextId w)) (pending w) (fresh_weaken w Hf) Hres. world.
    match goal with |- context [run pre ?x] =>
      destruct (Hrun x) as (w3 & -> & Hp3 & Hn3 & Hc3 & h & Hs3 & _) end.
    world_in Hp3. world_in Hn3. world_in Hc3.
    unfold handleSuggestEdits. cbn [run]. world.
    match goal with |- context [step (commit ?x) _] =>
      pose proof (commit_frame x) as (Hs3' & Hc3' & Hp3' & _);
      revert Hs3' Hc3' Hp3'; generalize (commit x);
      intros w3' Hs3' Hc3' Hp3' end.
    world_in Hc3'. world_in Hp3'. rewrite Hp3, Hn3 in Hp3'.
    assert (F1 : imageUrl (st w3') = Some b)
      by (rewrite Hs3'; world; state; rewrite Hs3; reflexivity).
    assert (F2 : undoStack (st w3')
                 = (c :: a) :: firstn 4 (undoStack (st w)))
      by (rewrite Hs3'; world; state; rewrite Hs3; reflexivity).
    assert (F3 : calls w3'
                 = calls w
                   ++ [CallEditImage (c :: a)
                         (finalEditPromptOf editActionPrompt
                            (editPrompt (st w)));
                       CallSuggestEdits b])
      by (rewrite Hc3', Hc3, <- app_assoc; reflexivity).
    clear Hs3' Hs3 Hc3' Hc3.
    (* the suggestions settle *)
    assert (Hf2 : Forall (fun ip => fst ip < S (S (nextId w))) (pending w))
      by (apply fresh_below; [exact Hf | lia]).
    rewrite (settle_newest w3' (pending w) (S (S (nextId w))) _ _
               (ReplySuggest r) Hp3' Hf2 eq_refl).
    match goal with |- context [commit ?y] =>
      destruct (commit_frame y) as (-> & -> & -> & _) end.
    destruct r as [results|e].
    - cbn [run]. world. state. rewrite F1, F2, F3. repeat split.
    - match goal with |- context [run (handleApiError ?e ?c ?k) ?x] =>
        destruct (handleApiError_sets_error e c k x)
          as (w5 & -> & Hp5 & _ & Hc5 & _ & _ & Hm) end.
      destruct Hm as (m & Hm); [discriminate|].
      world_in Hp5. world_in Hc5.
      cbn [run]. world. rewrite Hm, Hp5, Hc5. world. state.
      rewrite F1, F2, F3. repeat split. }
  revert H4. generalize w4. clear w4.
  intros w4 (Hi4 & Hu4 & Hl4 & Ha4 & Hc4 & Hp4).
  split; [repeat split; assumption|].
  change (step w4 Undo) with (commit (run (handleUndo (st w4)) w4)).
  rewrite commit_st. unfold handleUndo. rewrite Hu4.
  cbn [run withState st]. repeat split.
Qed.

End EditThenUndo.

(** ** Uploading an image *)

Section Upload.
Context {B : Browser}.

(** X19. A file whose type does not begin with [image/] is not handed to
    the reader: it is refused with an error and a destructive toast, and
    nothing else on the page changes.  A file that is handed to the
    reader, or no file at all, changes nothing until it is read. *)
Theorem upload_accepts_images_only (w : World) (file : option Page.File) :
  Page.reachable w ->
  let w' := Page.step w (Page.FileSelected file) in
  (file = None \/ Page.readsFile file = true -> w' = w)
  /\ (file <> None -> Page.readsFile file = false ->
      st w' = setError (Some Page.invalidFileType) (st w)
      /\ toasts w'
         = toasts w
           ++ [mkToast true (js "Upload Failed")
                 (js "Please select a valid image file (e.g., PNG, JPG).")]
      /\ localStorage w' = localStorage w
      /\ calls w' = calls w
      /\ pending w' = pending w).
Proof.
  intros Hr w'. subst w'.
  pose proof (page_reachable_idle w Hr) as Hhs.
  cbn [Page.step]. unfold Page.handleFileSelected, Page.readsFile.
  split.
  - intros [->|H].
    + cbn [run]. apply commit_idle, Hhs.
    + destruct file as [f|]; [|discriminate]. rewrite H. cbn [negb run].
      apply commit_idle, Hhs.
  - intros Hf H. destruct file as [f|]; [|congruence]. rewrite H.
    cbn [negb run]. rewrite commit_idle by exact Hhs. world.
    cbn [withState st toasts localStorage calls pending]. repeat split.
Qed.

(** X20. Once the file is read, the page shows the file itself, at full
    size, with an empty undo stack and empty prompts, and it is the file
    itself that is sent for suggestions, whatever becomes of the
    thumbnail; the history gets the thumbnail, not the file. *)
Theorem upload_shows_and_analyses_the_original
    (w : World) (dataUri : jsstring) (l : option LoadedImage) :
  Page.reachable w ->
  let w2 :=
    Page.steps w
      [Page.FileLoaded dataUri;
       Page.Core (Settle (nextId w) (ReplyImageLoad l))] in
  imageUrl (st w2) = Some dataUri
  /\ undoStack (st w2) = []
  /\ isUploadedImage (st w2) = true
  /\ prompt (st w2) = []
  /\ editPrompt (st w2) = []
  /\ refinedPrompts (st w2) = None
  /\ calls w2 = calls w ++ [CallSuggestEdits dataUri]
  /\ (forall img,
        l = Some img -> context2d img = true ->
        imageHistory (st w2)
        = recordThumbnail (thumbnailOf dataUri img) (imageHistory (st w))).
Proof.
  intros Hr w2. subst w2.
  pose proof (page_reachable_fresh w Hr) as Hf.
  pose proof (page_reachable_idle w Hr) as Hhs.
  unfold Page.steps; cbn [fold_left].
  change (Page.step w (Page.FileLoaded dataUri))
    with (commit (run (Page.onFileLoaded dataUri) w)).
  unfold Page.onFileLoaded. cbn [run].
  match goal with |- context [run (updateImageHistory ?s ?k) ?x] =>
    change (run (updateImageHistory s k) x)
      with (suspend (updateImageHistory s k) None x);
    destruct (updateImageHistory_settles s k l) as (pre & Hres & Hrun)
  end.
  rewrite commit_idle by exact Hhs. world.
  match goal with |- context [Page.step ?x (Page.Core ?e)] =>
    change (Page.step x (Page.Core e)) with (step x e) end.
  settle_by (nextId w) (pending w) Hf Hres. world.
  match goal with |- context [run pre ?x] =>
    destruct (Hrun x) as (w3 & -> & Hp3 & Hn3 & Hc3 & h & Hs3 & Hh) end.
  cbn [suspend withState st calls pending nextId] in Hp3, Hn3, Hc3, Hs3, Hh.
  unfold handleSuggestEdits. cbn [run].
  match goal with |- context [commit ?x] =>
    destruct (commit_frame x) as (-> & -> & _ & _) end.
  cbn [suspend withState st calls]. rewrite Hs3, Hc3.
  cbn [setSuggestedEdits setError setActiveLoader setIsLoading
       setIsUploadedImage setRefinedPrompts setPrompt setEditPrompt
       setImageHistory setUndoStack setImageUrl
       imageUrl undoStack isUploadedImage prompt editPrompt refinedPrompts
       imageHistory].
  repeat match goal with |- _ /\ _ => split end; try reflexivity.
  intros img E Hc. rewrite (Hh img E Hc). reflexivity.
Qed.

End Upload.

(** ** A full storage *)

Section StorageFull.
Context {B : Browser}.

(** X21. When the storage refuses the new history, the thumbnail of the
    generated image is in the history of the page all the same, the
    stored item is left as it was (so a reload would not show the
    thumbnail), one destructive toast tells of it, and the generation
    goes on to the refinement of the prompt. *)
Theorem full_storage_keeps_thumbnail_in_memory_only
    (w : World) (p url : jsstring) (img : LoadedImage) (e : Thrown) :
  reachable w ->
  blank p = false ->
  context2d img = true ->
  let h := recordThumbnail (thumbnailOf url img) (imageHistory (st w)) in
  setItem_throws (JSON_stringify h) = Some e ->
  let w3 :=
    steps w [GenerateImage p;
             Settle (nextId w) (ReplyImage (Fulfilled url));
             Settle (S (nextId w)) (ReplyImageLoad (Some img))] in
  imageHistory (st w3) = h
  /\ imageUrl (st w3) = Some url
  /\ localStorage w3 = localStorage w
  /\ (exists description,
        toasts w3
        = toasts w ++ [mkToast true (js "History Save Failed") description])
  /\ calls w3 = calls w ++ [CallGenerateImage p; CallRefinePromptV2 p]
  /\ pending w3 = pending w ++ [(S (S (nextId w)), awaitRefinedPrompts p)].
Proof.
  intros Hr Hb Hc h Hfull w3. subst w3.
  pose proof (reachable_fresh w Hr) as Hf.
  pose proof (reachable_idle w Hr) as Hhs.
  unfold steps; cbn [fold_left].
  change (step w (GenerateImage p))
    with (commit (run (handleGenerateImage p) w)).
  unfold handleGenerateImage. rewrite (not_blank_trim _ Hb).
  cbn [negb run]. rewrite commit_idle by exact Hhs. world.
  settle (nextId w) (pending w) Hf. world.
  cbn [run].
  match goal with |- context [run (updateImageHistory ?s ?k) ?x] =>
    change (run (updateImageHistory s k) x)
      with (suspend (updateImageHistory s k) None x) end.
  rewrite commit_idle by exact Hhs. world.
  settle_by (S (nextId w)) (pending w) (fresh_weaken w Hf)
    (updateImageHistory_loaded url img (afterGenerated p) Hc). world.
  unfold afterGenerated, awaitRefinedPrompts. cbn [run].
  unfold commit.
  cbn [suspend withState historySet st imageHistory setImageHistory
       setIsRefining setEditPrompt setImageUrl setIsLoading setActiveLoader
       setError setIsUploadedImage setUndoStack setSuggestedEdits
       setRefinedPrompts].
  fold h. unfold persistHistoryEffect. rewrite Hfull.
  world. state. rewrite <- ?app_assoc.
  repeat match goal with |- _ /\ _ => split end; try reflexivity.
  eexists. reflexivity.
Qed.

End StorageFull.

(** ** The refinement of the prompt *)

Section RefinementOutcome.
Context {B : Browser}.

(** X22. A generation runs to its end whatever becomes of the thumbnail and
    of the refinement of the prompt: the generated image is shown, the
    loaders are off, nothing is left pending, and the two flows were
    called once each.  A refinement that arrives is installed; one that
    fails leaves no refined prompts and, unless its message contains
    [429], no error either: the failure is only logged. *)
Theorem generation_ends_whatever_the_refinement
    (w : World) (p url : jsstring) (l : option LoadedImage)
    (r : Result RefinePromptV2Output) :
  reachable w ->
  blank p = false ->
  let n := nextId w in
  let w4 :=
    steps w [GenerateImage p;
             Settle n (ReplyImage (Fulfilled url));
             Settle (S n) (ReplyImageLoad l);
             Settle (S (S n)) (ReplyRefine r)] in
  imageUrl (st w4) = Some url
  /\ isLoading (st w4) = false
  /\ isRefining (st w4) = false
  /\ activeLoader (st w4) = None
  /\ undoStack (st w4) = []
  /\ pending w4 = pending w
  /\ calls w4 = calls w ++ [CallGenerateImage p; CallRefinePromptV2 p]
  /\ match r with
     | Fulfilled refined =>
         refinedPrompts (st w4) = Some refined /\ error (st w4) = None
     | Rejected e =>
         refinedPrompts (st w4) = None
         /\ error (st w4)
            = if includes (Page.errorMessageOf e) (js "429")
              then Some rateLimitMessage else None
     end.
Proof.
  intros Hr Hb n w4. subst w4 n.
  pose proof (reachable_fresh w Hr) as Hf.
  pose proof (reachable_idle w Hr) as Hhs.
  unfold steps; cbn [fold_left].
  (* the click *)
  change (step w (GenerateImage p))
    with (commit (run (handleGenerateImage p) w)).
  unfold handleGenerateImage. rewrite (not_blank_trim _ Hb).
  cbn [negb run]. rewrite commit_idle by exact Hhs. world.
  (* the image arrives *)
  settle (nextId w) (pending w) Hf. world.
  cbn [run].
  match goal with |- context [run (updateImageHistory ?s ?k) ?x] =>
    change (run (updateImageHistory s k) x)
      with (suspend (updateImageHistory s k) None x);
    destruct (updateImageHistory_settles s k l) as (pre & Hres & Hrun)
  end.
  rewrite commit_idle by exact Hhs. world.
  (* the thumbnail settles *)
  settle_by (S (nextId w)) (pending w) (fresh_weaken w Hf) Hres. world.
  match goal with |- context [run pre ?x] =>
    destruct (Hrun x) as (w3 & -> & Hp3 & Hn3 & Hc3 & h & Hs3 & _) end.
  world_in Hp3. world_in Hn3. world_in Hc3.
  unfold afterGenerated, awaitRefinedPrompts. cbn [run]. world.
  match goal with |- context [step (commit ?x) _] =>
    pose proof (commit_frame x) as (Hs3' & Hc3' & Hp3' & _);
    revert Hs3' Hc3' Hp3'; generalize (commit x);
    intros w3' Hs3' Hc3' Hp3' end.
  world_in Hc3'. world_in Hp3'. rewrite Hp3, Hn3 in Hp3'.
  assert (F1 : imageUrl (st w3') = Some url)
    by (rewrite Hs3'; world; state; rewrite Hs3; reflexivity).
  assert (F2 : undoStack (st w3') = [])
    by (rewrite Hs3'; world; state; rewrite Hs3; reflexivity).
  assert (F3 : error (st w3') = None)
    by (rewrite Hs3'; world; state; rewrite Hs3; reflexivity).
  assert (F4 : refinedPrompts (st w3') = None)
    by (rewrite Hs3'; world; state; rewrite Hs3; reflexivity).
  assert (F5 : calls w3'
               = calls w ++ [CallGenerateImage p; CallRefinePromptV2 p])
    by (rewrite Hc3', Hc3, <- app_assoc; reflexivity).
  clear Hs3' Hs3 Hc3' Hc3.
  (* the refinement settles *)
  assert (Hf2 : Forall (fun ip => fst ip < S (S (nextId w))) (pending w))
    by (apply fresh_below; [exact Hf | lia]).
  rewrite (settle_newest w3' (pending w) (S (S (nextId w))) _ _
             (ReplyRefine r) Hp3' Hf2 eq_refl).
  match goal with |- context [commit ?y] =>
    destruct (commit_frame y) as (-> & -> & -> & _) end.
  destruct r as [refined|e].
  - unfold generateFinally. cbn [run]. world. state.
    rewrite F1, F2, F3, F5. repeat split.
  - unfold handleApiError. fold (Page.errorMessageOf e).
    destruct (includes (Page.errorMessageOf e) (js "429"));
      unfold generateFinally; cbn [run]; world; state;
      rewrite F1, F2, F5, ?F3, ?F4; repeat split.
Qed.

End RefinementOutcome.

(** ** The sample sessions *)

Section PageSessions.
#[local] Existing Instance Example.browser.

(** After six edits and a failed seventh the stack holds four images. *)
Lemma undo_stack_bounded_witness :
  length (undoStack (st (Page.steps (initialWorld None) PageExample.edits)))
  <= 5.
Proof.
  apply undo_stack_bounded. exists None, PageExample.edits. reflexivity.
Defined.

Lemma undo_stack_holds_images_witness :
  let w := Page.steps (initialWorld None) PageExample.edits in
  rollbackUndo (st w)
  = setUndoStack [js "I4"; js "I3"; js "I2"]
      (setImageUrl (Some (js "I5")) (st w)).
Proof.
  intros w.
  apply (proj2 (undo_stack_holds_images w
                  (ex_intro _ None (ex_intro _ PageExample.edits eq_refl)))).
  vm_compute. reflexivity.
Defined.

Lemma history_stays_well_formed_witness :
  Page.wellFormedHistory
    (imageHistory
       (st (Page.steps (initialWorld (Some (js "[]")))
              (Page.Core Mount :: PageExample.edits ++ PageExample.upload)))).
Proof.
  apply (history_stays_well_formed (Some (js "[]"))
           (PageExample.edits ++ PageExample.upload)).
  - intros s l E P. inversion E; subst s. vm_compute in P.
    inversion P; subst l. split; [cbn; lia|]. split; constructor.
  - intros H. vm_compute in H.
    repeat (destruct H as [H|H]; [discriminate H|]). exact H.
Defined.

(** A session the page lets happen: two generations overlapping an
    upload, to the end. *)
Lemma storage_mirrors_history_witness :
  let evs :=
    PageExample.overlapped
    ++ [PageExample.castleRefined; PageExample.dragonRefined] in
  let w := Page.steps (initialWorld None) (Page.Core Mount :: evs) in
  Page.session None evs = true
  /\ length (imageHistory (st w)) = 3
  /\ Page.renders (st w) = true
  /\ localStorage w = Some (JSON_stringify (imageHistory (st w))).
Proof.
  intros evs w. split; [vm_compute; reflexivity|].
  split; [vm_compute; reflexivity|].
  apply (@storage_mirrors_history Example.browser None evs
           (fun _ => eq_refl)).
  - intros s l E. discriminate E.
  - intros H. vm_compute in H.
    repeat (destruct H as [H|H]; [discriminate H|]). exact H.
Defined.

Lemma nothing_pending_nothing_loading_witness :
  let w :=
    Page.steps (initialWorld None)
      (Page.Core Mount :: PageExample.edits ++ PageExample.upload) in
  isLoading (st w) = false /\ activeLoader (st w) = None.
Proof.
  intros w. apply nothing_pending_nothing_loading.
  - exists None, (Page.Core Mount :: PageExample.edits ++ PageExample.upload).
    reflexivity.
  - vm_compute. reflexivity.
Defined.

End PageSessions.

Section ReloadExample.
#[local] Existing Instance PageExample.browser.

(** [a dragon] typed and generated on a page that found the storage
    empty, then the page opened again. *)
Lemma history_survives_reload_witness :
  let w :=
    Page.steps (initialWorld (Some (js "[]")))
      (Page.Core Mount :: PageExample.dragonTyped) in
  let w' := Page.step (initialWorld (localStorage w)) (Page.Core Mount) in
  Page.session (Some (js "[]")) PageExample.dragonTyped = true
  /\ imageHistory (st w) = [JString PageExample.thumbnail]
  /\ imageHistory (st w') = imageHistory (st w)
  /\ Page.renders (st w') = true
  /\ localStorage w' = localStorage w.
Proof.
  intros w w'. split; [vm_compute; reflexivity|].
  split; [vm_compute; reflexivity|].
  refine (@history_survives_reload PageExample.browser (Some (js "[]"))
            PageExample.dragonTyped (fun _ => eq_refl) _ _ _ _).
  - intros s l E P. inversion E; subst s. vm_compute in P.
    inversion P; subst l. reflexivity.
  - intros H. vm_compute in H.
    repeat (destruct H as [H|H]; [discriminate H|]). exact H.
  - vm_compute. discriminate.
  - vm_compute. reflexivity.
Defined.

End ReloadExample.

Section DownloadExample.

Lemma download_extension_is_subtype_witness :
  option_map Page.download (Page.handleDownloadImage PageExample.editedImage)
  = Some (js "make_it_red_.png").
Proof.
  refine (download_extension_is_subtype PageExample.editedImage
            (js "data:image") (js "png") (js ",AAAA") eq_refl _ _);
    intros H; vm_compute in H;
    repeat (destruct H as [H|H]; [discriminate H|]); exact H.
Defined.

Lemma download_extension_without_marker_witness :
  option_map Page.download (Page.handleDownloadImage PageExample.remoteImage)
  = Some (js "visionary_image.https:/").
Proof.
  refine (proj1 (download_extension_without_marker PageExample.remoteImage
                   (js "https://host/a.png") eq_refl _ eq_refl)
            (js "https:") (js "/host/a.png") eq_refl _).
  - discriminate.
  - intros H; vm_compute in H;
      repeat (destruct H as [H|H]; [discriminate H|]); exact H.
Defined.

End DownloadExample.

Section ErrorExample.
#[local] Existing Instance Example.browser.

(** A rate limit met while refining the prompt is shown to the user. *)
Lemma rate_limit_is_reported_for_every_flow_witness :
  error
    (st (run
           (handleApiError (JsError (js "429 Too Many Requests")) CtxRefine
              Done)
           (initialWorld None)))
  = Some rateLimitMessage.
Proof.
  exact (proj1 (proj1 (rate_limit_is_reported_for_every_flow
                         (JsError (js "429 Too Many Requests")) CtxRefine
                         (initialWorld None))
                  eq_refl)).
Defined.

Lemma record_known_thumbnail_moves_it_to_front_witness :
  recordThumbnail (js "c") [JString (js "a"); JString (js "b"); JString (js "c")]
  = [JString (js "c"); JString (js "a"); JString (js "b")].
Proof.
  refine (proj1 (record_known_thumbnail_moves_it_to_front (js "c")
                   [JString (js "a"); JString (js "b"); JString (js "c")]
                   _ _ _)).
  - repeat constructor; cbn [In]; intros H;
      repeat (destruct H as [H|H]; [discriminate H|]); exact H.
  - unfold MAX_HISTORY_LENGTH. cbn [length]. lia.
  - right. right. left. reflexivity.
Defined.

Lemma record_new_thumbnail_evicts_oldest_witness :
  let h := [JString (js "e"); JString (js "d"); JString (js "c");
            JString (js "b"); JString (js "a")] in
  recordThumbnail (js "f") h
  = [JString (js "f"); JString (js "e"); JString (js "d"); JString (js "c");
     JString (js "b")]
  /\ ~ In (JString (js "a")) (recordThumbnail (js "f") h).
Proof.
  intros h.
  refine (proj2 (record_new_thumbnail_evicts_oldest (js "f") h _) eq_refl _).
  - cbn [In h]. intros H.
    repeat (destruct H as [H|H]; [discriminate H|]). exact H.
  - repeat constructor; cbn [In]; intros H;
      repeat (destruct H as [H|H]; [discriminate H|]); exact H.
Defined.

End ErrorExample.

Section CanvasExample.
Import JsNumber.

Lemma thumbnail_never_enlarges_witness :
  let '(cw, ch) :=
    Thumbnail.canvasSize (ofZ 1024) (ofZ 768) Thumbnail.defaultMaxSize in
  (0 <= cw <= 1024 /\ 0 <= ch <= 768)%Z.
Proof.
  refine (thumbnail_never_enlarges 1024 768 _ _);
    (split; [discriminate | reflexivity]).
Defined.

(** A strip of 2000 by 4 gives a canvas of height zero. *)
Lemma thumbnail_of_sliver_has_no_area_witness :
  Thumbnail.canvasSize (ofZ 2000) (ofZ 4) Thumbnail.defaultMaxSize
  = (400, 0)%Z.
Proof.
  refine (proj1 (thumbnail_of_sliver_has_no_area 2000 4 _ _) _ _);
    try (split; [discriminate | reflexivity]); reflexivity.
Defined.

End CanvasExample.

Section FlowExamples.
#[local] Existing Instance Example.browser.

(** The world after the dragon has been generated, refinements included. *)
Lemma failed_generation_leaves_no_image_witness :
  let w :=
    steps (initialWorld None)
      (PageExample.dragonShown
       ++ [Settle 2 (ReplyRefine (Fulfilled Example.dragon))]) in
  imageUrl (st w) = Some (js "I0")
  /\ imageUrl
       (st (steps w [GenerateImage (js "a castle");
                     Settle (nextId w)
                       (ReplyImage (Rejected (JsError (js "boom"))))]))
     = None.
Proof.
  intros w. split; [vm_compute; reflexivity|].
  refine (proj1 (failed_generation_leaves_no_image w (js "a castle")
                   (JsError (js "boom")) _ eq_refl)).
  exists None. eexists. reflexivity.
Defined.

Lemma thumbnail_failure_does_not_stop_generation_witness :
  let w := initialWorld None in
  calls
    (steps w [GenerateImage (js "a dragon");
              Settle (nextId w) (ReplyImage (Fulfilled (js "I0")));
              Settle (S (nextId w)) (ReplyImageLoad None)])
  = [CallGenerateImage (js "a dragon"); CallRefinePromptV2 (js "a dragon")].
Proof.
  intros w.
  refine (proj1 (proj2 (proj2 (proj2 (proj2
            (thumbnail_failure_does_not_stop_generation w (js "a dragon")
               (js "I0") None _ eq_refl Logic.I)))))).
  exists None, []. reflexivity.
Defined.

Lemma suggestion_refresh_outcome_witness :
  let w := steps (initialWorld None) PageExample.dragonShown in
  suggestedEdits
    (st (steps w [SuggestEdits;
                  Settle (nextId w)
                    (ReplySuggest (Fulfilled Example.noSuggestions))]))
  = Some Example.noSuggestions.
Proof.
  intros w.
  refine (proj1 (proj1 (suggestion_refresh_outcome w (js "I0")
                          (Fulfilled Example.noSuggestions) _ eq_refl _))).
  - exists None, PageExample.dragonShown. reflexivity.
  - discriminate.
Defined.

Lemma undo_reverts_successful_edit_witness :
  let w := steps (initialWorld None) PageExample.dragonShown in
  let w4 :=
    steps w [EditImage (Some (js "make it red"));
             Settle (nextId w) (ReplyImage (Fulfilled (js "I1")));
             Settle (S (nextId w)) (ReplyImageLoad Example.loaded640x480);
             Settle (S (S (nextId w)))
               (ReplySuggest (Fulfilled Example.noSuggestions))] in
  imageUrl (st w4) = Some (js "I1")
  /\ imageUrl (st (step w4 Undo)) = Some (js "I0").
Proof.
  intros w w4.
  assert (H : reachable w)
    by (exists None, PageExample.dragonShown; reflexivity).
  assert (Ha : js "I0" <> []) by discriminate.
  pose proof (undo_reverts_successful_edit w (Some (js "make it red"))
                (js "I0") (js "I1") Example.loaded640x480
                (Fulfilled Example.noSuggestions) H eq_refl Ha eq_refl) as U.
  split; [exact (proj1 (proj1 U)) | exact (proj1 (proj2 U))].
Defined.

Lemma upload_accepts_images_only_witness :
  let w := initialWorld None in
  let w' := Page.step w (Page.FileSelected (Some (Page.mkFile (js "text/plain")))) in
  error (st w') = Some Page.invalidFileType /\ imageUrl (st w') = None.
Proof.
  intros w w'.
  assert (H : Page.reachable w) by (exists None, []; reflexivity).
  assert (Hf : Some (Page.mkFile (js "text/plain")) <> None) by discriminate.
  pose proof (proj1 (proj2
                (upload_accepts_images_only w
                   (Some (Page.mkFile (js "text/plain"))) H) Hf eq_refl))
    as U.
  fold w' in U. rewrite U. split; reflexivity.
Defined.

Lemma upload_shows_and_analyses_the_original_witness :
  let w := initialWorld None in
  let w2 :=
    Page.steps w
      [Page.FileLoaded (js "data:image/png;base64,AAAA");
       Page.Core (Settle (nextId w) (ReplyImageLoad Example.loaded640x480))] in
  imageUrl (st w2) = Some (js "data:image/png;base64,AAAA")
  /\ calls w2 = [CallSuggestEdits (js "data:image/png;base64,AAAA")].
Proof.
  intros w w2.
  assert (H : Page.reachable w) by (exists None, []; reflexivity).
  pose proof (upload_shows_and_analyses_the_original w
                (js "data:image/png;base64,AAAA") Example.loaded640x480 H)
    as U.
  split; [exact (proj1 U)|].
  exact (proj1 (proj2 (proj2 (proj2 (proj2 (proj2 (proj2 U))))))).
Defined.

(** A refinement that fails for another reason than a rate limit shows
    no error. *)
Lemma generation_ends_whatever_the_refinement_witness :
  let w := initialWorld None in
  let w4 :=
    steps w [GenerateImage (js "a dragon");
             Settle (nextId w) (ReplyImage (Fulfilled (js "I0")));
             Settle (S (nextId w)) (ReplyImageLoad Example.loaded640x480);
             Settle (S (S (nextId w)))
               (ReplyRefine (Rejected (JsError (js "model overloaded"))))] in
  imageUrl (st w4) = Some (js "I0") /\ error (st w4) = None.
Proof.
  intros w w4.
  assert (H : reachable w) by (exists None, []; reflexivity).
  pose proof (generation_ends_whatever_the_refinement w (js "a dragon")
                (js "I0") Example.loaded640x480
                (Rejected (JsError (js "model overloaded"))) H eq_refl) as U.
  split; [exact (proj1 U)|].
  exact (proj2 (proj2 (proj2 (proj2 (proj2 (proj2 (proj2 (proj2 U)))))))).
Defined.

End FlowExamples.

Section FullStorageExample.
#[local] Existing Instance PageExample.fullBrowser.

Lemma full_storage_keeps_thumbnail_in_memory_only_witness :
  let w := initialWorld None in
  let w3 :=
    steps w [GenerateImage (js "a dragon");
             Settle (nextId w) (ReplyImage (Fulfilled (js "I0")));
             Settle (S (nextId w)) (ReplyImageLoad Example.loaded640x480)] in
  imageHistory (st w3) = [JString PageExample.thumbnail]
  /\ localStorage w3 = None.
Proof.
  intros w w3.
  assert (H : reachable w) by (exists None, []; reflexivity).
  pose proof (full_storage_keeps_thumbnail_in_memory_only w (js "a dragon")
                (js "I0") (mkLoaded 640 480 true) PageExample.quotaExceeded
                H eq_refl eq_refl eq_refl) as U.
  split; [exact (proj1 U) | exact (proj1 (proj2 (proj2 U)))].
Defined.

End FullStorageExample.
